(** * docparser: the text-extraction engine of [internal/extract/extract.go]

    A shallow embedding of the Go package [extract] and of the parts of the
    Go standard library it calls, followed by the properties of the
    extraction engine.

    Conventions.
    - A Go [byte] is a [Z] in [0, 256); a Go [string] or [[]byte] is a
      [list Z] of bytes.  Every function below is total on [list Z]; the
      theorems quantify over all lists, which covers all byte sequences.
    - A Go [rune] is an [int32], a [Z] in [-2^31, 2^31).
    - Go's [int] is the 64-bit one of the amd64/arm64 targets; conversions
      and arithmetic that can leave the range are written with [wrap_int],
      [to_int32], [to_uint32], [to_uint16] and [to_byte].
    - A Go result [(string, error)] is a pair [gostring * option error];
      [None] is the [nil] error. *)

From Stdlib Require Import String Ascii.
From Stdlib Require Import ZArith List Lia Bool.
Import ListNotations.
Local Open Scope Z_scope.

Abbreviation byte := Z (only parsing).
Abbreviation rune := Z (only parsing).
Abbreviation gostring := (list Z) (only parsing).
Abbreviation error := (list Z) (only parsing).

(** String literals of the source, as byte lists (ASCII only). *)
Definition bytes_of_string (s : string) : gostring :=
  map (fun a => Z.of_N (N_of_ascii a)) (list_ascii_of_string s).
Arguments bytes_of_string s%_string.

Definition wrap_int (z : Z) : Z := (z + 2^63) mod 2^64 - 2^63.
Definition to_int32 (z : Z) : Z := (z + 2^31) mod 2^32 - 2^31.
Definition to_uint32 (z : Z) : Z := z mod 2^32.
Definition to_uint16 (z : Z) : Z := z mod 2^16.
Definition to_byte (z : Z) : Z := z mod 2^8.

Fixpoint list_eqb (a b : list Z) : bool :=
  match a, b with
  | [], [] => true
  | x :: a', y :: b' => (x =? y) && list_eqb a' b'
  | _, _ => false
  end.

(** [bytes.HasPrefix] / [strings.HasPrefix]. *)
Fixpoint HasPrefix (s prefix : gostring) : bool :=
  match prefix, s with
  | [], _ => true
  | p :: prefix', c :: s' => (c =? p) && HasPrefix s' prefix'
  | _ :: _, [] => false
  end.

(** The maximal prefix of [s] whose bytes satisfy [p], and what follows it:
    the loops [for i < len(data) && p(data[i]) { i++ }]. *)
Fixpoint span (p : Z -> bool) (s : gostring) : gostring * gostring :=
  match s with
  | c :: s' => if p c then let (u, v) := span p s' in (c :: u, v) else ([], s)
  | [] => ([], [])
  end.

(** ** Package [unicode/utf8] *)
Module utf8.

Definition RuneError : rune := 0xFFFD.
Definition RuneSelf := 0x80.
Definition MaxRune := 0x10FFFF.
Definition surrogateMin := 0xD800.
Definition surrogateMax := 0xDFFF.

Definition t1 := 0x00.
Definition tx := 0x80.
Definition t2 := 0xC0.
Definition t3 := 0xE0.
Definition t4 := 0xF0.
Definition maskx := 0x3F.
Definition mask2 := 0x1F.
Definition mask3 := 0x0F.
Definition mask4 := 0x07.
Definition rune1Max := 0x7F.
Definition rune2Max := 0x7FF.
Definition rune3Max := 0xFFFF.
Definition locb := 0x80.
Definition hicb := 0xBF.

Definition xx := 0xF1.
Definition as_ := 0xF0.
Definition s1 := 0x02.
Definition s2 := 0x13.
Definition s3 := 0x03.
Definition s4 := 0x23.
Definition s5 := 0x34.
Definition s6 := 0x04.
Definition s7 := 0x44.

(** The table [first [256]uint8], by ranges of the first byte. *)
Definition first (b : byte) : Z :=
  if b <? 0x80 then as_
  else if b <? 0xC2 then xx
  else if b <? 0xE0 then s1
  else if b =? 0xE0 then s2
  else if b <? 0xED then s3
  else if b =? 0xED then s4
  else if b <? 0xF0 then s3
  else if b =? 0xF0 then s5
  else if b <? 0xF4 then s6
  else if b =? 0xF4 then s7
  else xx.

(** The table [acceptRanges [16]acceptRange] as pairs [(lo, hi)]. *)
Definition acceptRanges (k : Z) : Z * Z :=
  if k =? 0 then (locb, hicb)
  else if k =? 1 then (0xA0, hicb)
  else if k =? 2 then (locb, 0x9F)
  else if k =? 3 then (0x90, hicb)
  else if k =? 4 then (locb, 0x8F)
  else (0, 0).

(** [DecodeRuneInString]: the rune at the head of [s] and its width. *)
Definition DecodeRuneInString (s : gostring) : rune * nat :=
  match s with
  | [] => (RuneError, 0%nat)
  | s0 :: r0 =>
    let x := first s0 in
    if x >=? as_ then
      let mask := Z.shiftr (to_int32 (Z.shiftl x 31)) 31 in
      (Z.lor (Z.land s0 (Z.lnot mask)) (Z.land RuneError mask), 1%nat)
    else
      let sz := Z.land x 7 in
      let accept := acceptRanges (Z.shiftr x 4) in
      if Z.of_nat (length s) <? sz then (RuneError, 1%nat)
      else
        match r0 with
        | [] => (RuneError, 1%nat)
        | c1 :: r1 =>
          if (c1 <? fst accept) || (snd accept <? c1) then (RuneError, 1%nat)
          else if sz <=? 2 then
            (Z.lor (Z.shiftl (Z.land s0 mask2) 6) (Z.land c1 maskx), 2%nat)
          else
            match r1 with
            | [] => (RuneError, 1%nat)
            | c2 :: r2 =>
              if (c2 <? locb) || (hicb <? c2) then (RuneError, 1%nat)
              else if sz <=? 3 then
                (Z.lor (Z.lor (Z.shiftl (Z.land s0 mask3) 12)
                              (Z.shiftl (Z.land c1 maskx) 6))
                       (Z.land c2 maskx), 3%nat)
              else
                match r2 with
                | [] => (RuneError, 1%nat)
                | c3 :: _ =>
                  if (c3 <? locb) || (hicb <? c3) then (RuneError, 1%nat)
                  else
                    (Z.lor (Z.lor (Z.lor (Z.shiftl (Z.land s0 mask4) 18)
                                         (Z.shiftl (Z.land c1 maskx) 12))
                                  (Z.shiftl (Z.land c2 maskx) 6))
                           (Z.land c3 maskx), 4%nat)
                end
            end
        end
  end.

(** The loop [for _, r := range s]: the runes of [s] in order, an invalid
    byte giving [RuneError] and advancing by one.  [skip] counts the bytes
    of the current rune still to pass over. *)
Fixpoint range_from (skip : nat) (s : gostring) : list rune :=
  match s with
  | [] => []
  | _ :: s' =>
    match skip with
    | S k => range_from k s'
    | O => let (r, size) := DecodeRuneInString s in
           r :: range_from (Nat.pred size) s'
    end
  end.

Definition range (s : gostring) : list rune := range_from 0 s.

(** [Valid] / [ValidString]: the loop of the source, [skip] counting the
    continuation bytes already checked. *)
Fixpoint valid_from (skip : nat) (p : gostring) : bool :=
  match p with
  | [] => true
  | pi :: p' =>
    match skip with
    | S k => valid_from k p'
    | O =>
      if pi <? RuneSelf then valid_from 0 p'
      else
        let x := first pi in
        if x =? xx then false
        else
          let size := Z.land x 7 in
          if Z.of_nat (length p) <? size then false
          else
            let accept := acceptRanges (Z.shiftr x 4) in
            let c1 := nth 1 p 0 in
            if (c1 <? fst accept) || (snd accept <? c1) then false
            else if size =? 2 then valid_from 1 p'
            else
              let c2 := nth 2 p 0 in
              if (c2 <? locb) || (hicb <? c2) then false
              else if size =? 3 then valid_from 2 p'
              else
                let c3 := nth 3 p 0 in
                if (c3 <? locb) || (hicb <? c3) then false
                else valid_from 3 p'
    end
  end.

Definition Valid (p : gostring) : bool := valid_from 0 p.
Definition ValidString (s : gostring) : bool := valid_from 0 s.

(** [AppendRune], with [appendRuneNonASCII] inlined. *)
Definition AppendRune (p : gostring) (r : rune) : gostring :=
  let i := to_uint32 r in
  if i <=? rune1Max then p ++ [to_byte r]
  else if i <=? rune2Max then
    p ++ [Z.lor t2 (to_byte (Z.shiftr r 6));
          Z.lor tx (Z.land (to_byte r) maskx)]
  else
    let enc3 (r : rune) :=
      p ++ [Z.lor t3 (to_byte (Z.shiftr r 12));
            Z.lor tx (Z.land (to_byte (Z.shiftr r 6)) maskx);
            Z.lor tx (Z.land (to_byte r) maskx)] in
    if (i >? MaxRune) || ((surrogateMin <=? i) && (i <=? surrogateMax))
    then enc3 RuneError
    else if i <=? rune3Max then enc3 r
    else
      p ++ [Z.lor t4 (to_byte (Z.shiftr r 18));
            Z.lor tx (Z.land (to_byte (Z.shiftr r 12)) maskx);
            Z.lor tx (Z.land (to_byte (Z.shiftr r 6)) maskx);
            Z.lor tx (Z.land (to_byte r) maskx)].

End utf8.

(** The conversion [string(runes)] of a [[]rune]. *)
Definition string_of_runes (rs : list rune) : gostring :=
  fold_left utf8.AppendRune rs [].

(** ** Package [unicode/utf16] *)
Module utf16.

Definition replacementChar : rune := 0xFFFD.
Definition surr1 := 0xd800.
Definition surr2 := 0xdc00.
Definition surr3 := 0xe000.
Definition surrSelf := 0x10000.

Definition DecodeRune (r1 r2 : rune) : rune :=
  if (surr1 <=? r1) && (r1 <? surr2) && (surr2 <=? r2) && (r2 <? surr3)
  then Z.lor (Z.shiftl (r1 - surr1) 10) (r2 - surr2) + surrSelf
  else replacementChar.

Fixpoint Decode (s : list Z) : list rune :=
  match s with
  | [] => []
  | r :: t =>
    if (r <? surr1) || (surr3 <=? r) then r :: Decode t
    else
      match t with
      | r2 :: t2 =>
        if (surr1 <=? r) && (r <? surr2) && (surr2 <=? r2) && (r2 <? surr3)
        then DecodeRune r r2 :: Decode t2
        else replacementChar :: Decode t
      | [] => replacementChar :: Decode t
      end
  end.

End utf16.

(** The loops [for j := 2; j+1 < len(bs); j += 2] building the UTF-16 code
    units, applied to [bs[2:]]. *)
Fixpoint units_le (s : gostring) : list Z :=
  match s with
  | lo :: hi :: t =>
    Z.lor (to_uint16 lo) (to_uint16 (Z.shiftl (to_uint16 hi) 8)) :: units_le t
  | _ => []
  end.

Fixpoint units_be (s : gostring) : list Z :=
  match s with
  | hi :: lo :: t =>
    Z.lor (to_uint16 lo) (to_uint16 (Z.shiftl (to_uint16 hi) 8)) :: units_be t
  | _ => []
  end.

(** ** Package [strings] *)
Module strings.

(** [Replace(s, old, new, -1)] for a non-empty [old]: the occurrences of
    [old] are found left to right without overlap.  [skip] counts the bytes
    of the occurrence being replaced that are still to pass over. *)
Fixpoint replace_from (old new : gostring) (skip : nat) (s : gostring)
  : gostring :=
  match s with
  | [] => []
  | c :: s' =>
    match skip with
    | S k => replace_from old new k s'
    | O =>
      if HasPrefix s old
      then new ++ replace_from old new (Nat.pred (length old)) s'
      else c :: replace_from old new 0 s'
    end
  end.

(** For an empty [old], [Replace] puts [new] before every rune and at the
    end. *)
Fixpoint replace_empty (new : gostring) (skip : nat) (s : gostring)
  : gostring :=
  match s with
  | [] => new
  | c :: s' =>
    match skip with
    | S k => c :: replace_empty new k s'
    | O => new ++ c ::
           replace_empty new (Nat.pred (snd (utf8.DecodeRuneInString s))) s'
    end
  end.

Definition ReplaceAll (s old new : gostring) : gostring :=
  if list_eqb old new then s
  else
    match old with
    | [] => replace_empty new 0 s
    | _ :: _ => replace_from old new 0 s
    end.

(** [Index(s, substr) >= 0]. *)
Fixpoint Contains (s substr : gostring) : bool :=
  HasPrefix s substr ||
  match s with
  | [] => false
  | _ :: s' => Contains s' substr
  end.

Definition ValidRune (r : rune) : bool :=
  ((0 <=? r) && (r <? utf8.surrogateMin)) ||
  ((utf8.surrogateMax <? r) && (r <=? utf8.MaxRune)).

(** [ContainsRune(s, r)] is [IndexRune(s, r) >= 0], and [IndexRune] has
    four cases: a byte search for an ASCII rune, a [range] over [s] for
    [RuneError] (which thus also finds the bytes that are not valid
    UTF-8), nothing for any other invalid rune, and a search for the
    encoding of the rune otherwise. *)
Definition ContainsRune (s : gostring) (r : rune) : bool :=
  if (0 <=? r) && (r <? utf8.RuneSelf)
  then existsb (fun c => c =? to_byte r) s
  else if r =? utf8.RuneError
  then existsb (fun r' => r' =? utf8.RuneError) (utf8.range s)
  else if negb (ValidRune r) then false
  else Contains s (utf8.AppendRune [] r).

Section WithUnicode.

(** [unicode.ToLower] for a rune that is not ASCII: the tables of package
    [unicode] are not part of this repository. *)
Variable unicode_ToLower : rune -> rune.

(** [Map]: the runes of [s] mapped one by one, a negative result
    dropped. *)
Definition Map (mapping : rune -> rune) (s : gostring) : gostring :=
  flat_map (fun c => let r := mapping c in
                     if r >=? 0 then utf8.AppendRune [] r else [])
           (utf8.range s).

(** [ToLower]: bytewise for an ASCII string, by [Map] otherwise. *)
Definition ToLower (s : gostring) : gostring :=
  if forallb (fun c => c <? utf8.RuneSelf) s then
    map (fun c => if (65 <=? c) && (c <=? 90) then c + 32 else c) s
  else Map unicode_ToLower s.

End WithUnicode.

End strings.

(** ** Package [strconv] *)
Module strconv.

Definition isDigit (c : byte) : bool := (48 <=? c) && (c <=? 57).

(** [Atoi]: an optional sign and at least one decimal digit, the value
    within [int]; [None] is any error.  The fast path (fewer than 19
    bytes) and [ParseInt(s, 10, 0)] agree on this. *)
Definition Atoi (s : gostring) : option Z :=
  let '(neg, ds) :=
    match s with
    | c :: t => if c =? 45 then (true, t)
                else if c =? 43 then (false, t) else (false, s)
    | [] => (false, [])
    end in
  match ds with
  | [] => None
  | _ :: _ =>
    if forallb isDigit ds then
      let n := fold_left (fun n ch => n * 10 + (ch - 48)) ds 0 in
      let v := if neg : bool then - n else n in
      if (- 2^63 <=? v) && (v <? 2^63) then Some v else None
    else None
  end.

End strconv.

(** ** Package [encoding/hex] *)
Module hex.

(** [reverseHexTable]: the value of a hex digit, [0xff] otherwise. *)
Definition reverseHexTable (c : byte) : Z :=
  if (48 <=? c) && (c <=? 57) then c - 48
  else if (97 <=? c) && (c <=? 102) then c - 97 + 10
  else if (65 <=? c) && (c <=? 70) then c - 65 + 10
  else 0xff.

(** [Decode(dst[:], hh)] for a two-byte [hh]: the decoded byte, [None] for
    an [InvalidByteError]. *)
Definition Decode (p q : byte) : option byte :=
  let a := reverseHexTable p in
  let b := reverseHexTable q in
  if a >? 0x0f then None
  else if b >? 0x0f then None
  else Some (Z.lor (to_byte (Z.shiftl a 4)) b).

End hex.

(** ** Package [regexp], for the three patterns of [extractRTF]

    [ReplaceAllString] scans left to right; at the first position where
    the pattern matches it takes the leftmost-first match there, writes
    the expansion of the template and goes on after the match.  None of
    the three patterns matches the empty string, and all three are made of
    ASCII bytes only, so that matching on bytes and on runes agree.  A
    [matcher] gives, for the unread input, the length of the match that
    starts at its head and the expanded template. *)
Module regexp.

Definition matcher := gostring -> option (nat * gostring).

Fixpoint replace_from (m : matcher) (skip : nat) (s : gostring) : gostring :=
  match s with
  | [] => []
  | c :: s' =>
    match skip with
    | S k => replace_from m k s'
    | O =>
      match m s with
      | Some (n, repl) => repl ++ replace_from m (Nat.pred n) s'
      | None => c :: replace_from m 0 s'
      end
    end
  end.

Definition ReplaceAllString (m : matcher) (src : gostring) : gostring :=
  replace_from m 0 src.

Definition is_newline (c : byte) : bool := c =? 10.
Definition is_blank (c : byte) : bool := (c =? 32) || (c =? 9).
(** The class [\s] is [[\t\n\f\r ]]. *)
Definition is_space (c : byte) : bool :=
  (c =? 9) || (c =? 10) || (c =? 12) || (c =? 13) || (c =? 32).
(** The class [[,.:;!?]]. *)
Definition is_punct (c : byte) : bool :=
  (c =? 44) || (c =? 46) || (c =? 58) || (c =? 59) || (c =? 33) || (c =? 63).

(** [\n{2,}] with the template ["\n"]: greedy, the whole run. *)
Definition reNewlines : matcher := fun s =>
  let (u, _) := span is_newline s in
  if (2 <=? length u)%nat then Some (length u, [10]) else None.

(** [[ \t]{2,}] with the template [" "]. *)
Definition reSpaces : matcher := fun s =>
  let (u, _) := span is_blank s in
  if (2 <=? length u)%nat then Some (length u, [32]) else None.

(** [\s+([,.:;!?])] with the template ["$1"]: the punctuation byte is not
    in [\s], so the only match at a position is the whole run of spaces
    followed by that byte. *)
Definition reSpaceBeforePunct : matcher := fun s =>
  let (u, v) := span is_space s in
  match u, v with
  | _ :: _, p :: _ => if is_punct p then Some (S (length u), [p]) else None
  | _, _ => None
  end.

End regexp.

(** * Package [extract] *)

(** ** extractRTF *)
Module RTF.

(** The variables of the tokenizer loop: [rest] is [data[i:]], the unread
    input; [b] is the contents of the [strings.Builder]. *)
Record state := mkState {
  rest : gostring;
  depth : Z;
  skipUntilDepth : Z;
  b : gostring
}.

Definition isLetter (c : byte) : bool :=
  ((97 <=? c) && (c <=? 122)) || ((65 <=? c) && (c <=? 90)).

Definition isDigit (c : byte) : bool := (48 <=? c) && (c <=? 57).

(** [if skipUntilDepth < 0 { b.Write...(bs) }]. *)
Definition emit (skip : Z) (b bs : gostring) : gostring :=
  if skip <? 0 then b ++ bs else b.

(** The words of [case "fonttbl", "colortbl", ...]. *)
Definition isDestination (word : gostring) : bool :=
  list_eqb word (bytes_of_string "fonttbl") ||
  list_eqb word (bytes_of_string "colortbl") ||
  list_eqb word (bytes_of_string "stylesheet") ||
  list_eqb word (bytes_of_string "info") ||
  list_eqb word (bytes_of_string "pict") ||
  list_eqb word (bytes_of_string "header") ||
  list_eqb word (bytes_of_string "footer").

(** [if i < len(data) && data[i] == c { i++ }]. *)
Definition swallow (c : byte) (r : gostring) : gostring :=
  match r with
  | x :: r' => if x =? c then r' else r
  | [] => r
  end.

(** A control symbol: [r1] is the input after the symbol [sym]. *)
Definition control_symbol (sym : byte) (r1 : gostring) (d skip : Z)
  (b : gostring) : state :=
  if (sym =? 92) || (sym =? 123) || (sym =? 125) then
    mkState r1 d skip (emit skip b [sym])
  else if sym =? 126 then mkState r1 d skip (emit skip b [32])
  else if sym =? 45 then mkState r1 d skip b
  else if sym =? 95 then mkState r1 d skip (emit skip b [45])
  else if sym =? 42 then mkState r1 d (if skip <? 0 then d else skip) b
  else if sym =? 39 then
    match r1 with
    | h1 :: h2 :: r2 =>
      match hex.Decode h1 h2 with
      | Some v => mkState r2 d skip (emit skip b [v])
      | None => mkState r2 d skip b
      end
    | _ => mkState r1 d skip b
    end
  else mkState r1 d skip b.

(** The optional numeric argument and the handling of [\uN]: [r2] is the
    input after the letters of [word].  Returns the input after the
    argument (and after the [?] of a [\uN]) and the builder. *)
Definition numeric_argument (word r2 : gostring) (skip : Z) (b : gostring)
  : gostring * gostring :=
  match r2 with
  | c :: r2' =>
    if (c =? 45) || isDigit c then
      let neg := c =? 45 in
      let (numStr, r4) := span isDigit (if neg then r2' else r2) in
      if list_eqb word (bytes_of_string "u") then
        match strconv.Atoi numStr with
        | Some v =>
          let v := if neg then wrap_int (- v) else v in
          (swallow 63 r4, emit skip b (utf8.AppendRune [] (to_int32 v)))
        | None => (r4, b)
        end
      else (r4, b)
    else (r2, b)
  | [] => (r2, b)
  end.

(** A control word: [r] is the input from its first letter on. *)
Definition control_word (r : gostring) (d skip : Z) (b : gostring) : state :=
  let (word, r2) := span isLetter r in
  let (r3, b1) := numeric_argument word r2 skip b in
  let r4 := swallow 32 r3 in
  if list_eqb word (bytes_of_string "par") ||
     list_eqb word (bytes_of_string "line")
  then mkState r4 d skip (emit skip b1 [10])
  else if list_eqb word (bytes_of_string "tab")
  then mkState r4 d skip (emit skip b1 [9])
  else if isDestination word
  then mkState r4 d (if skip <? 0 then d else skip) b1
  else mkState r4 d skip b1.

(** One iteration of [for i < len(data)]. *)
Definition step (st : state) : state :=
  let d := depth st in
  let skip := skipUntilDepth st in
  match rest st with
  | [] => st
  | c :: r =>
    if c =? 123 then mkState r (wrap_int (d + 1)) skip (b st)
    else if c =? 125 then
      mkState r (if d >? 0 then d - 1 else d)
              (if (skip >=? 0) && (d =? skip) then -1 else skip) (b st)
    else if c =? 92 then
      match r with
      | [] => mkState [] d skip (b st)
      | sym :: r1 =>
        if negb (isLetter sym) then control_symbol sym r1 d skip (b st)
        else control_word r d skip (b st)
      end
    else if (c =? 13) || (c =? 10) then mkState r d skip (b st)
    else mkState r d skip (emit skip (b st) [c])
  end.

Definition init (data : gostring) : state := mkState data 0 (-1) [].

(** The state after [n] iterations. *)
Fixpoint iter (n : nat) (st : state) : state :=
  match n with
  | O => st
  | S n' => iter n' (step st)
  end.

(** The loop [for i < len(data) { ... }], with at most [fuel] iterations. *)
Fixpoint loop (fuel : nat) (st : state) : state :=
  match fuel with
  | O => st
  | S fuel' =>
    match rest st with
    | [] => st
    | _ :: _ => loop fuel' (step st)
    end
  end.

(** The builder when the loop is left; every iteration reads at least one
    byte, so [length data] iterations are enough (see [loop_exits]). *)
Definition tokenize (data : gostring) : gostring :=
  b (loop (length data) (init data)).

(** Lines 294-301: the whitespace normalization. *)
Definition normalize (out : gostring) : gostring :=
  let out := strings.ReplaceAll out [13; 10] [10] in
  let out := strings.ReplaceAll out [13] [10] in
  let out := regexp.ReplaceAllString regexp.reNewlines out in
  let out := regexp.ReplaceAllString regexp.reSpaces out in
  regexp.ReplaceAllString regexp.reSpaceBeforePunct out.

(** Lines 302-324. *)
Definition finish (out : gostring) : gostring * option error :=
  if negb (utf8.ValidString out) then
    match out with
    | b0 :: b1 :: bs =>
      if (b0 =? 0xFF) && (b1 =? 0xFE)
      then (string_of_runes (utf16.Decode (units_le bs)), None)
      else if (b0 =? 0xFE) && (b1 =? 0xFF)
      then (string_of_runes (utf16.Decode (units_be bs)), None)
      else (out, None)
    | _ => (out, None)
    end
  else (out, None).

Definition extractRTF (data : gostring) : gostring * option error :=
  finish (normalize (tokenize data)).

End RTF.

(** ** Package [golang.org/x/text/encoding/charmap]

    The package is not part of this repository.  A [Charmap] holds a
    table [decode [256]utf8Enc] giving for every byte the one to three
    bytes of UTF-8 it decodes to (a byte without a mapping holds the
    encoding of U+FFFD).  Its decoder reports no error of its own, and
    [io.ReadAll] over a [transform.Reader] over a [bytes.Reader] returns
    all the decoded bytes with a nil error: the [continue] of line 393
    is never taken.  The five tables the program uses are parameters of
    the development ([Package]); the published tables are given below
    ([Tables]) and used in the examples. *)
Module charmap.

Inductive utf8Enc :=
| enc1 (b0 : byte)
| enc2 (b0 b1 : byte)
| enc3 (b0 b1 b2 : byte).

Definition enc_bytes (e : utf8Enc) : gostring :=
  match e with
  | enc1 b0 => [b0]
  | enc2 b0 b1 => [b0; b1]
  | enc3 b0 b1 b2 => [b0; b1; b2]
  end.

Record Charmap := mkCharmap {
  name : gostring;
  asciiSuperset : bool;
  decode : byte -> utf8Enc
}.

(** [charmapDecoder.Transform] over the whole input. *)
Definition decode_byte (m : Charmap) (c : byte) : gostring :=
  if asciiSuperset m && (c <? utf8.RuneSelf) then [c]
  else enc_bytes (decode m c).

Definition Decode (m : Charmap) (src : gostring) : gostring :=
  flat_map (decode_byte m) src.

Record Package := mkPackage {
  Windows1251 : Charmap;
  KOI8R : Charmap;
  ISO8859_5 : Charmap;
  MacintoshCyrillic : Charmap;
  CodePage866 : Charmap
}.

End charmap.

(** ** extractTXT, decodeBestCyrillic, scoreCyrillicText *)
Module TXT.

Record counters := mkCounters {
  cyr : Z;
  asciiPrint : Z;
  repl : Z;
  ctrl : Z
}.

(** The [switch] in the body of [for _, r := range s].  Each counter is
    at most the number of runes of [s], hence at most [len(s)], an
    [int]: the increments cannot wrap. *)
Definition count_rune (k : counters) (r : rune) : counters :=
  if r =? 0xFFFD then mkCounters (cyr k) (asciiPrint k) (repl k + 1) (ctrl k)
  else if (0x0400 <=? r) && (r <=? 0x052F)
  then mkCounters (cyr k + 1) (asciiPrint k) (repl k) (ctrl k)
  else if (0x20 <=? r) && (r <=? 0x7E)
  then mkCounters (cyr k) (asciiPrint k + 1) (repl k) (ctrl k)
  else if (r <? 0x20) && negb (r =? 10) && negb (r =? 9) && negb (r =? 13)
  then mkCounters (cyr k) (asciiPrint k) (repl k) (ctrl k + 1)
  else k.

Definition scoreCyrillicText (s : gostring) : Z :=
  match s with
  | [] => -1000000
  | _ :: _ =>
    let k := fold_left count_rune (utf8.range s) (mkCounters 0 0 0 0) in
    wrap_int (3 * cyr k + asciiPrint k - 50 * repl k - 5 * ctrl k)
  end.

(** Lines 336-337, 346-347, 353-354, 359-360, 369-370. *)
Definition normalize_newlines (s : gostring) : gostring :=
  strings.ReplaceAll (strings.ReplaceAll s [13; 10] [10]) [13] [10].

(** [len(data) >= 2 && data[0] == b0 && data[1] == b1]. *)
Definition has_bom (b0 b1 : byte) (data : gostring) : bool :=
  match data with
  | d0 :: d1 :: _ => (d0 =? b0) && (d1 =? b1)
  | _ => false
  end.

Section WithCharmaps.

Variable pkg : charmap.Package.

Definition candidates : list charmap.Charmap :=
  [ charmap.Windows1251 pkg; charmap.KOI8R pkg; charmap.ISO8859_5 pkg;
    charmap.MacintoshCyrillic pkg; charmap.CodePage866 pkg ].

(** The body of [for _, c := range candidates] on [(bestText, bestScore)]. *)
Definition try_candidate (data : gostring) (best : gostring * Z)
  (c : charmap.Charmap) : gostring * Z :=
  let text := charmap.Decode c data in
  let score := scoreCyrillicText text in
  if score >? snd best then (text, score) else best.

(** [bestText] starts empty and [bestScore] at [int(-1 << 31)]. *)
Definition decodeBestCyrillic (data : gostring) : gostring * bool :=
  let (bestText, _) :=
    fold_left (try_candidate data) candidates ([], - 2^31) in
  match bestText with
  | [] => ([], false)
  | _ :: _ =>
    if strings.ContainsRune bestText 0xFFFD then ([], false)
    else (bestText, true)
  end.

Definition extractTXT (data : gostring) : gostring * option error :=
  if has_bom 0xFF 0xFE data then
    (normalize_newlines
       (string_of_runes (utf16.Decode (units_le (skipn 2 data)))), None)
  else if has_bom 0xFE 0xFF data then
    (normalize_newlines
       (string_of_runes (utf16.Decode (units_be (skipn 2 data)))), None)
  else if utf8.Valid data then (normalize_newlines data, None)
  else
    match decodeBestCyrillic data with
    | (decoded, true) => (normalize_newlines decoded, None)
    | (_, false) => (normalize_newlines (string_of_runes data), None)
    end.

End WithCharmaps.

End TXT.

(** ** extractDOCX *)
Module DOCX.

(** [encoding/xml]'s tokens. *)
Record Name := mkName { Space : gostring; Local : gostring }.

Inductive Token :=
| StartElement (name : Name) (attr : list (Name * gostring))
| EndElement (name : Name)
| CharData (d : gostring)
| Comment (d : gostring)
| ProcInst (target inst : gostring)
| Directive (d : gostring).

(** The results of the successive calls [dec.Token()] on one decoder:
    tokens, until [io.EOF] or an error, either of which the decoder then
    keeps returning. *)
Inductive tokens :=
| EOF
| Err (e : error)
| Tok (t : Token) (rest : tokens).

Record element := mkElement { space : gostring; local : gostring }.

(** The two nested loops of lines 105-151.  [txt] is [Some acc] inside
    the inner loop that reads the text of a [t] element, [acc] being the
    contents of the builder [txt]; [b] is the outer builder. *)
Fixpoint walk (ts : tokens) (stack : list element) (b : gostring)
  (txt : option gostring) : gostring * option error :=
  match ts with
  | EOF =>
    match txt with
    | Some acc => (b ++ acc, None)
    | None => (b, None)
    end
  | Err e => ([], Some e)
  | Tok t rest =>
    match txt with
    | Some acc =>
      match t with
      | CharData d => walk rest stack b (Some (acc ++ d))
      | EndElement n =>
        if list_eqb (Local n) (bytes_of_string "t")
        then walk rest stack (b ++ acc) None
        else walk rest stack b (Some acc)
      | _ => walk rest stack b (Some acc)
      end
    | None =>
      match t with
      | StartElement n _ =>
        let stack := stack ++ [mkElement (Space n) (Local n)] in
        if list_eqb (Local n) (bytes_of_string "br")
        then walk rest stack (b ++ [10]) None
        else if list_eqb (Local n) (bytes_of_string "tab")
        then walk rest stack (b ++ [9]) None
        else if list_eqb (Local n) (bytes_of_string "t")
        then walk rest stack b (Some [])
        else walk rest stack b None
      | EndElement n =>
        let stack := removelast stack in
        if list_eqb (Local n) (bytes_of_string "p")
        then walk rest stack (b ++ [10]) None
        else walk rest stack b None
      | _ => walk rest stack b None
      end
    end
  end.

(** A member of the archive: its name, and what [Open] followed by
    [xml.NewDecoder] gives. *)
Record File := mkFile {
  Name_ : gostring;
  Open : error + tokens
}.

Section WithZip.

(** [zip.NewReader(bytes.NewReader(data), int64(len(data)))] with the
    files of [zr.File]; package [archive/zip] is not part of this
    repository. *)
Variable zip_NewReader : gostring -> error + list File.

Definition extractDOCX (data : gostring) : gostring * option error :=
  match zip_NewReader data with
  | inl err => ([], Some err)
  | inr files =>
    match find (fun f => list_eqb (Name_ f)
                           (bytes_of_string "word/document.xml")) files with
    | None => ([], Some (bytes_of_string "document.xml not found in docx"))
    | Some docFile =>
      match Open docFile with
      | inl err => ([], Some err)
      | inr ts => walk ts [] [] None
      end
    end
  end.

End WithZip.

End DOCX.

(** ** extractPDF *)
Module PDF.

(** The calls of [extractPDF] on the command, its pipes and its process,
    each with the type of what it returns. *)
Inductive call : Type -> Type :=
| StdinPipe : call (option error)
| StdoutPipe : call (option error)
| Start : call (option error)
| StdinWrite (data : gostring) : call (option error)
| StdinClose : call unit
| ProcessKill : call unit
| ReadAllStdout : call (gostring * option error)
| Wait : call (option error).

(** A sequential program: a call is made, and the program goes on with
    what it returned. *)
Inductive prog (R : Type) : Type :=
| Ret (r : R)
| Do {X : Type} (c : call X) (k : X -> prog R).
Arguments Ret {R} r.
Arguments Do {R X} c k.

Definition extractPDF (data : gostring) : prog (gostring * option error) :=
  Do StdinPipe (fun err =>
  match err with Some e => Ret ([], Some e) | None =>
  Do StdoutPipe (fun err =>
  match err with Some e => Ret ([], Some e) | None =>
  Do Start (fun err =>
  match err with Some e => Ret ([], Some e) | None =>
  Do (StdinWrite data) (fun err =>
  match err with
  | Some e => Do StdinClose (fun _ => Do ProcessKill (fun _ =>
              Ret ([], Some e)))
  | None =>
  Do StdinClose (fun _ =>
  Do ReadAllStdout (fun r =>
  match snd r with
  | Some e => Do Wait (fun _ => Ret ([], Some e))
  | None =>
  Do Wait (fun err =>
  match err with Some e => Ret ([], Some e) | None =>
  Ret (fst r, None)
  end) end)) end) end) end) end).

(** What the operating system answers to each call of one run. *)
Definition oracle := forall X : Type, call X -> X.

Inductive event : Type :=
| Event (X : Type) (c : call X).
Arguments Event {X} c.

(** The result of a run and the calls made, in order. *)
Fixpoint run {R : Type} (os : oracle) (p : prog R) : R * list event :=
  match p with
  | Ret r => (r, [])
  | Do c k => let (r, tr) := run os (k (os _ c)) in (r, Event c :: tr)
  end.

End PDF.

(** ** The pipes and the subprocess of [extractPDF]

    The operating system around a run of [extractPDF]: the two pipes of
    the command, each holding at most [capacity] bytes, and the
    subprocess as a state machine that reads its standard input, writes
    its standard output and exits.  A call of the parent that cannot go
    on (a write to a full pipe, a read from an empty pipe whose writer
    lives) blocks: it has no move.  This is a model of the environment;
    the parent is the program [PDF.extractPDF] above. *)
Module OS.

Inductive action (S : Type) : Type :=
| Read (k : option Z -> S)
| Write (c : Z) (k : S)
| Exit.
Arguments Read {S} k.
Arguments Write {S} c k.
Arguments Exit {S}.

Record process : Type := mkProcess {
  pstate : Type;
  pstart : pstate;
  pnext : pstate -> action pstate
}.

Inductive status (S : Type) : Type :=
| NotStarted
| Running (s : S)
| Exited.
Arguments NotStarted {S}.
Arguments Running {S} s.
Arguments Exited {S}.

Record system (P : process) : Type := mkSystem {
  parent : PDF.prog (list Z * option (list Z));
  stdin_pipe : gostring;
  stdin_closed : bool;
  stdout_pipe : gostring;
  collected : gostring;
  child : status (pstate P)
}.
Arguments mkSystem {P}.
Arguments parent {P}.
Arguments stdin_pipe {P}.
Arguments stdin_closed {P}.
Arguments stdout_pipe {P}.
Arguments collected {P}.
Arguments child {P}.

Section Moves.

Variable capacity : nat.
Variable P : process.

(** The next move of the parent, if its pending call can go on.  A
    [StdinWrite] hands its bytes to the pipe one at a time and returns
    when none is left; [ReadAllStdout] takes bytes until the pipe is
    empty and the subprocess has exited. *)
Definition parent_move (s : system P) : option (system P) :=
  match parent s with
  | PDF.Ret _ => None
  | @PDF.Do _ X c k =>
    match c in PDF.call X0
          return (X0 -> PDF.prog (list Z * option (list Z))) ->
                 option (system P) with
    | PDF.StdinPipe => fun k =>
      Some (mkSystem (k None) (stdin_pipe s) (stdin_closed s)
                     (stdout_pipe s) (collected s) (child s))
    | PDF.StdoutPipe => fun k =>
      Some (mkSystem (k None) (stdin_pipe s) (stdin_closed s)
                     (stdout_pipe s) (collected s) (child s))
    | PDF.Start => fun k =>
      Some (mkSystem (k None) (stdin_pipe s) (stdin_closed s)
                     (stdout_pipe s) (collected s) (Running (pstart P)))
    | PDF.StdinWrite data => fun k =>
      match data with
      | [] =>
        Some (mkSystem (k None) (stdin_pipe s) (stdin_closed s)
                       (stdout_pipe s) (collected s) (child s))
      | c :: data' =>
        match child s with
        | Exited =>
          Some (mkSystem (k (Some (bytes_of_string "write |1: broken pipe")))
                         (stdin_pipe s) (stdin_closed s)
                         (stdout_pipe s) (collected s) (child s))
        | _ =>
          if (length (stdin_pipe s) <? capacity)%nat then
            Some (mkSystem (PDF.Do (PDF.StdinWrite data') k)
                           (stdin_pipe s ++ [c]) (stdin_closed s)
                           (stdout_pipe s) (collected s) (child s))
          else None
        end
      end
    | PDF.StdinClose => fun k =>
      Some (mkSystem (k tt) (stdin_pipe s) true
                     (stdout_pipe s) (collected s) (child s))
    | PDF.ProcessKill => fun k =>
      Some (mkSystem (k tt) (stdin_pipe s) (stdin_closed s)
                     (stdout_pipe s) (collected s) Exited)
    | PDF.ReadAllStdout => fun k =>
      match stdout_pipe s with
      | c :: out =>
        Some (mkSystem (parent s) (stdin_pipe s) (stdin_closed s)
                       out (collected s ++ [c]) (child s))
      | [] =>
        match child s with
        | Exited =>
          Some (mkSystem (k (collected s, None)) (stdin_pipe s)
                         (stdin_closed s) [] [] (child s))
        | _ => None
        end
      end
    | PDF.Wait => fun k =>
      match child s with
      | Exited =>
        Some (mkSystem (k None) (stdin_pipe s) (stdin_closed s)
                       (stdout_pipe s) (collected s) (child s))
      | _ => None
      end
    end k
  end.

(** The next move of the subprocess, if it can go on. *)
Definition child_move (s : system P) : option (system P) :=
  match child s with
  | Running st =>
    match pnext P st with
    | Read k =>
      match stdin_pipe s with
      | c :: pipe =>
        Some (mkSystem (parent s) pipe (stdin_closed s)
                       (stdout_pipe s) (collected s) (Running (k (Some c))))
      | [] =>
        if stdin_closed s then
          Some (mkSystem (parent s) [] (stdin_closed s)
                         (stdout_pipe s) (collected s) (Running (k None)))
        else None
      end
    | Write c k =>
      if (length (stdout_pipe s) <? capacity)%nat then
        Some (mkSystem (parent s) (stdin_pipe s) (stdin_closed s)
                       (stdout_pipe s ++ [c]) (collected s) (Running k))
      else None
    | Exit =>
      Some (mkSystem (parent s) (stdin_pipe s) (stdin_closed s)
                     (stdout_pipe s) (collected s) Exited)
    end
  | _ => None
  end.

Definition step (s s' : system P) : Prop :=
  parent_move s = Some s' \/ child_move s = Some s'.

Inductive reachable (s0 : system P) : system P -> Prop :=
| reach_here : reachable s0 s0
| reach_step (s s' : system P) :
    reachable s0 s -> step s s' -> reachable s0 s'.

Definition returned (s : system P) : Prop :=
  match parent s with
  | PDF.Ret _ => True
  | PDF.Do _ _ => False
  end.

(** No component can move and [extractPDF] has not returned. *)
Definition deadlocked (s : system P) : Prop :=
  parent_move s = None /\ child_move s = None /\ ~ returned s.

Definition init (data : gostring) : system P :=
  mkSystem (PDF.extractPDF data) [] false [] [] NotStarted.

End Moves.

(** A schedule that lets the subprocess move whenever it can, for at
    most [fuel] moves. *)
Fixpoint schedule (capacity : nat) (P : process) (fuel : nat)
  (s : system P) : system P :=
  match fuel with
  | O => s
  | S fuel' =>
    match child_move capacity P s with
    | Some s' => schedule capacity P fuel' s'
    | None =>
      match parent_move capacity P s with
      | Some s' => schedule capacity P fuel' s'
      | None => s
      end
    end
  end.

(** A subprocess that copies its input to its output byte by byte,
    writing while input is left to read. *)
Inductive copier_state := Idle | Holding (c : Z) | Finished.

Definition copier : process :=
  mkProcess copier_state Idle
    (fun st => match st with
               | Idle => Read (fun o => match o with
                                        | Some c => Holding c
                                        | None => Finished
                                        end)
               | Holding c => Write c Idle
               | Finished => Exit
               end).

(** Two kinds of states of a run with the copier.  In [copying] the
    parent is in its write with [d] left to hand over, [k] bytes are in
    the output pipe and the copier is idle.  In [filling] the output
    pipe is full, the copier holds a byte it cannot write, and [j]
    bytes are in the input pipe.  [K] is what the parent does after the
    write. *)
Definition copying
  (K : option (list Z) -> PDF.prog (list Z * option (list Z)))
  (k : nat) (d : gostring) : system copier :=
  @mkSystem copier (PDF.Do (PDF.StdinWrite d) K) [] false (repeat 0 k) []
            (Running Idle).

Definition filling (capacity : nat)
  (K : option (list Z) -> PDF.prog (list Z * option (list Z)))
  (j : nat) (d : gostring) : system copier :=
  @mkSystem copier (PDF.Do (PDF.StdinWrite d) K) (repeat 0 j) false
            (repeat 0 capacity) [] (Running (Holding 0)).

(** A subprocess that reads all of its input before it writes [out], as
    a converter that needs the whole document does. *)
Inductive slurper_state := Slurping | Emitting (out : gostring).

Definition slurper (out : gostring) : process :=
  mkProcess slurper_state Slurping
    (fun st => match st with
               | Slurping => Read (fun o => match o with
                                            | Some _ => Slurping
                                            | None => Emitting out
                                            end)
               | Emitting (c :: out') => Write c (Emitting out')
               | Emitting [] => Exit
               end).

End OS.

(** ** Package [path/filepath] *)
Module filepath.

(** The loop [for i := len(path) - 1; i >= 0 && !os.IsPathSeparator(path[i]); i--]
    on the reversed path, with the separator of Unix; [acc] is
    [path[i+1:]]. *)
Fixpoint ext_rev (rpath acc : gostring) : gostring :=
  match rpath with
  | [] => []
  | c :: rpath' =>
    if c =? 47 then []
    else if c =? 46 then c :: acc
    else ext_rev rpath' (c :: acc)
  end.

Definition Ext (path : gostring) : gostring := ext_rev (rev path) [].

End filepath.

(** ** ExtractText *)
Module Dispatch.
Section WithEnvironment.

Variable unicode_ToLower : rune -> rune.
Variable os : PDF.oracle.
Variable zip_NewReader : gostring -> error + list DOCX.File.
Variable pkg : charmap.Package.

Definition extractPDF (data : gostring) : gostring * option error :=
  fst (PDF.run os (PDF.extractPDF data)).
Definition extractDOCX := DOCX.extractDOCX zip_NewReader.
Definition extractRTF := RTF.extractRTF.
Definition extractTXT := TXT.extractTXT pkg.

Definition ExtractText (filename data : gostring)
  : gostring * option error :=
  let ext := strings.ToLower unicode_ToLower (filepath.Ext filename) in
  if list_eqb ext (bytes_of_string ".pdf") then extractPDF data
  else if list_eqb ext (bytes_of_string ".docx") then extractDOCX data
  else if list_eqb ext (bytes_of_string ".rtf") then extractRTF data
  else if list_eqb ext (bytes_of_string ".txt") || list_eqb ext []
  then extractTXT data
  else if HasPrefix data (bytes_of_string "%PDF") then extractPDF data
  else if HasPrefix data (bytes_of_string "PK") then extractDOCX data
  else if HasPrefix data (bytes_of_string "{\rtf") then extractRTF data
  else ([], Some (bytes_of_string "unsupported file type: " ++ ext)).

End WithEnvironment.
End Dispatch.

(** ** The five tables of [charmap]

    The tables of the package for the five encodings (the rows are the
    bytes [0x80] to [0xFF]; [0xFFFD] marks a byte without a mapping:
    [0x98] in Windows-1251 and [0x80] to [0x9F] in ISO-8859-5, which the
    package leaves without the C1 controls).  All five are supersets of
    ASCII. *)
Module Tables.

Definition Windows1251_high : list rune :=
  [ 0x0402; 0x0403; 0x201A; 0x0453; 0x201E; 0x2026; 0x2020; 0x2021;
    0x20AC; 0x2030; 0x0409; 0x2039; 0x040A; 0x040C; 0x040B; 0x040F;
    0x0452; 0x2018; 0x2019; 0x201C; 0x201D; 0x2022; 0x2013; 0x2014;
    0xFFFD; 0x2122; 0x0459; 0x203A; 0x045A; 0x045C; 0x045B; 0x045F;
    0x00A0; 0x040E; 0x045E; 0x0408; 0x00A4; 0x0490; 0x00A6; 0x00A7;
    0x0401; 0x00A9; 0x0404; 0x00AB; 0x00AC; 0x00AD; 0x00AE; 0x0407;
    0x00B0; 0x00B1; 0x0406; 0x0456; 0x0491; 0x00B5; 0x00B6; 0x00B7;
    0x0451; 0x2116; 0x0454; 0x00BB; 0x0458; 0x0405; 0x0455; 0x0457;
    0x0410; 0x0411; 0x0412; 0x0413; 0x0414; 0x0415; 0x0416; 0x0417;
    0x0418; 0x0419; 0x041A; 0x041B; 0x041C; 0x041D; 0x041E; 0x041F;
    0x0420; 0x0421; 0x0422; 0x0423; 0x0424; 0x0425; 0x0426; 0x0427;
    0x0428; 0x0429; 0x042A; 0x042B; 0x042C; 0x042D; 0x042E; 0x042F;
    0x0430; 0x0431; 0x0432; 0x0433; 0x0434; 0x0435; 0x0436; 0x0437;
    0x0438; 0x0439; 0x043A; 0x043B; 0x043C; 0x043D; 0x043E; 0x043F;
    0x0440; 0x0441; 0x0442; 0x0443; 0x0444; 0x0445; 0x0446; 0x0447;
    0x0448; 0x0449; 0x044A; 0x044B; 0x044C; 0x044D; 0x044E; 0x044F ].

Definition KOI8R_high : list rune :=
  [ 0x2500; 0x2502; 0x250C; 0x2510; 0x2514; 0x2518; 0x251C; 0x2524;
    0x252C; 0x2534; 0x253C; 0x2580; 0x2584; 0x2588; 0x258C; 0x2590;
    0x2591; 0x2592; 0x2593; 0x2320; 0x25A0; 0x2219; 0x221A; 0x2248;
    0x2264; 0x2265; 0x00A0; 0x2321; 0x00B0; 0x00B2; 0x00B7; 0x00F7;
    0x2550; 0x2551; 0x2552; 0x0451; 0x2553; 0x2554; 0x2555; 0x2556;
    0x2557; 0x2558; 0x2559; 0x255A; 0x255B; 0x255C; 0x255D; 0x255E;
    0x255F; 0x2560; 0x2561; 0x0401; 0x2562; 0x2563; 0x2564; 0x2565;
    0x2566; 0x2567; 0x2568; 0x2569; 0x256A; 0x256B; 0x256C; 0x00A9;
    0x044E; 0x0430; 0x0431; 0x0446; 0x0434; 0x0435; 0x0444; 0x0433;
    0x0445; 0x0438; 0x0439; 0x043A; 0x043B; 0x043C; 0x043D; 0x043E;
    0x043F; 0x044F; 0x0440; 0x0441; 0x0442; 0x0443; 0x0436; 0x0432;
    0x044C; 0x044B; 0x0437; 0x0448; 0x044D; 0x0449; 0x0447; 0x044A;
    0x042E; 0x0410; 0x0411; 0x0426; 0x0414; 0x0415; 0x0424; 0x0413;
    0x0425; 0x0418; 0x0419; 0x041A; 0x041B; 0x041C; 0x041D; 0x041E;
    0x041F; 0x042F; 0x0420; 0x0421; 0x0422; 0x0423; 0x0416; 0x0412;
    0x042C; 0x042B; 0x0417; 0x0428; 0x042D; 0x0429; 0x0427; 0x042A ].

Definition ISO8859_5_high : list rune :=
  [ 0xFFFD; 0xFFFD; 0xFFFD; 0xFFFD; 0xFFFD; 0xFFFD; 0xFFFD; 0xFFFD;
    0xFFFD; 0xFFFD; 0xFFFD; 0xFFFD; 0xFFFD; 0xFFFD; 0xFFFD; 0xFFFD;
    0xFFFD; 0xFFFD; 0xFFFD; 0xFFFD; 0xFFFD; 0xFFFD; 0xFFFD; 0xFFFD;
    0xFFFD; 0xFFFD; 0xFFFD; 0xFFFD; 0xFFFD; 0xFFFD; 0xFFFD; 0xFFFD;
    0x00A0; 0x0401; 0x0402; 0x0403; 0x0404; 0x0405; 0x0406; 0x0407;
    0x0408; 0x0409; 0x040A; 0x040B; 0x040C; 0x00AD; 0x040E; 0x040F;
    0x0410; 0x0411; 0x0412; 0x0413; 0x0414; 0x0415; 0x0416; 0x0417;
    0x0418; 0x0419; 0x041A; 0x041B; 0x041C; 0x041D; 0x041E; 0x041F;
    0x0420; 0x0421; 0x0422; 0x0423; 0x0424; 0x0425; 0x0426; 0x0427;
    0x0428; 0x0429; 0x042A; 0x042B; 0x042C; 0x042D; 0x042E; 0x042F;
    0x0430; 0x0431; 0x0432; 0x0433; 0x0434; 0x0435; 0x0436; 0x0437;
    0x0438; 0x0439; 0x043A; 0x043B; 0x043C; 0x043D; 0x043E; 0x043F;
    0x0440; 0x0441; 0x0442; 0x0443; 0x0444; 0x0445; 0x0446; 0x0447;
    0x0448; 0x0449; 0x044A; 0x044B; 0x044C; 0x044D; 0x044E; 0x044F;
    0x2116; 0x0451; 0x0452; 0x0453; 0x0454; 0x0455; 0x0456; 0x0457;
    0x0458; 0x0459; 0x045A; 0x045B; 0x045C; 0x00A7; 0x045E; 0x045F ].

Definition MacintoshCyrillic_high : list rune :=
  [ 0x0410; 0x0411; 0x0412; 0x0413; 0x0414; 0x0415; 0x0416; 0x0417;
    0x0418; 0x0419; 0x041A; 0x041B; 0x041C; 0x041D; 0x041E; 0x041F;
    0x0420; 0x0421; 0x0422; 0x0423; 0x0424; 0x0425; 0x0426; 0x0427;
    0x0428; 0x0429; 0x042A; 0x042B; 0x042C; 0x042D; 0x042E; 0x042F;
    0x2020; 0x00B0; 0x0490; 0x00A3; 0x00A7; 0x2022; 0x00B6; 0x0406;
    0x00AE; 0x00A9; 0x2122; 0x0402; 0x0452; 0x2260; 0x0403; 0x0453;
    0x221E; 0x00B1; 0x2264; 0x2265; 0x0456; 0x00B5; 0x0491; 0x0408;
    0x0404; 0x0454; 0x0407; 0x0457; 0x0409; 0x0459; 0x040A; 0x045A;
    0x0458; 0x0405; 0x00AC; 0x221A; 0x0192; 0x2248; 0x2206; 0x00AB;
    0x00BB; 0x2026; 0x00A0; 0x040B; 0x045B; 0x040C; 0x045C; 0x0455;
    0x2013; 0x2014; 0x201C; 0x201D; 0x2018; 0x2019; 0x00F7; 0x201E;
    0x040E; 0x045E; 0x040F; 0x045F; 0x2116; 0x0401; 0x0451; 0x044F;
    0x0430; 0x0431; 0x0432; 0x0433; 0x0434; 0x0435; 0x0436; 0x0437;
    0x0438; 0x0439; 0x043A; 0x043B; 0x043C; 0x043D; 0x043E; 0x043F;
    0x0440; 0x0441; 0x0442; 0x0443; 0x0444; 0x0445; 0x0446; 0x0447;
    0x0448; 0x0449; 0x044A; 0x044B; 0x044C; 0x044D; 0x044E; 0x20AC ].

Definition CodePage866_high : list rune :=
  [ 0x0410; 0x0411; 0x0412; 0x0413; 0x0414; 0x0415; 0x0416; 0x0417;
    0x0418; 0x0419; 0x041A; 0x041B; 0x041C; 0x041D; 0x041E; 0x041F;
    0x0420; 0x0421; 0x0422; 0x0423; 0x0424; 0x0425; 0x0426; 0x0427;
    0x0428; 0x0429; 0x042A; 0x042B; 0x042C; 0x042D; 0x042E; 0x042F;
    0x0430; 0x0431; 0x0432; 0x0433; 0x0434; 0x0435; 0x0436; 0x0437;
    0x0438; 0x0439; 0x043A; 0x043B; 0x043C; 0x043D; 0x043E; 0x043F;
    0x2591; 0x2592; 0x2593; 0x2502; 0x2524; 0x2561; 0x2562; 0x2556;
    0x2555; 0x2563; 0x2551; 0x2557; 0x255D; 0x255C; 0x255B; 0x2510;
    0x2514; 0x2534; 0x252C; 0x251C; 0x2500; 0x253C; 0x255E; 0x255F;
    0x255A; 0x2554; 0x2569; 0x2566; 0x2560; 0x2550; 0x256C; 0x2567;
    0x2568; 0x2564; 0x2565; 0x2559; 0x2558; 0x2552; 0x2553; 0x256B;
    0x256A; 0x2518; 0x250C; 0x2588; 0x2584; 0x258C; 0x2590; 0x2580;
    0x0440; 0x0441; 0x0442; 0x0443; 0x0444; 0x0445; 0x0446; 0x0447;
    0x0448; 0x0449; 0x044A; 0x044B; 0x044C; 0x044D; 0x044E; 0x044F;
    0x0401; 0x0451; 0x0404; 0x0454; 0x0407; 0x0457; 0x040E; 0x045E;
    0x00B0; 0x2219; 0x00B7; 0x221A; 0x2116; 0x00A4; 0x25A0; 0x00A0 ].

Definition enc_of_rune (r : rune) : charmap.utf8Enc :=
  match utf8.AppendRune [] r with
  | [b0] => charmap.enc1 b0
  | [b0; b1] => charmap.enc2 b0 b1
  | [b0; b1; b2] => charmap.enc3 b0 b1 b2
  | _ => charmap.enc3 0xEF 0xBF 0xBD
  end.

Definition table (high : list rune) (c : byte) : charmap.utf8Enc :=
  if c <? 0x80 then enc_of_rune c
  else enc_of_rune (nth (Z.to_nat (c - 0x80)) high utf8.RuneError).

Definition x_text : charmap.Package :=
  charmap.mkPackage
    (charmap.mkCharmap (bytes_of_string "windows-1251") true
                       (table Windows1251_high))
    (charmap.mkCharmap (bytes_of_string "koi8-r") true (table KOI8R_high))
    (charmap.mkCharmap (bytes_of_string "iso-8859-5") true
                       (table ISO8859_5_high))
    (charmap.mkCharmap (bytes_of_string "mac-cyrillic") true
                       (table MacintoshCyrillic_high))
    (charmap.mkCharmap (bytes_of_string "cp866") true
                       (table CodePage866_high)).

End Tables.

(** ** Sample environments and inputs, for the examples *)
Module Sample.

Definition w (l : string) : DOCX.Name :=
  DOCX.mkName
    (bytes_of_string
       "http://schemas.openxmlformats.org/wordprocessingml/2006/main")
    (bytes_of_string l).

Definition xml_error : error :=
  bytes_of_string "XML syntax error on line 1: unexpected EOF".

(** [<w:p><w:t>A</w:t></w:p><w:p><w:t>B</w:t></w:p>]. *)
Definition two_paragraphs : DOCX.tokens :=
  DOCX.Tok (DOCX.StartElement (w "p") [])
  (DOCX.Tok (DOCX.StartElement (w "t") [])
  (DOCX.Tok (DOCX.CharData (bytes_of_string "A"))
  (DOCX.Tok (DOCX.EndElement (w "t"))
  (DOCX.Tok (DOCX.EndElement (w "p"))
  (DOCX.Tok (DOCX.StartElement (w "p") [])
  (DOCX.Tok (DOCX.StartElement (w "t") [])
  (DOCX.Tok (DOCX.CharData (bytes_of_string "B"))
  (DOCX.Tok (DOCX.EndElement (w "t"))
  (DOCX.Tok (DOCX.EndElement (w "p")) DOCX.EOF))))))))).

(** [<w:p><w:t>A</w:t></w:p><w:p><w:t>B], cut off there. *)
Definition cut_off_document : DOCX.tokens :=
  DOCX.Tok (DOCX.StartElement (w "p") [])
  (DOCX.Tok (DOCX.StartElement (w "t") [])
  (DOCX.Tok (DOCX.CharData (bytes_of_string "A"))
  (DOCX.Tok (DOCX.EndElement (w "t"))
  (DOCX.Tok (DOCX.EndElement (w "p"))
  (DOCX.Tok (DOCX.StartElement (w "p") [])
  (DOCX.Tok (DOCX.StartElement (w "t") [])
  (DOCX.Tok (DOCX.CharData (bytes_of_string "B"))
  (DOCX.Err xml_error)))))))).

Definition document_file (ts : DOCX.tokens) : DOCX.File :=
  DOCX.mkFile (bytes_of_string "word/document.xml") (inr ts).

(** An archive holding [[Content_Types].xml] and [word/document.xml]. *)
Definition zip_with (ts : DOCX.tokens)
  : gostring -> error + list DOCX.File :=
  fun _ => inr [ DOCX.mkFile (bytes_of_string "[Content_Types].xml")
                             (inr DOCX.EOF);
                 document_file ts ].

Definition not_a_zip : gostring -> error + list DOCX.File :=
  fun _ => inl (bytes_of_string "zip: not a valid zip file").

(** A run in which [pdftotext] writes [out] and exits with status 0. *)
Definition os_pdftotext (out : gostring) : PDF.oracle :=
  fun X c =>
    match c in PDF.call X return X with
    | PDF.StdinPipe => None
    | PDF.StdoutPipe => None
    | PDF.Start => None
    | PDF.StdinWrite _ => None
    | PDF.StdinClose => tt
    | PDF.ProcessKill => tt
    | PDF.ReadAllStdout => (out, None)
    | PDF.Wait => None
    end.

(** Lower case of a rune outside ASCII: left as it is here. *)
Definition no_unicode_lower : rune -> rune := fun r => r.

End Sample.

(** * Specification-level definitions *)

(** The normalization of line endings as the specification words it:
    every [\r\n] and every remaining [\r] becomes [\n], nothing else
    changes. *)
Fixpoint crlf_to_lf (s : gostring) : gostring :=
  match s with
  | [] => []
  | c :: t =>
    if c =? 13 then
      10 :: match t with
            | c' :: t' => if c' =? 10 then crlf_to_lf t' else crlf_to_lf t
            | [] => crlf_to_lf t
            end
    else c :: crlf_to_lf t
  end.

(** What the last call of [dec.Token()] returned: [Some e] for an error
    other than [io.EOF]. *)
Fixpoint terminal (ts : DOCX.tokens) : option error :=
  match ts with
  | DOCX.EOF => None
  | DOCX.Err e => Some e
  | DOCX.Tok _ rest => terminal rest
  end.

(** [hdp p s]: the first byte of [s] exists and satisfies [p]. *)
Definition hdp (p : Z -> bool) (s : gostring) : bool :=
  match s with
  | c :: _ => p c
  | [] => false
  end.

(** [adj_free p q s]: nowhere in [s] is a byte satisfying [p] followed
    at once by a byte satisfying [q]. *)
Fixpoint adj_free (p q : Z -> bool) (s : gostring) : bool :=
  match s with
  | a :: t => negb (p a && hdp q t) && adj_free p q t
  | [] => true
  end.

(** The texts that the normalization of [extractRTF] leaves alone: no
    [\r], no two newlines in a row, no two blanks in a row, no space
    before a punctuation mark. *)
Definition normalized (s : gostring) : Prop :=
  Forall (fun c => c <> 13) s /\
  adj_free regexp.is_newline regexp.is_newline s = true /\
  adj_free regexp.is_blank regexp.is_blank s = true /\
  adj_free regexp.is_space regexp.is_punct s = true.

(** A Unicode scalar value: a code point that is not a surrogate. *)
Definition scalar_value (n : Z) : Prop :=
  0 <= n < 0xD800 \/ 0xDFFF < n <= 0x10FFFF.

(** The value of a run of decimal digits. *)
Definition decimal (ds : gostring) : Z :=
  fold_left (fun n ch => n * 10 + (ch - 48)) ds 0.

(** [\u] followed by the bytes [arg]. *)
Definition u_escape (arg : gostring) : gostring := [92; 117] ++ arg.

(** The four classes of the scoring formula and the number of runes of a
    class in a list. *)
Definition is_replacement (r : rune) : bool := r =? 0xFFFD.
Definition is_cyrillic (r : rune) : bool := (0x0400 <=? r) && (r <=? 0x052F).
Definition is_printable (r : rune) : bool := (0x20 <=? r) && (r <=? 0x7E).
Definition is_control (r : rune) : bool :=
  (r <? 0x20) && negb (r =? 10) && negb (r =? 9) && negb (r =? 13).

Definition count (p : rune -> bool) (rs : list rune) : Z :=
  Z.of_nat (length (filter p rs)).

(** The score of a decoded text as the specification gives it. *)
Definition score_formula (text : gostring) : Z :=
  let rs := utf8.range text in
  3 * count is_cyrillic rs + count is_printable rs
  - 50 * count is_replacement rs - 5 * count is_control rs.

(** [n] bytes [0x01] followed by the byte [0xFF]. *)
Definition sentinel_input (n : nat) : gostring := repeat 1 n ++ [255].

(** Sample inputs in Windows-1251: the word "Privet" in Cyrillic
    letters, and a text whose best decoding holds the byte [0x98], which
    Windows-1251 leaves without a mapping. *)
Definition cp1251_privet : gostring :=
  [0xCF; 0xF0; 0xE8; 0xE2; 0xE5; 0xF2].

Definition cp1251_unmapped : gostring :=
  [0x98] ++ repeat 0x80 17 ++ repeat 0xC2 18.


(** * Definitions for the further properties *)

(** The UTF-16 code units of a scalar value, and the two byte orders of
    a text in UTF-16. *)
Definition utf16_units (r : rune) : list Z :=
  if r <? 0x10000 then [r]
  else [0xD800 + (r - 0x10000) / 1024; 0xDC00 + (r - 0x10000) mod 1024].

Definition utf16_le (rs : list rune) : gostring :=
  flat_map (fun u => [u mod 256; u / 256]) (flat_map utf16_units rs).

Definition utf16_be (rs : list rune) : gostring :=
  flat_map (fun u => [u / 256; u mod 256]) (flat_map utf16_units rs).

(** The score of the decoding of [data] under the candidate [c]. *)
Definition candidate_score (data : gostring) (c : charmap.Charmap) : Z :=
  TXT.scoreCyrillicText (charmap.Decode c data).

(** The state in which the tokenizer loop of [extractRTF] is left when
    it is entered in the state [st]. *)
Definition rtf_run (st : RTF.state) : RTF.state :=
  RTF.loop (length (RTF.rest st)) st.

(** The three bytes with a meaning of their own in RTF, and the two
    that the tokenizer passes over. *)
Definition is_special (c : byte) : bool :=
  (c =? 92) || (c =? 123) || (c =? 125).

Definition is_line_break (c : byte) : bool := (c =? 13) || (c =? 10).

(** A writer of RTF: a backslash before each special byte of a
    paragraph, [\par] and a space after each paragraph, the whole in
    one group that starts with [\rtf1]. *)
Definition rtf_escape (s : gostring) : gostring :=
  flat_map (fun c => if is_special c then [92; c] else [c]) s.

Definition rtf_document (paragraphs : list gostring) : gostring :=
  bytes_of_string "{\rtf1 "
  ++ flat_map (fun p => rtf_escape p ++ bytes_of_string "\par ") paragraphs
  ++ [125].

(** The escape [\'hh] of a byte, with lower-case digits. *)
Definition hex_digit (n : Z) : byte := if n <? 10 then 48 + n else 87 + n.

Definition hex_escape (c : byte) : gostring :=
  [92; 39; hex_digit (c / 16); hex_digit (c mod 16)].

(** Well-formed pieces of RTF: plain bytes, control symbols, [\'hh]
    escapes, control words (their argument and delimiter are plain
    bytes of what follows) and groups in matching braces. *)
Inductive fragment : gostring -> Prop :=
| frag_nil : fragment []
| frag_byte (c : byte) (t : gostring) :
    is_special c = false -> fragment t -> fragment (c :: t)
| frag_symbol (sym : byte) (t : gostring) :
    RTF.isLetter sym = false -> sym <> 39 -> fragment t ->
    fragment (92 :: sym :: t)
| frag_hex (h1 h2 : byte) (t : gostring) :
    fragment t -> fragment (92 :: 39 :: h1 :: h2 :: t)
| frag_word (w t : gostring) :
    w <> [] -> forallb RTF.isLetter w = true ->
    hdp RTF.isLetter t = false ->
    fragment t -> fragment (92 :: w ++ t)
| frag_group (u t : gostring) :
    fragment u -> fragment t -> fragment (123 :: u ++ 125 :: t).

(** A token of [encoding/xml] without its name space and its attributes,
    and a token stream without its comments, processing instructions and
    directives. *)
Definition erase_token (t : DOCX.Token) : DOCX.Token :=
  match t with
  | DOCX.StartElement n _ =>
    DOCX.StartElement (DOCX.mkName [] (DOCX.Local n)) []
  | DOCX.EndElement n => DOCX.EndElement (DOCX.mkName [] (DOCX.Local n))
  | _ => t
  end.

Fixpoint erase (ts : DOCX.tokens) : DOCX.tokens :=
  match ts with
  | DOCX.EOF => DOCX.EOF
  | DOCX.Err e => DOCX.Err e
  | DOCX.Tok t rest =>
    match t with
    | DOCX.Comment _ | DOCX.ProcInst _ _ | DOCX.Directive _ => erase rest
    | _ => DOCX.Tok (erase_token t) (erase rest)
    end
  end.

(** The token stream that gives the tokens of [l] and then goes on as
    [k]. *)
Fixpoint feed (l : list DOCX.Token) (k : DOCX.tokens) : DOCX.tokens :=
  match l with
  | [] => k
  | t :: l' => DOCX.Tok t (feed l' k)
  end.

Definition has_local (n : DOCX.Name) (s : string) : bool :=
  list_eqb (DOCX.Local n) (bytes_of_string s).

(** The text of a well-formed sequence of XML content: the character
    data of each [t] element, a newline for each [br] element, a tab
    for each [tab] element, a newline at the end of each [p] element,
    in document order; character data outside of [t] elements,
    comments, processing instructions and directives give nothing. *)
Definition is_tag (t : DOCX.Token) : bool :=
  match t with
  | DOCX.StartElement _ _ | DOCX.EndElement _ => true
  | _ => false
  end.

Definition open_text (n : DOCX.Name) : gostring :=
  if has_local n "br" then [10] else if has_local n "tab" then [9] else [].

Definition close_text (n : DOCX.Name) : gostring :=
  if has_local n "p" then [10] else [].

Inductive renders : list DOCX.Token -> gostring -> Prop :=
| renders_nil : renders [] []
| renders_other (t : DOCX.Token) (l : list DOCX.Token) (x : gostring) :
    is_tag t = false -> renders l x -> renders (t :: l) x
| renders_text (n n' : DOCX.Name) (a : list (DOCX.Name * gostring))
    (chunks : list gostring) (l : list DOCX.Token) (x : gostring) :
    has_local n "t" = true -> has_local n' "t" = true ->
    renders l x ->
    renders (DOCX.StartElement n a :: map DOCX.CharData chunks
             ++ DOCX.EndElement n' :: l)
            (concat chunks ++ x)
| renders_element (n n' : DOCX.Name) (a : list (DOCX.Name * gostring))
    (inner : list DOCX.Token) (xi : gostring)
    (l : list DOCX.Token) (x : gostring) :
    has_local n "t" = false ->
    renders inner xi -> renders l x ->
    renders (DOCX.StartElement n a :: inner ++ DOCX.EndElement n' :: l)
            (open_text n ++ xi ++ close_text n' ++ x).

(** A sample [word/document.xml]:
    [<w:document><w:body><w:p><w:r><w:t>Hello</w:t><w:tab/><w:t>W</w:t>
    <w:br/></w:r></w:p><!--c--> <w:p/></w:body></w:document>]. *)
Definition sample_run : list DOCX.Token :=
  [ DOCX.StartElement (Sample.w "t") [];
    DOCX.CharData (bytes_of_string "Hello");
    DOCX.EndElement (Sample.w "t");
    DOCX.StartElement (Sample.w "tab") [];
    DOCX.EndElement (Sample.w "tab");
    DOCX.StartElement (Sample.w "t") [];
    DOCX.CharData (bytes_of_string "W");
    DOCX.EndElement (Sample.w "t");
    DOCX.StartElement (Sample.w "br") [];
    DOCX.EndElement (Sample.w "br") ].

Definition sample_paragraphs : list DOCX.Token :=
  [ DOCX.StartElement (Sample.w "p") [];
    DOCX.StartElement (Sample.w "r") [] ]
  ++ sample_run ++
  [ DOCX.EndElement (Sample.w "r");
    DOCX.EndElement (Sample.w "p");
    DOCX.Comment (bytes_of_string "c");
    DOCX.CharData (bytes_of_string " ");
    DOCX.StartElement (Sample.w "p") [];
    DOCX.EndElement (Sample.w "p") ].

Definition sample_document : list DOCX.Token :=
  [ DOCX.StartElement (Sample.w "document") [];
    DOCX.StartElement (Sample.w "body") [] ]
  ++ sample_paragraphs ++
  [ DOCX.EndElement (Sample.w "body");
    DOCX.EndElement (Sample.w "document") ].

(** Lower case of ASCII letters, byte by byte. *)
Definition ascii_lower (s : gostring) : gostring :=
  map (fun c => if (65 <=? c) && (c <=? 90) then c + 32 else c) s.

(** The first error of a list of results. *)
Fixpoint first_error (l : list (option error)) : option error :=
  match l with
  | [] => None
  | Some e :: _ => Some e
  | None :: l' => first_error l'
  end.

(** ** The program points of [extractPDF]

    What is left of [extractPDF] after [StdinPipe], after [StdoutPipe],
    after the write and after the read have returned. *)
Definition pdf_after_read (r : gostring * option error)
  : PDF.prog (gostring * option error) :=
  match snd r with
  | Some e => PDF.Do PDF.Wait (fun _ => PDF.Ret ([], Some e))
  | None =>
    PDF.Do PDF.Wait (fun err =>
    match err with
    | Some e => PDF.Ret ([], Some e)
    | None => PDF.Ret (fst r, None)
    end)
  end.

Definition pdf_after_write (err : option error)
  : PDF.prog (gostring * option error) :=
  match err with
  | Some e => PDF.Do PDF.StdinClose (fun _ => PDF.Do PDF.ProcessKill (fun _ =>
              PDF.Ret ([], Some e)))
  | None =>
    PDF.Do PDF.StdinClose (fun _ => PDF.Do PDF.ReadAllStdout pdf_after_read)
  end.

Definition pdf_after_stdout (data : gostring)
  : PDF.prog (gostring * option error) :=
  PDF.Do PDF.Start (fun err =>
  match err with
  | Some e => PDF.Ret ([], Some e)
  | None => PDF.Do (PDF.StdinWrite data) pdf_after_write
  end).

Definition pdf_after_stdin (data : gostring)
  : PDF.prog (gostring * option error) :=
  PDF.Do PDF.StdoutPipe (fun err =>
  match err with
  | Some e => PDF.Ret ([], Some e)
  | None => pdf_after_stdout data
  end).

(** The states that a run can be in after [n] moves. *)
Inductive reachable_in (capacity : nat) (P : OS.process) (s0 : OS.system P)
  : nat -> OS.system P -> Prop :=
| reach_in_0 : reachable_in capacity P s0 0 s0
| reach_in_S (n : nat) (s s' : OS.system P) :
    reachable_in capacity P s0 n s -> OS.step capacity P s s' ->
    reachable_in capacity P s0 (S n) s'.

(** The states of a run of [extractPDF] with the subprocess
    [OS.slurper out], by the number of moves made: the set-up, the
    write ([consumed] bytes read by the subprocess, [pipe] in the pipe,
    [d] still to hand over), the close, the reading while the
    subprocess still reads, emits ([col] collected, [so] in the pipe,
    [o'] still to emit) and has exited, the wait, the return. *)
Inductive slurper_phase (capacity : nat) (data out : gostring)
  : nat -> OS.system (OS.slurper out) -> Prop :=
| ph_init :
    slurper_phase capacity data out 0 (OS.init (OS.slurper out) data)
| ph_stdin :
    slurper_phase capacity data out 1
      (@OS.mkSystem (OS.slurper out) (pdf_after_stdin data)
         [] false [] [] OS.NotStarted)
| ph_stdout :
    slurper_phase capacity data out 2
      (@OS.mkSystem (OS.slurper out) (pdf_after_stdout data)
         [] false [] [] OS.NotStarted)
| ph_write (consumed : nat) (pipe d : gostring) :
    (length pipe <= capacity)%nat ->
    length data = (consumed + length pipe + length d)%nat ->
    slurper_phase capacity data out (3 + 2 * consumed + length pipe)
      (@OS.mkSystem (OS.slurper out)
         (PDF.Do (PDF.StdinWrite d) pdf_after_write)
         pipe false [] [] (OS.Running OS.Slurping))
| ph_close (consumed : nat) (pipe : gostring) :
    length data = (consumed + length pipe)%nat ->
    slurper_phase capacity data out (4 + 2 * consumed + length pipe)
      (@OS.mkSystem (OS.slurper out) (pdf_after_write None)
         pipe false [] [] (OS.Running OS.Slurping))
| ph_drain (consumed : nat) (pipe : gostring) :
    length data = (consumed + length pipe)%nat ->
    slurper_phase capacity data out (5 + 2 * consumed + length pipe)
      (@OS.mkSystem (OS.slurper out)
         (PDF.Do PDF.ReadAllStdout pdf_after_read)
         pipe true [] [] (OS.Running OS.Slurping))
| ph_emit (col so o' : gostring) :
    col ++ so ++ o' = out -> (length so <= capacity)%nat ->
    slurper_phase capacity data out
      (6 + 2 * length data + 2 * length col + length so)
      (@OS.mkSystem (OS.slurper out)
         (PDF.Do PDF.ReadAllStdout pdf_after_read)
         [] true so col (OS.Running (OS.Emitting o')))
| ph_exited (col so : gostring) :
    col ++ so = out ->
    slurper_phase capacity data out
      (7 + 2 * length data + 2 * length col + length so)
      (@OS.mkSystem (OS.slurper out)
         (PDF.Do PDF.ReadAllStdout pdf_after_read)
         [] true so col OS.Exited)
| ph_wait :
    slurper_phase capacity data out
      (8 + 2 * length data + 2 * length out)
      (@OS.mkSystem (OS.slurper out) (pdf_after_read (out, None))
         [] true [] [] OS.Exited)
| ph_return :
    slurper_phase capacity data out
      (9 + 2 * length data + 2 * length out)
      (@OS.mkSystem (OS.slurper out) (PDF.Ret (out, None))
         [] true [] [] OS.Exited).

(** ** Well-formed UTF-8, as the Unicode standard tables it

    For a first byte that is not ASCII: the number of bytes that follow
    it in a well-formed sequence and the range of the first of them (the
    others range over [0x80..0xBF]). *)
Definition lead (c : byte) : option (nat * Z * Z) :=
  if c <? 0xC2 then None
  else if c <? 0xE0 then Some (1%nat, 0x80, 0xBF)
  else if c =? 0xE0 then Some (2%nat, 0xA0, 0xBF)
  else if c <? 0xED then Some (2%nat, 0x80, 0xBF)
  else if c =? 0xED then Some (2%nat, 0x80, 0x9F)
  else if c <? 0xF0 then Some (2%nat, 0x80, 0xBF)
  else if c =? 0xF0 then Some (3%nat, 0x90, 0xBF)
  else if c <? 0xF4 then Some (3%nat, 0x80, 0xBF)
  else if c =? 0xF4 then Some (3%nat, 0x80, 0x8F)
  else None.

Definition between (lo hi c : Z) : bool := (lo <=? c) && (c <=? hi).

(** [head_ok c t] is [Some k] when [c] followed by the first [k] bytes
    of [t] is a well-formed sequence. *)
Definition head_ok (c : byte) (t : gostring) : option nat :=
  match lead c with
  | None => None
  | Some (k, lo, hi) =>
    match k, t with
    | 1%nat, c1 :: _ => if between lo hi c1 then Some 1%nat else None
    | 2%nat, c1 :: c2 :: _ =>
      if between lo hi c1 && between 0x80 0xBF c2 then Some 2%nat else None
    | 3%nat, c1 :: c2 :: c3 :: _ =>
      if between lo hi c1 && between 0x80 0xBF c2 && between 0x80 0xBF c3
      then Some 3%nat else None
    | _, _ => None
    end
  end.


(** * Properties *)
(** ** Line endings *)

Lemma HasPrefix_nil (s : gostring) : HasPrefix s [] = true.
Proof. destruct s; reflexivity. Qed.

Lemma replace_crlf_cons (c : byte) (t : gostring) :
  strings.replace_from [13; 10] [10] 0 (c :: t) =
  if (c =? 13) && match t with c' :: _ => c' =? 10 | [] => false end
  then 10 :: strings.replace_from [13; 10] [10] 0 (tl t)
  else c :: strings.replace_from [13; 10] [10] 0 t.
Proof.
  destruct t as [|c' t']; simpl.
  - destruct (c =? 13); reflexivity.
  - rewrite HasPrefix_nil, andb_true_r.
    destruct (c =? 13); simpl; [|reflexivity].
    destruct (c' =? 10); reflexivity.
Qed.

Lemma replace_cr_cons (c : byte) (t : gostring) :
  strings.replace_from [13] [10] 0 (c :: t) =
  (if c =? 13 then 10 else c) :: strings.replace_from [13] [10] 0 t.
Proof.
  simpl. rewrite HasPrefix_nil, andb_true_r.
  destruct (c =? 13); reflexivity.
Qed.

Lemma normalize_newlines_unfold (s : gostring) :
  TXT.normalize_newlines s =
  strings.replace_from [13] [10] 0 (strings.replace_from [13; 10] [10] 0 s).
Proof. reflexivity. Qed.

Lemma normalize_newlines_crlf_to_lf_le (n : nat) :
  forall s, (length s <= n)%nat -> TXT.normalize_newlines s = crlf_to_lf s.
Proof.
  induction n as [|n IH]; intros s Hlen.
  - destruct s; [reflexivity | simpl in Hlen; lia].
  - destruct s as [|c t]; [reflexivity|].
    simpl in Hlen.
    rewrite normalize_newlines_unfold, replace_crlf_cons.
    cbn [crlf_to_lf].
    destruct (Z.eqb_spec c 13) as [->|Hc]; cbn [andb].
    + destruct t as [|c' t'].
      * reflexivity.
      * destruct (c' =? 10) eqn:Hc'.
        -- cbn [tl]. rewrite replace_cr_cons. simpl (if 10 =? 13 then _ else _).
           f_equal. rewrite <- normalize_newlines_unfold.
           apply IH. simpl in Hlen. lia.
        -- rewrite replace_cr_cons. simpl (if 13 =? 13 then _ else _). f_equal.
           rewrite <- normalize_newlines_unfold. apply IH. lia.
    + rewrite replace_cr_cons.
      destruct (Z.eqb_spec c 13); [contradiction|].
      f_equal. rewrite <- normalize_newlines_unfold. apply IH. lia.
Qed.

Lemma normalize_newlines_crlf_to_lf (s : gostring) :
  TXT.normalize_newlines s = crlf_to_lf s.
Proof. apply (normalize_newlines_crlf_to_lf_le (length s)). lia. Qed.

(** Nothing but line endings changes: a text without [\r] is returned as it is, and no [\r] is left. *)
Lemma crlf_to_lf_no_cr (s : gostring) :
  ~ In 13 s -> crlf_to_lf s = s.
Proof.
  induction s as [|c t IH]; intros H; [reflexivity|].
  simpl. destruct (Z.eqb_spec c 13) as [->|Hc].
  - exfalso. apply H. left. reflexivity.
  - f_equal. apply IH. intros Hin. apply H. right. exact Hin.
Qed.

Lemma crlf_to_lf_le (n : nat) :
  forall s, (length s <= n)%nat -> ~ In 13 (crlf_to_lf s).
Proof.
  induction n as [|n IH]; intros s Hlen.
  - destruct s; [intros [] | simpl in Hlen; lia].
  - destruct s as [|c t]; [intros []|].
    simpl in Hlen. cbn [crlf_to_lf].
    destruct (Z.eqb_spec c 13) as [->|Hc].
    + destruct t as [|c' t']; [intros [H|[]]; discriminate|].
      simpl in Hlen.
      destruct (c' =? 10); intros [H|H]; try discriminate;
        revert H; apply IH; simpl; lia.
    + intros [H|H]; [congruence|]. revert H. apply IH. lia.
Qed.

Lemma crlf_to_lf_free (s : gostring) : ~ In 13 (crlf_to_lf s).
Proof. apply (crlf_to_lf_le (length s)). lia. Qed.

(** ** The TXT path *)

(** A valid UTF-8 text cannot begin with a UTF-16 byte-order mark. *)
Lemma valid_utf8_has_no_bom (data : gostring) :
  utf8.Valid data = true ->
  TXT.has_bom 0xFF 0xFE data = false /\ TXT.has_bom 0xFE 0xFF data = false.
Proof.
  intros Hv. unfold TXT.has_bom.
  destruct data as [|d0 [|d1 t]]; [split; reflexivity .. |].
  unfold utf8.Valid in Hv. cbn [utf8.valid_from] in Hv.
  split.
  - destruct (Z.eqb_spec d0 0xFF) as [->|]; [|reflexivity].
    vm_compute in Hv. discriminate.
  - destruct (Z.eqb_spec d0 0xFE) as [->|]; [|reflexivity].
    vm_compute in Hv. discriminate.
Qed.

(** C5.  For every input that is valid UTF-8 and does not begin with a
    UTF-16 byte-order mark, [extractTXT] succeeds and returns the input
    with every [\r\n] and every remaining [\r] replaced by [\n]
    ([crlf_to_lf]); nothing else changes: no [\r] is left, and an input
    without [\r] is returned as it is. *)
Theorem extractTXT_valid_utf8 (pkg : charmap.Package) (data : gostring) :
  TXT.has_bom 0xFF 0xFE data = false ->
  TXT.has_bom 0xFE 0xFF data = false ->
  utf8.Valid data = true ->
  TXT.extractTXT pkg data = (crlf_to_lf data, None) /\
  ~ In 13 (crlf_to_lf data) /\
  (~ In 13 data -> TXT.extractTXT pkg data = (data, None)).
Proof.
  intros Hle Hbe Hv.
  assert (E : TXT.extractTXT pkg data = (crlf_to_lf data, None)).
  { unfold TXT.extractTXT. rewrite Hle, Hbe, Hv.
    rewrite normalize_newlines_crlf_to_lf. reflexivity. }
  split; [exact E|]. split; [apply crlf_to_lf_free|].
  intros Hno. rewrite E, (crlf_to_lf_no_cr _ Hno). reflexivity.
Qed.

Lemma extractTXT_valid_utf8_witness :
  let data := bytes_of_string "one" ++ [13; 10] ++ bytes_of_string "two"
              ++ [13] ++ [0xD0; 0x9F] in
  TXT.extractTXT Tables.x_text data
  = (bytes_of_string "one" ++ [10] ++ bytes_of_string "two" ++ [10]
     ++ [0xD0; 0x9F], None).
Proof.
  intros data.
  refine (eq_trans
    (proj1 (extractTXT_valid_utf8 Tables.x_text data _ _ _)) _);
    reflexivity.
Defined.

(** C9.  [extractTXT] returns a text and a nil error for every input. *)
Theorem extractTXT_never_fails (pkg : charmap.Package) (data : gostring) :
  exists text, TXT.extractTXT pkg data = (text, None).
Proof.
  unfold TXT.extractTXT.
  destruct (TXT.has_bom 0xFF 0xFE data); [eexists; reflexivity|].
  destruct (TXT.has_bom 0xFE 0xFF data); [eexists; reflexivity|].
  destruct (utf8.Valid data); [eexists; reflexivity|].
  destruct (TXT.decodeBestCyrillic pkg data) as [decoded [|]];
    eexists; reflexivity.
Qed.

(** ** The DOCX walker *)

Lemma walk_malformed (ts : DOCX.tokens) (e : error) :
  terminal ts = Some e ->
  forall stack b txt, DOCX.walk ts stack b txt = ([], Some e).
Proof.
  induction ts as [| e' | t rest IH]; intros Hterm stack b txt.
  - discriminate.
  - simpl in Hterm. injection Hterm as ->. reflexivity.
  - simpl in Hterm. specialize (IH Hterm). cbn [DOCX.walk].
    destruct txt as [acc|]; destruct t; try apply IH;
      repeat match goal with
             | |- (if ?c then _ else _) = _ => destruct c
             end; apply IH.
Qed.

(** C7.  When the decoder of [word/document.xml] reports an error other
    than the end of the input, after any number of tokens, [extractDOCX]
    returns that error with the empty string: nothing of the text
    gathered before the error is returned. *)
Theorem extractDOCX_malformed
  (zip_NewReader : gostring -> error + list DOCX.File)
  (data : gostring) (files : list DOCX.File) (docFile : DOCX.File)
  (ts : DOCX.tokens) (e : error) :
  zip_NewReader data = inr files ->
  find (fun f => list_eqb (DOCX.Name_ f)
                   (bytes_of_string "word/document.xml")) files
    = Some docFile ->
  DOCX.Open docFile = inr ts ->
  terminal ts = Some e ->
  DOCX.extractDOCX zip_NewReader data = ([], Some e).
Proof.
  intros Hzip Hfind Hopen Hterm.
  unfold DOCX.extractDOCX. rewrite Hzip, Hfind, Hopen.
  apply walk_malformed. exact Hterm.
Qed.

Lemma extractDOCX_malformed_witness :
  terminal Sample.cut_off_document = Some Sample.xml_error /\
  DOCX.extractDOCX (Sample.zip_with Sample.cut_off_document)
                   (bytes_of_string "PK")
  = ([], Some Sample.xml_error).
Proof.
  split; [reflexivity|].
  apply (extractDOCX_malformed _ _
           [ DOCX.mkFile (bytes_of_string "[Content_Types].xml")
                         (inr DOCX.EOF);
             Sample.document_file Sample.cut_off_document ]
           (Sample.document_file Sample.cut_off_document)
           Sample.cut_off_document); reflexivity.
Defined.

Example extractDOCX_two_paragraphs :
  DOCX.extractDOCX (Sample.zip_with Sample.two_paragraphs)
                   (bytes_of_string "PK")
  = (bytes_of_string "A" ++ [10] ++ bytes_of_string "B" ++ [10], None).
Proof. reflexivity. Qed.

(** ** The dispatcher *)

Lemma list_eqb_eq (a b : list Z) : list_eqb a b = true <-> a = b.
Proof.
  revert b. induction a as [|x a IH]; intros [|y b]; simpl;
    try (split; [discriminate | congruence]); [tauto|].
  rewrite andb_true_iff, Z.eqb_eq, IH. split.
  - intros [-> ->]. reflexivity.
  - intros H. injection H as -> ->. split; reflexivity.
Qed.

Lemma list_eqb_neq (a b : list Z) : a <> b -> list_eqb a b = false.
Proof.
  intros H. destruct (list_eqb a b) eqn:E; [|reflexivity].
  apply list_eqb_eq in E. contradiction.
Qed.

(** The three signatures begin with different bytes: at most one of them
    is a prefix of the data. *)
Lemma signatures_exclusive (data : gostring) :
  (HasPrefix data (bytes_of_string "%PDF") = true ->
   HasPrefix data (bytes_of_string "PK") = false /\
   HasPrefix data (bytes_of_string "{\rtf") = false) /\
  (HasPrefix data (bytes_of_string "PK") = true ->
   HasPrefix data (bytes_of_string "%PDF") = false /\
   HasPrefix data (bytes_of_string "{\rtf") = false) /\
  (HasPrefix data (bytes_of_string "{\rtf") = true ->
   HasPrefix data (bytes_of_string "%PDF") = false /\
   HasPrefix data (bytes_of_string "PK") = false).
Proof.
  destruct data as [|c t]; simpl; [repeat split; discriminate|].
  destruct (Z.eqb_spec c 37) as [->|]; simpl;
    [repeat split; try discriminate; reflexivity|].
  destruct (Z.eqb_spec c 80) as [->|]; simpl;
    [repeat split; try discriminate; reflexivity|].
  repeat split; try discriminate; reflexivity.
Qed.

(** C3, as the code has it.  For a file name whose lower-cased extension
    is none of [.pdf], [.docx], [.rtf], [.txt] and is not empty, the
    extractor is chosen by the leading bytes: [%PDF] gives the PDF
    adapter, [PK] the DOCX walker, [{\rtf] the RTF tokenizer, and when
    none of the three matches the result is the error
    [unsupported file type: ] followed by the extension.  A file name
    without extension is given to the TXT extractor, whatever the bytes,
    and the result has a nil error. *)
Theorem ExtractText_dispatch
  (unicode_ToLower : rune -> rune) (os : PDF.oracle)
  (zip_NewReader : gostring -> error + list DOCX.File)
  (pkg : charmap.Package) (filename data : gostring) :
  let ext := strings.ToLower unicode_ToLower (filepath.Ext filename) in
  let ExtractText :=
    Dispatch.ExtractText unicode_ToLower os zip_NewReader pkg in
  (ext <> bytes_of_string ".pdf" -> ext <> bytes_of_string ".docx" ->
   ext <> bytes_of_string ".rtf" -> ext <> bytes_of_string ".txt" ->
   ext <> [] ->
   (HasPrefix data (bytes_of_string "%PDF") = true ->
    ExtractText filename data = Dispatch.extractPDF os data) /\
   (HasPrefix data (bytes_of_string "PK") = true ->
    ExtractText filename data = Dispatch.extractDOCX zip_NewReader data) /\
   (HasPrefix data (bytes_of_string "{\rtf") = true ->
    ExtractText filename data = Dispatch.extractRTF data) /\
   (HasPrefix data (bytes_of_string "%PDF") = false ->
    HasPrefix data (bytes_of_string "PK") = false ->
    HasPrefix data (bytes_of_string "{\rtf") = false ->
    ExtractText filename data =
    ([], Some (bytes_of_string "unsupported file type: " ++ ext)))) /\
  (ext = [] ->
   ExtractText filename data = Dispatch.extractTXT pkg data /\
   snd (ExtractText filename data) = None).
Proof.
  intros ext ExtractText. split.
  - intros Hpdf Hdocx Hrtf Htxt Hempty.
    assert (E : ExtractText filename data =
      if HasPrefix data (bytes_of_string "%PDF")
      then Dispatch.extractPDF os data
      else if HasPrefix data (bytes_of_string "PK")
      then Dispatch.extractDOCX zip_NewReader data
      else if HasPrefix data (bytes_of_string "{\rtf")
      then Dispatch.extractRTF data
      else ([], Some (bytes_of_string "unsupported file type: " ++ ext))).
    { unfold ExtractText, Dispatch.ExtractText. fold ext.
      rewrite (list_eqb_neq _ _ Hpdf), (list_eqb_neq _ _ Hdocx),
        (list_eqb_neq _ _ Hrtf), (list_eqb_neq _ _ Htxt),
        (list_eqb_neq _ _ Hempty).
      reflexivity. }
    destruct (signatures_exclusive data) as (Ha & Hb & Hc).
    repeat split.
    + intros H. rewrite E, H. reflexivity.
    + intros H. destruct (Hb H) as [H1 _]. rewrite E, H1, H. reflexivity.
    + intros H. destruct (Hc H) as [H1 H2]. rewrite E, H1, H2, H.
      reflexivity.
    + intros H1 H2 H3. rewrite E, H1, H2, H3. reflexivity.
  - intros Hext.
    assert (E : ExtractText filename data = Dispatch.extractTXT pkg data).
    { unfold ExtractText, Dispatch.ExtractText. fold ext. rewrite Hext.
      reflexivity. }
    split; [exact E|]. rewrite E. unfold Dispatch.extractTXT.
    destruct (extractTXT_never_fails pkg data) as [text ->]. reflexivity.
Qed.

Lemma ExtractText_dispatch_witness :
  let ExtractText :=
    Dispatch.ExtractText Sample.no_unicode_lower
      (Sample.os_pdftotext (bytes_of_string "page one"))
      Sample.not_a_zip Tables.x_text in
  ExtractText (bytes_of_string "x.unknown") (bytes_of_string "%PDF-1.7")
  = (bytes_of_string "page one", None) /\
  ExtractText (bytes_of_string "x.BIN") (bytes_of_string "plain words")
  = ([], Some (bytes_of_string "unsupported file type: .bin")) /\
  ExtractText (bytes_of_string "docs/v1.2/README")
              (bytes_of_string "plain words")
  = (bytes_of_string "plain words", None).
Proof.
  intros ExtractText.
  pose proof (ExtractText_dispatch Sample.no_unicode_lower
    (Sample.os_pdftotext (bytes_of_string "page one"))
    Sample.not_a_zip Tables.x_text) as D.
  split; [|split].
  - destruct (D (bytes_of_string "x.unknown") (bytes_of_string "%PDF-1.7"))
      as [H _].
    refine (eq_trans (proj1 (H _ _ _ _ _) _) _);
      try reflexivity; discriminate.
  - destruct (D (bytes_of_string "x.BIN") (bytes_of_string "plain words"))
      as [H _].
    refine (eq_trans (proj2 (proj2 (proj2 (H _ _ _ _ _))) _ _ _) _);
      try reflexivity; discriminate.
  - destruct (D (bytes_of_string "docs/v1.2/README")
                (bytes_of_string "plain words")) as [_ H].
    refine (eq_trans (proj1 (H _)) _); reflexivity.
Defined.

(** C3 as stated fails: a file name without extension whose bytes match
    no signature is not rejected; the TXT extractor returns its text. *)
Lemma ExtractText_no_extension_counterexample :
  let filename := bytes_of_string "README" in
  let data := bytes_of_string "plain words" in
  filepath.Ext filename = [] /\
  HasPrefix data (bytes_of_string "%PDF") = false /\
  HasPrefix data (bytes_of_string "PK") = false /\
  HasPrefix data (bytes_of_string "{\rtf") = false /\
  Dispatch.ExtractText Sample.no_unicode_lower
    (Sample.os_pdftotext []) Sample.not_a_zip Tables.x_text filename data
  = (data, None).
Proof. repeat split. Qed.

(** ** The RTF tokenizer: termination *)

Lemma span_app (p : Z -> bool) (s : gostring) :
  fst (span p s) ++ snd (span p s) = s.
Proof.
  induction s as [|c t IH]; [reflexivity|].
  simpl. destruct (p c); [|reflexivity].
  destruct (span p t) as [u v]. simpl in *. f_equal. exact IH.
Qed.

Lemma span_length (p : Z -> bool) (s : gostring) :
  (length (snd (span p s)) <= length s)%nat.
Proof.
  rewrite <- (span_app p s) at 2. rewrite length_app. lia.
Qed.

Lemma span_cons_true (p : Z -> bool) (c : Z) (s : gostring) :
  p c = true ->
  span p (c :: s) = (c :: fst (span p s), snd (span p s)).
Proof.
  intros H. simpl. rewrite H. destruct (span p s). reflexivity.
Qed.

Lemma swallow_length (c : Z) (r : gostring) :
  (length (RTF.swallow c r) <= length r)%nat.
Proof.
  destruct r as [|x r']; simpl; [lia|].
  destruct (x =? c); simpl; lia.
Qed.

Lemma control_symbol_length (sym : Z) (r1 : gostring) (d skip : Z)
  (b : gostring) :
  (length (RTF.rest (RTF.control_symbol sym r1 d skip b)) <= length r1)%nat.
Proof.
  unfold RTF.control_symbol.
  destruct ((sym =? 92) || (sym =? 123) || (sym =? 125)); [simpl; lia|].
  destruct (sym =? 126); [simpl; lia|].
  destruct (sym =? 45); [simpl; lia|].
  destruct (sym =? 95); [simpl; lia|].
  destruct (sym =? 42); [simpl; lia|].
  destruct (sym =? 39); [|simpl; lia].
  destruct r1 as [|h1 [|h2 r2]]; simpl; try lia.
  destruct (hex.Decode h1 h2); simpl; lia.
Qed.

Lemma numeric_argument_length (word r2 : gostring) (skip : Z)
  (b : gostring) :
  (length (fst (RTF.numeric_argument word r2 skip b)) <= length r2)%nat.
Proof.
  unfold RTF.numeric_argument.
  destruct r2 as [|c r2']; [simpl; lia|].
  cbv zeta.
  destruct ((c =? 45) || RTF.isDigit c); [|simpl; lia].
  pose proof (span_length RTF.isDigit (if c =? 45 then r2' else c :: r2'))
    as Hs.
  destruct (span RTF.isDigit (if c =? 45 then r2' else c :: r2'))
    as [numStr r4].
  simpl in Hs.
  assert (Hr4 : (length r4 <= S (length r2'))%nat).
  { destruct (c =? 45); simpl in *; lia. }
  destruct (list_eqb word (bytes_of_string "u")); [|simpl; lia].
  destruct (strconv.Atoi numStr); cbn [fst length]; [|lia].
  pose proof (swallow_length 63 r4). lia.
Qed.

Lemma control_word_length (c : Z) (r : gostring) (d skip : Z)
  (b : gostring) :
  RTF.isLetter c = true ->
  (length (RTF.rest (RTF.control_word (c :: r) d skip b)) <= length r)%nat.
Proof.
  intros Hc. unfold RTF.control_word.
  rewrite (span_cons_true _ _ _ Hc).
  pose proof (span_length RTF.isLetter r) as H1.
  set (word := c :: fst (span RTF.isLetter r)).
  set (r2 := snd (span RTF.isLetter r)) in *.
  pose proof (numeric_argument_length word r2 skip b) as H2.
  destruct (RTF.numeric_argument word r2 skip b) as [r3 b1].
  simpl in H2.
  pose proof (swallow_length 32 r3) as H3.
  repeat match goal with
         | |- context [if ?c then _ else _] => destruct c
         end; simpl; lia.
Qed.

(** Every iteration reads at least one byte. *)
Lemma step_reads (st : RTF.state) :
  RTF.rest st <> [] ->
  (length (RTF.rest (RTF.step st)) < length (RTF.rest st))%nat.
Proof.
  intros Hne. unfold RTF.step.
  destruct (RTF.rest st) as [|c r]; [contradiction|].
  destruct (c =? 123); [simpl; lia|].
  destruct (c =? 125); [simpl; lia|].
  destruct (c =? 92).
  - destruct r as [|sym r1]; [simpl; lia|].
    destruct (RTF.isLetter sym) eqn:Hl; cbn [negb].
    + pose proof (control_word_length sym r1 (RTF.depth st)
                    (RTF.skipUntilDepth st) (RTF.b st) Hl).
      simpl. lia.
    + pose proof (control_symbol_length sym r1 (RTF.depth st)
                    (RTF.skipUntilDepth st) (RTF.b st)).
      simpl. lia.
  - destruct ((c =? 13) || (c =? 10)); simpl; lia.
Qed.

Lemma step_done (st : RTF.state) : RTF.rest st = [] -> RTF.step st = st.
Proof. intros H. unfold RTF.step. rewrite H. reflexivity. Qed.

Lemma loop_exits (fuel : nat) :
  forall st, (length (RTF.rest st) <= fuel)%nat ->
  RTF.rest (RTF.loop fuel st) = [].
Proof.
  induction fuel as [|fuel IH]; intros st Hlen.
  - simpl. destruct (RTF.rest st); [reflexivity | simpl in Hlen; lia].
  - simpl. destruct (RTF.rest st) as [|c r] eqn:E; [exact E|].
    apply IH.
    assert (Hne : RTF.rest st <> []) by (rewrite E; discriminate).
    pose proof (step_reads st Hne) as H. rewrite E in H.
    cbn [length] in H, Hlen. lia.
Qed.

Lemma iter_done (n : nat) (st : RTF.state) :
  RTF.rest st = [] -> RTF.iter n st = st.
Proof.
  revert st. induction n as [|n IH]; intros st H; [reflexivity|].
  simpl. rewrite (step_done st H). apply IH. exact H.
Qed.

Lemma loop_iter (fuel : nat) :
  forall st, RTF.loop fuel st = RTF.iter fuel st.
Proof.
  induction fuel as [|fuel IH]; intros st; [reflexivity|].
  simpl. destruct (RTF.rest st) eqn:E.
  - rewrite (step_done st E). symmetry. apply iter_done. exact E.
  - apply IH.
Qed.

Lemma iter_plus (n m : nat) (st : RTF.state) :
  RTF.iter (n + m) st = RTF.iter m (RTF.iter n st).
Proof.
  revert st. induction n as [|n IH]; intros st; [reflexivity|].
  simpl. apply IH.
Qed.

Lemma iter_S (n : nat) (st : RTF.state) :
  RTF.iter (S n) st = RTF.step (RTF.iter n st).
Proof.
  replace (S n) with (n + 1)%nat by lia. rewrite iter_plus. reflexivity.
Qed.

(** C10.  [extractRTF] returns a text and a nil error for every input,
    and its loop is left after at most [len(data)] iterations: the
    tokenizer has read all of the input, whatever its bytes. *)
Theorem extractRTF_total (data : gostring) :
  RTF.rest (RTF.loop (length data) (RTF.init data)) = [] /\
  exists text, RTF.extractRTF data = (text, None).
Proof.
  split.
  - apply loop_exits. simpl. lia.
  - unfold RTF.extractRTF, RTF.finish.
    destruct (negb (utf8.ValidString (RTF.normalize (RTF.tokenize data))));
      [|eexists; reflexivity].
    destruct (RTF.normalize (RTF.tokenize data)) as [|b0 [|b1 bs]];
      try (eexists; reflexivity).
    destruct ((b0 =? 255) && (b1 =? 254)); [eexists; reflexivity|].
    destruct ((b0 =? 254) && (b1 =? 255)); eexists; reflexivity.
Qed.

(** Truncated escapes, stray braces and bytes that are not RTF. *)
Example extractRTF_trailing_backslash :
  RTF.extractRTF (bytes_of_string "ab\") = (bytes_of_string "ab", None).
Proof. reflexivity. Qed.

Example extractRTF_short_hex :
  RTF.extractRTF (bytes_of_string "ab\'4") = (bytes_of_string "ab4", None).
Proof. reflexivity. Qed.

Example extractRTF_bad_hex :
  RTF.extractRTF (bytes_of_string "a\'zzb\'41") =
  (bytes_of_string "abA", None).
Proof. reflexivity. Qed.

Example extractRTF_excess_braces :
  RTF.extractRTF (bytes_of_string "}}a{b}}c{{") =
  (bytes_of_string "abc", None).
Proof. reflexivity. Qed.

Example extractRTF_not_rtf :
  RTF.extractRTF [0; 255; 254; 128; 37; 80; 68; 70] =
  ([0; 255; 254; 128; 37; 80; 68; 70], None).
Proof. reflexivity. Qed.

(** ** The RTF tokenizer: the skip marker *)

Lemma emit_skipping (skip : Z) (b bs : gostring) :
  0 <= skip -> RTF.emit skip b bs = b.
Proof.
  intros H. unfold RTF.emit.
  destruct (Z.ltb_spec skip 0); [lia | reflexivity].
Qed.

Lemma emit_writing (skip : Z) (b bs : gostring) :
  skip < 0 -> RTF.emit skip b bs = b ++ bs.
Proof.
  intros H. unfold RTF.emit.
  destruct (Z.ltb_spec skip 0); [reflexivity | lia].
Qed.

Lemma numeric_argument_skipping (word r2 : gostring) (skip : Z)
  (b : gostring) :
  0 <= skip -> snd (RTF.numeric_argument word r2 skip b) = b.
Proof.
  intros H. unfold RTF.numeric_argument. cbv zeta.
  destruct r2 as [|c r2']; [reflexivity|].
  destruct ((c =? 45) || RTF.isDigit c); [|reflexivity].
  destruct (span RTF.isDigit (if c =? 45 then r2' else c :: r2'))
    as [numStr r4].
  destruct (list_eqb word (bytes_of_string "u")); [|reflexivity].
  destruct (strconv.Atoi numStr); [|reflexivity].
  cbn [snd]. apply emit_skipping. exact H.
Qed.

(** The marker, the depth and the builder after a control symbol and
    after a control word. *)
Lemma control_symbol_marker (sym : Z) (r1 : gostring) (d skip : Z)
  (b : gostring) :
  let st' := RTF.control_symbol sym r1 d skip b in
  RTF.depth st' = d /\
  (0 <= skip -> RTF.skipUntilDepth st' = skip /\ RTF.b st' = b) /\
  (skip < 0 -> RTF.skipUntilDepth st' = skip \/ RTF.skipUntilDepth st' = d).
Proof.
  unfold RTF.control_symbol.
  destruct ((sym =? 92) || (sym =? 123) || (sym =? 125));
    [cbn; auto using emit_skipping|].
  destruct (sym =? 126); [cbn; auto using emit_skipping|].
  destruct (sym =? 45); [cbn; auto|].
  destruct (sym =? 95); [cbn; auto using emit_skipping|].
  destruct (sym =? 42).
  { cbn. split; [reflexivity|]. split; intros Hs.
    - destruct (Z.ltb_spec skip 0); [lia|auto].
    - destruct (Z.ltb_spec skip 0); [auto|lia]. }
  destruct (sym =? 39); [|cbn; auto].
  destruct r1 as [|h1 [|h2 r2]]; [cbn; auto .. |].
  destruct (hex.Decode h1 h2); cbn; auto using emit_skipping.
Qed.

Lemma control_word_marker (r : gostring) (d skip : Z) (b : gostring) :
  let st' := RTF.control_word r d skip b in
  RTF.depth st' = d /\
  (0 <= skip -> RTF.skipUntilDepth st' = skip /\ RTF.b st' = b) /\
  (skip < 0 -> RTF.skipUntilDepth st' = skip \/ RTF.skipUntilDepth st' = d).
Proof.
  unfold RTF.control_word.
  destruct (span RTF.isLetter r) as [word r2].
  pose proof (numeric_argument_skipping word r2 skip b) as Hb.
  destruct (RTF.numeric_argument word r2 skip b) as [r3 b1].
  cbn [snd] in Hb.
  destruct (list_eqb word (bytes_of_string "par") ||
            list_eqb word (bytes_of_string "line")).
  { cbn. split; [reflexivity|].
    split; [intros Hs; rewrite emit_skipping by exact Hs|]; auto. }
  destruct (list_eqb word (bytes_of_string "tab")).
  { cbn. split; [reflexivity|].
    split; [intros Hs; rewrite emit_skipping by exact Hs|]; auto. }
  destruct (RTF.isDestination word); cbn.
  - split; [reflexivity|]. split; intros Hs.
    + destruct (Z.ltb_spec skip 0); [lia|auto].
    + destruct (Z.ltb_spec skip 0); [auto|lia].
  - auto.
Qed.

(** While the marker is set it keeps its value, and nothing is written,
    until a closing brace is read at the depth the marker holds. *)
Lemma step_marker_set (st : RTF.state) :
  0 <= RTF.skipUntilDepth st ->
  RTF.b (RTF.step st) = RTF.b st /\
  ((exists r, RTF.rest st = 125 :: r) /\
   RTF.depth st = RTF.skipUntilDepth st ->
   RTF.skipUntilDepth (RTF.step st) = -1) /\
  (~ ((exists r, RTF.rest st = 125 :: r) /\
      RTF.depth st = RTF.skipUntilDepth st) ->
   RTF.skipUntilDepth (RTF.step st) = RTF.skipUntilDepth st).
Proof.
  intros Hset. unfold RTF.step.
  destruct (RTF.rest st) as [|c r].
  { repeat split; auto. intros [[r H] _]. discriminate. }
  destruct (Z.eqb_spec c 123) as [->|H123].
  { cbn. repeat split; auto. intros [[r' H] _]. discriminate. }
  destruct (Z.eqb_spec c 125) as [->|H125].
  { cbn. split; [reflexivity|]. split.
    - intros [_ Hd]. rewrite Hd, Z.eqb_refl.
      destruct (Z.geb_spec (RTF.skipUntilDepth st) 0); [reflexivity|lia].
    - intros Hn.
      destruct (Z.eqb_spec (RTF.depth st) (RTF.skipUntilDepth st)) as [E|E].
      + exfalso. apply Hn. split; [eauto | exact E].
      + rewrite andb_false_r. reflexivity. }
  assert (Hnot : ~ ((exists r0, c :: r = 125 :: r0) /\
                    RTF.depth st = RTF.skipUntilDepth st)).
  { intros [[r0 H] _]. congruence. }
  destruct (c =? 92).
  - destruct r as [|sym r1].
    { cbn. repeat split; auto. tauto. }
    destruct (negb (RTF.isLetter sym)).
    + destruct (control_symbol_marker sym r1 (RTF.depth st)
                  (RTF.skipUntilDepth st) (RTF.b st)) as (_ & H & _).
      destruct (H Hset) as [H1 H2]. repeat split; auto. tauto.
    + destruct (control_word_marker (sym :: r1) (RTF.depth st)
                  (RTF.skipUntilDepth st) (RTF.b st)) as (_ & H & _).
      destruct (H Hset) as [H1 H2]. repeat split; auto. tauto.
  - destruct ((c =? 13) || (c =? 10)); cbn;
      rewrite ?emit_skipping by exact Hset; repeat split; auto; tauto.
Qed.

(** When an iteration sets the marker, it sets it to the depth of that
    moment; the depth is left as it is. *)
Lemma step_marker_begins (st : RTF.state) :
  RTF.skipUntilDepth st < 0 ->
  0 <= RTF.skipUntilDepth (RTF.step st) ->
  RTF.skipUntilDepth (RTF.step st) = RTF.depth st /\
  RTF.depth (RTF.step st) = RTF.depth st.
Proof.
  intros Hunset. unfold RTF.step.
  destruct (RTF.rest st) as [|c r]; [lia|].
  destruct (c =? 123); [cbn; lia|].
  destruct (c =? 125).
  { cbn. destruct (Z.geb_spec (RTF.skipUntilDepth st) 0); cbn; lia. }
  destruct (c =? 92).
  - destruct r as [|sym r1]; [cbn; lia|].
    destruct (negb (RTF.isLetter sym)).
    + destruct (control_symbol_marker sym r1 (RTF.depth st)
                  (RTF.skipUntilDepth st) (RTF.b st)) as (Hd & _ & H).
      destruct (H Hunset) as [E|E]; intros; split; auto; lia.
    + destruct (control_word_marker (sym :: r1) (RTF.depth st)
                  (RTF.skipUntilDepth st) (RTF.b st)) as (Hd & _ & H).
      destruct (H Hunset) as [E|E]; intros; split; auto; lia.
  - destruct ((c =? 13) || (c =? 10)); cbn; lia.
Qed.

(** The marker along a run: when it is set after [n] iterations, it was
    set by some earlier iteration [m], to the depth at that moment, and
    has kept that value since. *)
Lemma marker_recorded (data : gostring) (n : nat) :
  0 <= RTF.skipUntilDepth (RTF.iter n (RTF.init data)) ->
  exists m, (m < n)%nat /\
    RTF.skipUntilDepth (RTF.iter m (RTF.init data)) < 0 /\
    forall k, (m < k <= n)%nat ->
      RTF.skipUntilDepth (RTF.iter k (RTF.init data))
      = RTF.depth (RTF.iter m (RTF.init data)).
Proof.
  induction n as [|n IH].
  - cbn. lia.
  - rewrite iter_S. intros Hset.
    destruct (Z.lt_ge_cases
                (RTF.skipUntilDepth (RTF.iter n (RTF.init data))) 0)
      as [Hunset|Hwas].
    + exists n. split; [lia|]. split; [exact Hunset|].
      intros k Hk. assert (k = S n) as -> by lia. rewrite iter_S.
      apply (step_marker_begins _ Hunset Hset).
    + destruct (IH Hwas) as (m & Hm & Hneg & Hkeep).
      exists m. split; [lia|]. split; [exact Hneg|].
      intros k Hk. destruct (Nat.eq_dec k (S n)) as [->|Hne].
      * rewrite iter_S.
        destruct (step_marker_set _ Hwas) as (_ & Hclear & Hkept).
        rewrite <- (Hkeep n) by lia.
        apply Hkept. intros Hc. rewrite (Hclear Hc) in Hset. lia.
      * apply Hkeep. lia.
Qed.

(** ** The normalization of [extractRTF] *)

Lemma regexp_replace_from_skipn (m : regexp.matcher) (s : gostring) :
  forall k, regexp.replace_from m k s = regexp.replace_from m 0 (skipn k s).
Proof.
  induction s as [|c s' IH]; intros k.
  - destruct k; reflexivity.
  - destruct k as [|k]; [reflexivity|].
    cbn [regexp.replace_from skipn]. apply IH.
Qed.

Lemma ReplaceAllString_nil (m : regexp.matcher) :
  regexp.ReplaceAllString m [] = [].
Proof. reflexivity. Qed.

Lemma ReplaceAllString_none (m : regexp.matcher) (c : Z) (s : gostring) :
  m (c :: s) = None ->
  regexp.ReplaceAllString m (c :: s) = c :: regexp.ReplaceAllString m s.
Proof.
  intros H. unfold regexp.ReplaceAllString. cbn [regexp.replace_from].
  rewrite H. reflexivity.
Qed.

Lemma ReplaceAllString_some (m : regexp.matcher) (c : Z) (s : gostring)
  (n : nat) (repl : gostring) :
  m (c :: s) = Some (S n, repl) ->
  regexp.ReplaceAllString m (c :: s)
  = repl ++ regexp.ReplaceAllString m (skipn (S n) (c :: s)).
Proof.
  intros H. unfold regexp.ReplaceAllString. cbn [regexp.replace_from].
  rewrite H. cbn [Nat.pred skipn].
  rewrite regexp_replace_from_skipn. reflexivity.
Qed.

(** Facts on [span]. *)
Lemma span_hdp_rest (p : Z -> bool) (s : gostring) :
  hdp p (snd (span p s)) = false.
Proof.
  induction s as [|c t IH]; [reflexivity|].
  simpl. destruct (p c) eqn:E.
  - destruct (span p t). exact IH.
  - simpl. exact E.
Qed.

Lemma span_skipn (p : Z -> bool) (s : gostring) :
  skipn (length (fst (span p s))) s = snd (span p s).
Proof.
  induction s as [|c t IH]; [reflexivity|].
  simpl. destruct (p c); [|reflexivity].
  destruct (span p t). simpl in *. exact IH.
Qed.

Lemma span_run_ge_2 (p : Z -> bool) (s : gostring) :
  (2 <=? length (fst (span p s)))%nat = hdp p s && hdp p (tl s).
Proof.
  destruct s as [|c [|c' t]]; simpl.
  - reflexivity.
  - destruct (p c); reflexivity.
  - destruct (p c); [|reflexivity].
    destruct (p c'); [|reflexivity].
    destruct (span p t). reflexivity.
Qed.

Lemma span_fst_nil (p : Z -> bool) (s : gostring) :
  fst (span p s) = [] <-> hdp p s = false.
Proof.
  destruct s as [|c t]; simpl; [tauto|].
  destruct (p c); [|tauto].
  destruct (span p t). simpl. split; discriminate.
Qed.

(** The bytes of the four classes. *)
Ltac byte_classes :=
  unfold regexp.is_newline, regexp.is_blank, regexp.is_space,
    regexp.is_punct in *;
  repeat match goal with
         | |- context [?x =? ?y] => destruct (Z.eqb_spec x y)
         | H : context [?x =? ?y] |- _ => destruct (Z.eqb_spec x y)
         end;
  subst; simpl in *; try congruence; try lia.

Lemma punct_not_space (c : Z) :
  regexp.is_punct c = true -> regexp.is_space c = false.
Proof. byte_classes. Qed.

Lemma punct_not_newline (c : Z) :
  regexp.is_punct c = true -> regexp.is_newline c = false.
Proof. byte_classes. Qed.

Lemma punct_not_blank (c : Z) :
  regexp.is_punct c = true -> regexp.is_blank c = false.
Proof. byte_classes. Qed.

Lemma newline_is_space (c : Z) :
  regexp.is_newline c = true -> regexp.is_space c = true.
Proof. byte_classes. Qed.

Lemma blank_is_space (c : Z) :
  regexp.is_blank c = true -> regexp.is_space c = true.
Proof. byte_classes. Qed.

Lemma newline_not_blank (c : Z) :
  regexp.is_newline c = true -> regexp.is_blank c = false.
Proof. byte_classes. Qed.

(** What the three matchers answer. *)
Lemma reNewlines_spec (s : gostring) :
  regexp.reNewlines s =
  if hdp regexp.is_newline s && hdp regexp.is_newline (tl s)
  then Some (length (fst (span regexp.is_newline s)), [10]) else None.
Proof.
  unfold regexp.reNewlines. rewrite <- span_run_ge_2.
  destruct (span regexp.is_newline s). reflexivity.
Qed.

Lemma reSpaces_spec (s : gostring) :
  regexp.reSpaces s =
  if hdp regexp.is_blank s && hdp regexp.is_blank (tl s)
  then Some (length (fst (span regexp.is_blank s)), [32]) else None.
Proof.
  unfold regexp.reSpaces. rewrite <- span_run_ge_2.
  destruct (span regexp.is_blank s). reflexivity.
Qed.

Lemma reSpaceBeforePunct_spec (s : gostring) :
  regexp.reSpaceBeforePunct s =
  if hdp regexp.is_space s &&
     hdp regexp.is_punct (snd (span regexp.is_space s))
  then Some (S (length (fst (span regexp.is_space s))),
             firstn 1 (snd (span regexp.is_space s)))
  else None.
Proof.
  unfold regexp.reSpaceBeforePunct.
  pose proof (span_fst_nil regexp.is_space s) as Hnil.
  destruct (span regexp.is_space s) as [u v]. simpl in *.
  destruct u as [|x u].
  - rewrite (proj1 Hnil eq_refl). reflexivity.
  - destruct (hdp regexp.is_space s) eqn:E.
    + destruct v as [|p v']; [reflexivity|]. simpl.
      destruct (regexp.is_punct p); reflexivity.
    + discriminate (proj2 Hnil eq_refl).
Qed.

Lemma length_induction (P : gostring -> Prop) :
  (forall s, (forall t, (length t < length s)%nat -> P t) -> P s) ->
  forall s, P s.
Proof.
  intros H s.
  assert (G : forall n t, (length t < n)%nat -> P t).
  { induction n as [|n IH]; intros t Ht; [lia|].
    apply H. intros u Hu. apply IH. lia. }
  apply (G (S (length s))). lia.
Qed.

Lemma span_length_sum (p : Z -> bool) (s : gostring) :
  (length (fst (span p s)) + length (snd (span p s)) = length s)%nat.
Proof. rewrite <- length_app, span_app. reflexivity. Qed.

Lemma span_rest_shorter (p : Z -> bool) (s : gostring) :
  hdp p s = true ->
  (length (snd (span p s)) < length s)%nat.
Proof.
  intros H. pose proof (span_length_sum p s) as L.
  destruct (fst (span p s)) eqn:E.
  - apply span_fst_nil in E. congruence.
  - simpl in L. lia.
Qed.

Lemma span_rest_of_cons (p : Z -> bool) (c : Z) (t : gostring) :
  p c = true -> snd (span p (c :: t)) = snd (span p t).
Proof. intros H. rewrite (span_cons_true _ _ _ H). reflexivity. Qed.

Lemma span_rest_none (p : Z -> bool) (s : gostring) :
  hdp p s = false -> snd (span p s) = s.
Proof.
  intros H. apply span_fst_nil in H.
  rewrite <- (span_app p s) at 2. rewrite H. reflexivity.
Qed.

Lemma skipn_S_tl (n : nat) (s : gostring) :
  skipn (S n) s = tl (skipn n s).
Proof.
  revert s. induction n as [|n IH]; intros s.
  - destruct s; reflexivity.
  - destruct s as [|c t]; [reflexivity|].
    change (skipn (S (S n)) (c :: t)) with (skipn (S n) t).
    change (skipn (S n) (c :: t)) with (skipn n t).
    apply IH.
Qed.

Lemma tl_shorter (s : gostring) : (length (tl s) <= length s)%nat.
Proof. destruct s; simpl; lia. Qed.

Lemma adj_free_tl (p q : Z -> bool) (s : gostring) :
  adj_free p q s = true -> adj_free p q (tl s) = true.
Proof.
  destruct s as [|c t]; [auto|]. simpl.
  rewrite andb_true_iff. tauto.
Qed.

Lemma adj_free_skipn (p q : Z -> bool) (n : nat) (s : gostring) :
  adj_free p q s = true -> adj_free p q (skipn n s) = true.
Proof.
  revert s. induction n as [|n IH]; intros s H; [exact H|].
  rewrite skipn_S_tl. apply adj_free_tl, IH, H.
Qed.

Lemma adj_free_rest (p q r : Z -> bool) (s : gostring) :
  adj_free p q s = true -> adj_free p q (snd (span r s)) = true.
Proof. rewrite <- span_skipn. apply adj_free_skipn. Qed.

Lemma adj_free_cons (p q : Z -> bool) (c : Z) (t : gostring) :
  adj_free p q (c :: t) = true <->
  p c && hdp q t = false /\ adj_free p q t = true.
Proof.
  simpl. rewrite andb_true_iff, negb_true_iff. tauto.
Qed.

(** The three replacements, unfolded one match at a time. *)
Lemma replace_newlines_cons (c : Z) (t : gostring) :
  regexp.ReplaceAllString regexp.reNewlines (c :: t) =
  if regexp.is_newline c && hdp regexp.is_newline t
  then 10 :: regexp.ReplaceAllString regexp.reNewlines
               (snd (span regexp.is_newline t))
  else c :: regexp.ReplaceAllString regexp.reNewlines t.
Proof.
  pose proof (reNewlines_spec (c :: t)) as E. cbn [hdp tl] in E.
  destruct (regexp.is_newline c) eqn:Hc; cbn [andb] in *.
  - destruct (hdp regexp.is_newline t) eqn:Ht.
    + rewrite (span_cons_true _ _ _ Hc) in E. cbn [fst length] in E.
      rewrite (ReplaceAllString_some _ _ _ _ _ E).
      rewrite <- (span_rest_of_cons _ c t Hc), <- span_skipn.
      rewrite (span_cons_true _ _ _ Hc). reflexivity.
    + apply ReplaceAllString_none, E.
  - apply ReplaceAllString_none, E.
Qed.

Lemma replace_spaces_cons (c : Z) (t : gostring) :
  regexp.ReplaceAllString regexp.reSpaces (c :: t) =
  if regexp.is_blank c && hdp regexp.is_blank t
  then 32 :: regexp.ReplaceAllString regexp.reSpaces
               (snd (span regexp.is_blank t))
  else c :: regexp.ReplaceAllString regexp.reSpaces t.
Proof.
  pose proof (reSpaces_spec (c :: t)) as E. cbn [hdp tl] in E.
  destruct (regexp.is_blank c) eqn:Hc; cbn [andb] in *.
  - destruct (hdp regexp.is_blank t) eqn:Ht.
    + rewrite (span_cons_true _ _ _ Hc) in E. cbn [fst length] in E.
      rewrite (ReplaceAllString_some _ _ _ _ _ E).
      rewrite <- (span_rest_of_cons _ c t Hc), <- span_skipn.
      rewrite (span_cons_true _ _ _ Hc). reflexivity.
    + apply ReplaceAllString_none, E.
  - apply ReplaceAllString_none, E.
Qed.

Lemma replace_punct_cons (c : Z) (t : gostring) :
  regexp.ReplaceAllString regexp.reSpaceBeforePunct (c :: t) =
  if regexp.is_space c &&
     hdp regexp.is_punct (snd (span regexp.is_space t))
  then firstn 1 (snd (span regexp.is_space t)) ++
       regexp.ReplaceAllString regexp.reSpaceBeforePunct
         (tl (snd (span regexp.is_space t)))
  else c :: regexp.ReplaceAllString regexp.reSpaceBeforePunct t.
Proof.
  pose proof (reSpaceBeforePunct_spec (c :: t)) as E. cbn [hdp] in E.
  destruct (regexp.is_space c) eqn:Hc; cbn [andb] in *.
  - rewrite (span_rest_of_cons _ c t Hc) in E.
    destruct (hdp regexp.is_punct (snd (span regexp.is_space t))) eqn:Hp.
    + rewrite (ReplaceAllString_some _ _ _ _ _ E).
      rewrite skipn_S_tl, span_skipn, (span_rest_of_cons _ c t Hc).
      reflexivity.
    + apply ReplaceAllString_none, E.
  - apply ReplaceAllString_none, E.
Qed.

(** The first byte of each replacement's output. *)
Lemma replace_newlines_hd (q : Z -> bool) (s : gostring) :
  hdp q (regexp.ReplaceAllString regexp.reNewlines s) = hdp q s.
Proof.
  destruct s as [|c t]; [reflexivity|].
  rewrite replace_newlines_cons.
  destruct (regexp.is_newline c) eqn:Hc; cbn [andb]; [|reflexivity].
  destruct (hdp regexp.is_newline t); [|reflexivity].
  unfold regexp.is_newline in Hc. apply Z.eqb_eq in Hc. subst c.
  reflexivity.
Qed.

Lemma replace_spaces_hd (q : Z -> bool) (c : Z) (t : gostring) :
  hdp q (regexp.ReplaceAllString regexp.reSpaces (c :: t)) =
  if regexp.is_blank c && hdp regexp.is_blank t then q 32 else q c.
Proof.
  rewrite replace_spaces_cons.
  destruct (regexp.is_blank c && hdp regexp.is_blank t); reflexivity.
Qed.

Lemma replace_punct_hd (q : Z -> bool) (c : Z) (t : gostring) :
  hdp q (regexp.ReplaceAllString regexp.reSpaceBeforePunct (c :: t)) =
  if regexp.is_space c &&
     hdp regexp.is_punct (snd (span regexp.is_space t))
  then hdp q (snd (span regexp.is_space t)) else q c.
Proof.
  rewrite replace_punct_cons.
  destruct (regexp.is_space c); cbn [andb]; [|reflexivity].
  destruct (snd (span regexp.is_space t)) as [|p v]; [reflexivity|].
  cbn [hdp]. destruct (regexp.is_punct p); reflexivity.
Qed.

(** A first byte of the wanted class in the output of a replacement
    comes from a first byte of that class in its input, for the classes
    the replacement does not write. *)
Lemma replace_spaces_hd_blank (s : gostring) :
  hdp regexp.is_blank (regexp.ReplaceAllString regexp.reSpaces s)
  = hdp regexp.is_blank s.
Proof.
  destruct s as [|c t]; [reflexivity|].
  rewrite replace_spaces_hd. cbn [hdp].
  destruct (regexp.is_blank c); cbn [andb]; [|reflexivity].
  destruct (hdp regexp.is_blank t); reflexivity.
Qed.

Lemma replace_spaces_hd_newline (s : gostring) :
  hdp regexp.is_newline (regexp.ReplaceAllString regexp.reSpaces s)
  = true -> hdp regexp.is_newline s = true.
Proof.
  destruct s as [|c t]; [auto|].
  rewrite replace_spaces_hd. cbn [hdp].
  destruct (regexp.is_blank c && hdp regexp.is_blank t); [|auto].
  discriminate.
Qed.

Lemma replace_punct_hd_class (q : Z -> bool) (s : gostring) :
  (forall c, regexp.is_punct c = true -> q c = false) ->
  hdp q (regexp.ReplaceAllString regexp.reSpaceBeforePunct s) = true ->
  hdp q s = true.
Proof.
  intros Hq. destruct s as [|c t]; [auto|].
  rewrite replace_punct_hd. cbn [hdp].
  destruct (regexp.is_space c); cbn [andb]; [|auto].
  destruct (snd (span regexp.is_space t)) as [|p v]; [auto|].
  cbn [hdp]. destruct (regexp.is_punct p) eqn:Hp; [|auto].
  rewrite (Hq p Hp). discriminate.
Qed.

Lemma replace_punct_hd_punct (s : gostring) :
  hdp regexp.is_punct (regexp.ReplaceAllString regexp.reSpaceBeforePunct s)
  = true ->
  hdp regexp.is_punct (snd (span regexp.is_space s)) = true.
Proof.
  destruct s as [|c t]; [auto|].
  rewrite replace_punct_hd. cbn [hdp].
  destruct (regexp.is_space c) eqn:Hc; cbn [andb].
  - rewrite (span_rest_of_cons _ c t Hc).
    destruct (hdp regexp.is_punct (snd (span regexp.is_space t))); [auto|].
    intros Hp. rewrite (punct_not_space c Hp) in Hc. discriminate.
  - intros Hp. rewrite span_rest_none by exact Hc. exact Hp.
Qed.

(** A text already in normal form is left as it is by each step. *)
Lemma replace_newlines_id (s : gostring) :
  adj_free regexp.is_newline regexp.is_newline s = true ->
  regexp.ReplaceAllString regexp.reNewlines s = s.
Proof.
  induction s as [|c t IH]; intros H; [reflexivity|].
  apply adj_free_cons in H. destruct H as [H1 H2].
  rewrite replace_newlines_cons, H1, (IH H2). reflexivity.
Qed.

Lemma replace_spaces_id (s : gostring) :
  adj_free regexp.is_blank regexp.is_blank s = true ->
  regexp.ReplaceAllString regexp.reSpaces s = s.
Proof.
  induction s as [|c t IH]; intros H; [reflexivity|].
  apply adj_free_cons in H. destruct H as [H1 H2].
  rewrite replace_spaces_cons, H1, (IH H2). reflexivity.
Qed.

Lemma no_punct_after_spaces (s : gostring) :
  adj_free regexp.is_space regexp.is_punct s = true ->
  forall c, regexp.is_space c = true ->
  regexp.is_space c && hdp regexp.is_punct s = false ->
  hdp regexp.is_punct (snd (span regexp.is_space s)) = false.
Proof.
  induction s as [|c' t IH]; intros H c Hc Hhd; [reflexivity|].
  apply adj_free_cons in H. destruct H as [H1 H2].
  rewrite Hc in Hhd. cbn [andb hdp] in Hhd.
  destruct (regexp.is_space c') eqn:Hc'.
  - rewrite (span_rest_of_cons _ c' t Hc').
    apply (IH H2 c' Hc'). rewrite Hc'. exact H1.
  - rewrite span_rest_none by exact Hc'. exact Hhd.
Qed.

Lemma replace_punct_id (s : gostring) :
  adj_free regexp.is_space regexp.is_punct s = true ->
  regexp.ReplaceAllString regexp.reSpaceBeforePunct s = s.
Proof.
  induction s as [|c t IH]; intros H; [reflexivity|].
  pose proof H as H'. apply adj_free_cons in H'. destruct H' as [H1 H2].
  rewrite replace_punct_cons, (IH H2).
  destruct (regexp.is_space c) eqn:Hc; cbn [andb]; [|reflexivity].
  rewrite (no_punct_after_spaces t H2 c Hc); [reflexivity|].
  rewrite Hc. exact H1.
Qed.

(** What each step establishes. *)
Lemma replace_newlines_free (s : gostring) :
  adj_free regexp.is_newline regexp.is_newline
    (regexp.ReplaceAllString regexp.reNewlines s) = true.
Proof.
  induction s as [s IH] using length_induction.
  destruct s as [|c t]; [reflexivity|].
  rewrite replace_newlines_cons.
  destruct (regexp.is_newline c && hdp regexp.is_newline t) eqn:E.
  - apply adj_free_cons. split.
    + rewrite replace_newlines_hd, span_hdp_rest. apply andb_false_r.
    + apply IH. pose proof (span_length regexp.is_newline t).
      simpl. lia.
  - apply adj_free_cons. split.
    + rewrite replace_newlines_hd. exact E.
    + apply IH. simpl. lia.
Qed.

Lemma replace_spaces_free (s : gostring) :
  adj_free regexp.is_blank regexp.is_blank
    (regexp.ReplaceAllString regexp.reSpaces s) = true.
Proof.
  induction s as [s IH] using length_induction.
  destruct s as [|c t]; [reflexivity|].
  rewrite replace_spaces_cons.
  destruct (regexp.is_blank c && hdp regexp.is_blank t) eqn:E.
  - apply adj_free_cons. split.
    + rewrite replace_spaces_hd_blank, span_hdp_rest. apply andb_false_r.
    + apply IH. pose proof (span_length regexp.is_blank t).
      simpl. lia.
  - apply adj_free_cons. split.
    + rewrite replace_spaces_hd_blank. exact E.
    + apply IH. simpl. lia.
Qed.

Lemma replace_punct_free (s : gostring) :
  adj_free regexp.is_space regexp.is_punct
    (regexp.ReplaceAllString regexp.reSpaceBeforePunct s) = true.
Proof.
  induction s as [s IH] using length_induction.
  destruct s as [|c t]; [reflexivity|].
  rewrite replace_punct_cons.
  destruct (regexp.is_space c &&
            hdp regexp.is_punct (snd (span regexp.is_space t))) eqn:E.
  - apply andb_true_iff in E. destruct E as [Hc Hp].
    destruct (snd (span regexp.is_space t)) as [|p v] eqn:Hv;
      [discriminate|].
    cbn [hdp] in Hp. cbn [firstn tl app].
    apply adj_free_cons. split.
    + rewrite (punct_not_space p Hp). reflexivity.
    + apply IH. pose proof (span_length regexp.is_space t) as L.
      rewrite Hv in L. simpl in *. lia.
  - apply adj_free_cons. split.
    + destruct (regexp.is_space c) eqn:Hc; [|reflexivity].
      cbn [andb] in *.
      destruct (hdp regexp.is_punct
                  (regexp.ReplaceAllString regexp.reSpaceBeforePunct t))
        eqn:Hp; [|reflexivity].
      apply replace_punct_hd_punct in Hp. congruence.
    + apply IH. simpl. lia.
Qed.

(** What each step keeps. *)
Lemma replace_spaces_keeps_newlines (s : gostring) :
  adj_free regexp.is_newline regexp.is_newline s = true ->
  adj_free regexp.is_newline regexp.is_newline
    (regexp.ReplaceAllString regexp.reSpaces s) = true.
Proof.
  induction s as [s IH] using length_induction. intros H.
  destruct s as [|c t]; [reflexivity|].
  pose proof H as H'. apply adj_free_cons in H'. destruct H' as [H1 H2].
  rewrite replace_spaces_cons.
  destruct (regexp.is_blank c && hdp regexp.is_blank t) eqn:E.
  - apply adj_free_cons. split; [reflexivity|].
    apply IH.
    + pose proof (span_length regexp.is_blank t). simpl. lia.
    + apply adj_free_rest. exact H2.
  - apply adj_free_cons. split.
    + destruct (regexp.is_newline c); [|reflexivity]. cbn [andb] in *.
      destruct (hdp regexp.is_newline
                  (regexp.ReplaceAllString regexp.reSpaces t)) eqn:Hn;
        [|reflexivity].
      apply replace_spaces_hd_newline in Hn. congruence.
    + apply IH; [simpl; lia | exact H2].
Qed.

Lemma replace_punct_keeps (q : Z -> bool) (s : gostring) :
  (forall c, regexp.is_punct c = true -> q c = false) ->
  adj_free q q s = true ->
  adj_free q q (regexp.ReplaceAllString regexp.reSpaceBeforePunct s) = true.
Proof.
  intros Hq. induction s as [s IH] using length_induction. intros H.
  destruct s as [|c t]; [reflexivity|].
  pose proof H as H'. apply adj_free_cons in H'. destruct H' as [H1 H2].
  rewrite replace_punct_cons.
  destruct (regexp.is_space c &&
            hdp regexp.is_punct (snd (span regexp.is_space t))) eqn:E.
  - apply andb_true_iff in E. destruct E as [Hc Hp].
    pose proof (adj_free_rest q q regexp.is_space t H2) as Hrest.
    destruct (snd (span regexp.is_space t)) as [|p v] eqn:Hv;
      [discriminate|].
    cbn [hdp] in Hp. cbn [firstn tl app].
    apply adj_free_cons. split.
    + rewrite (Hq p Hp). reflexivity.
    + apply IH.
      * pose proof (span_length regexp.is_space t) as L.
        rewrite Hv in L. simpl in *. lia.
      * apply adj_free_cons in Hrest. tauto.
  - apply adj_free_cons. split.
    + destruct (q c); [|reflexivity]. cbn [andb] in *.
      destruct (hdp q (regexp.ReplaceAllString
                         regexp.reSpaceBeforePunct t)) eqn:Hn;
        [|reflexivity].
      apply (replace_punct_hd_class q t Hq) in Hn. congruence.
    + apply IH; [simpl; lia | exact H2].
Qed.

(** No step writes a [\r]. *)
Lemma Forall_skipn_rest (P : Z -> Prop) (p : Z -> bool) (s : gostring) :
  Forall P s -> Forall P (snd (span p s)).
Proof.
  intros H. rewrite <- (span_app p s) in H.
  apply Forall_app in H. tauto.
Qed.

Lemma replace_newlines_no_cr (s : gostring) :
  Forall (fun c => c <> 13) s ->
  Forall (fun c => c <> 13)
         (regexp.ReplaceAllString regexp.reNewlines s).
Proof.
  induction s as [s IH] using length_induction. intros H.
  destruct s as [|c t]; [constructor|].
  inversion H as [|? ? Hc Ht]; subst.
  rewrite replace_newlines_cons.
  destruct (regexp.is_newline c && hdp regexp.is_newline t).
  - constructor; [lia|]. apply IH.
    + pose proof (span_length regexp.is_newline t). simpl. lia.
    + apply Forall_skipn_rest, Ht.
  - constructor; [exact Hc|]. apply IH; [simpl; lia | exact Ht].
Qed.

Lemma replace_spaces_no_cr (s : gostring) :
  Forall (fun c => c <> 13) s ->
  Forall (fun c => c <> 13) (regexp.ReplaceAllString regexp.reSpaces s).
Proof.
  induction s as [s IH] using length_induction. intros H.
  destruct s as [|c t]; [constructor|].
  inversion H as [|? ? Hc Ht]; subst.
  rewrite replace_spaces_cons.
  destruct (regexp.is_blank c && hdp regexp.is_blank t).
  - constructor; [lia|]. apply IH.
    + pose proof (span_length regexp.is_blank t). simpl. lia.
    + apply Forall_skipn_rest, Ht.
  - constructor; [exact Hc|]. apply IH; [simpl; lia | exact Ht].
Qed.

Lemma replace_punct_no_cr (s : gostring) :
  Forall (fun c => c <> 13) s ->
  Forall (fun c => c <> 13)
         (regexp.ReplaceAllString regexp.reSpaceBeforePunct s).
Proof.
  induction s as [s IH] using length_induction. intros H.
  destruct s as [|c t]; [constructor|].
  inversion H as [|? ? Hc Ht]; subst.
  rewrite replace_punct_cons.
  destruct (regexp.is_space c &&
            hdp regexp.is_punct (snd (span regexp.is_space t))).
  - pose proof (Forall_skipn_rest _ regexp.is_space t Ht) as Hrest.
    pose proof (span_length regexp.is_space t) as L.
    destruct (snd (span regexp.is_space t)) as [|p v].
    + cbn [firstn tl app]. apply IH; [simpl; lia | constructor].
    + inversion Hrest; subst. cbn [firstn tl app].
      constructor; [assumption|].
      apply IH; [simpl in *; lia | assumption].
  - constructor; [exact Hc|]. apply IH; [simpl; lia | exact Ht].
Qed.

Lemma normalize_unfold (out : gostring) :
  RTF.normalize out =
  regexp.ReplaceAllString regexp.reSpaceBeforePunct
    (regexp.ReplaceAllString regexp.reSpaces
       (regexp.ReplaceAllString regexp.reNewlines (crlf_to_lf out))).
Proof.
  unfold RTF.normalize. rewrite <- normalize_newlines_crlf_to_lf.
  reflexivity.
Qed.

(** The output of the normalization is in normal form. *)
Lemma normalize_normalized (out : gostring) :
  normalized (RTF.normalize out).
Proof.
  rewrite normalize_unfold. repeat split.
  - apply replace_punct_no_cr, replace_spaces_no_cr,
      replace_newlines_no_cr.
    apply Forall_forall. intros c Hin ->.
    exact (crlf_to_lf_free out Hin).
  - apply (replace_punct_keeps _ _ punct_not_newline).
    apply replace_spaces_keeps_newlines, replace_newlines_free.
  - apply (replace_punct_keeps _ _ punct_not_blank).
    apply replace_spaces_free.
  - apply replace_punct_free.
Qed.

(** A text in normal form is left as it is. *)
Lemma normalize_fixes_normalized (s : gostring) :
  normalized s -> RTF.normalize s = s.
Proof.
  intros (Hcr & Hnl & Hbl & Hsp).
  rewrite normalize_unfold, crlf_to_lf_no_cr.
  - rewrite (replace_newlines_id s Hnl), (replace_spaces_id s Hbl).
    apply replace_punct_id, Hsp.
  - intros Hin. rewrite Forall_forall in Hcr. exact (Hcr 13 Hin eq_refl).
Qed.

(** C8.  The normalization of [extractRTF] is idempotent: applied to its
    own output it returns that output. *)
Theorem normalize_idempotent (out : gostring) :
  RTF.normalize (RTF.normalize out) = RTF.normalize out.
Proof. apply normalize_fixes_normalized, normalize_normalized. Qed.

Example normalize_sample :
  RTF.normalize (bytes_of_string "a" ++ [13; 10; 13; 10; 10; 32; 9; 32]
                 ++ bytes_of_string "b  ,c" ++ [10; 32; 10]
                 ++ bytes_of_string " ."
                 ++ [9; 9] ++ bytes_of_string "d")
  = bytes_of_string "a" ++ [10; 32] ++ bytes_of_string "b,c. d".
Proof. reflexivity. Qed.

(** ** UTF-8: what [AppendRune] writes, [range] reads back *)

Lemma lor_disjoint (x y k : Z) :
  0 <= k -> 0 <= y < 2 ^ k -> Z.lor (x * 2 ^ k) y = x * 2 ^ k + y.
Proof.
  intros Hk Hy.
  assert (E : Z.land (x * 2 ^ k) y = 0).
  { apply Z.bits_inj'. intros i Hi.
    rewrite Z.land_spec, Z.bits_0.
    destruct (Z.lt_ge_cases i k) as [Hik|Hik].
    - rewrite Z.mul_pow2_bits_low by lia. reflexivity.
    - destruct (Z.eq_dec y 0) as [->|Hy0].
      + rewrite Z.bits_0. apply andb_false_r.
      + assert (Hlog : Z.log2 y < i).
        { apply Z.lt_le_trans with k; [|exact Hik].
          apply Z.log2_lt_pow2; lia. }
        rewrite (Z.bits_above_log2 y i) by lia.
        apply andb_false_r. }
  pose proof (Z.add_lor_land (x * 2 ^ k) y) as H.
  rewrite E in H. lia.
Qed.

Lemma land_low (z k : Z) : 0 <= k -> Z.land z (2 ^ k - 1) = z mod 2 ^ k.
Proof.
  intros Hk. rewrite <- Z.land_ones by exact Hk.
  rewrite Z.ones_equiv. reflexivity.
Qed.

Lemma land_maskx (z : Z) : Z.land z utf8.maskx = z mod 64.
Proof. apply (land_low z 6). lia. Qed.

Lemma land_mask2 (z : Z) : Z.land z utf8.mask2 = z mod 32.
Proof. apply (land_low z 5). lia. Qed.

Lemma land_mask3 (z : Z) : Z.land z utf8.mask3 = z mod 16.
Proof. apply (land_low z 4). lia. Qed.

Lemma land_mask4 (z : Z) : Z.land z utf8.mask4 = z mod 8.
Proof. apply (land_low z 3). lia. Qed.

Lemma lor_tx (y : Z) : 0 <= y < 64 -> Z.lor utf8.tx y = 128 + y.
Proof. intros H. apply (lor_disjoint 2 y 6); lia. Qed.

Lemma lor_t2 (y : Z) : 0 <= y < 32 -> Z.lor utf8.t2 y = 192 + y.
Proof. intros H. apply (lor_disjoint 6 y 5); lia. Qed.

Lemma lor_t3 (y : Z) : 0 <= y < 16 -> Z.lor utf8.t3 y = 224 + y.
Proof. intros H. apply (lor_disjoint 14 y 4); lia. Qed.

Lemma lor_t4 (y : Z) : 0 <= y < 8 -> Z.lor utf8.t4 y = 240 + y.
Proof. intros H. apply (lor_disjoint 30 y 3); lia. Qed.

Lemma shiftr_div (z k : Z) : 0 <= k -> Z.shiftr z k = z / 2 ^ k.
Proof. apply Z.shiftr_div_pow2. Qed.

Lemma shiftl_mul (z k : Z) : 0 <= k -> Z.shiftl z k = z * 2 ^ k.
Proof. apply Z.shiftl_mul_pow2. Qed.

Ltac zcmp :=
  repeat match goal with
         | |- context [?x <? ?y] => destruct (Z.ltb_spec x y); try lia
         | |- context [?x <=? ?y] => destruct (Z.leb_spec x y); try lia
         | |- context [?x >? ?y] => destruct (Z.gtb_spec x y); try lia
         | |- context [?x >=? ?y] => destruct (Z.geb_spec x y); try lia
         | |- context [?x =? ?y] => destruct (Z.eqb_spec x y); try lia
         end.

Ltac divmod := Z.div_mod_to_equations; lia.

Ltac bytes_eq :=
  repeat match goal with
         | |- _ :: _ = _ :: _ => apply (f_equal2 cons)
         end;
  try reflexivity; divmod.

(** A scalar value: a code point that is not a surrogate. *)
Lemma AppendRune_1 (n : Z) :
  0 <= n < 0x80 -> utf8.AppendRune [] n = [n].
Proof.
  intros H. unfold utf8.AppendRune, to_uint32, to_byte, utf8.rune1Max.
  rewrite (Z.mod_small n (2 ^ 32)) by lia.
  rewrite (Z.mod_small n (2 ^ 8)) by lia.
  zcmp. reflexivity.
Qed.

Lemma AppendRune_2 (n : Z) :
  0x80 <= n < 0x800 ->
  utf8.AppendRune [] n = [192 + n / 64; 128 + n mod 64].
Proof.
  intros H. unfold utf8.AppendRune, to_uint32, to_byte,
    utf8.rune1Max, utf8.rune2Max.
  rewrite (Z.mod_small n (2 ^ 32)) by lia.
  zcmp. cbn [app].
  rewrite land_maskx, shiftr_div by lia.
  change (2 ^ 6) with 64. change (2 ^ 8) with 256.
  rewrite lor_t2, lor_tx by divmod.
  bytes_eq.
Qed.

Lemma AppendRune_3 (n : Z) :
  0x800 <= n < 0xD800 \/ 0xDFFF < n <= 0xFFFF ->
  utf8.AppendRune [] n =
  [224 + n / 4096; 128 + (n / 64) mod 64; 128 + n mod 64].
Proof.
  intros H. unfold utf8.AppendRune, to_uint32, to_byte,
    utf8.rune1Max, utf8.rune2Max, utf8.rune3Max, utf8.MaxRune,
    utf8.surrogateMin, utf8.surrogateMax.
  rewrite (Z.mod_small n (2 ^ 32)) by lia.
  zcmp; cbn [app orb andb];
    rewrite !land_maskx, !shiftr_div by lia;
    change (2 ^ 6) with 64; change (2 ^ 8) with 256;
    change (2 ^ 12) with 4096;
    rewrite lor_t3, !lor_tx by divmod;
    bytes_eq.
Qed.

Lemma AppendRune_4 (n : Z) :
  0xFFFF < n <= 0x10FFFF ->
  utf8.AppendRune [] n =
  [240 + n / 262144; 128 + (n / 4096) mod 64; 128 + (n / 64) mod 64;
   128 + n mod 64].
Proof.
  intros H. unfold utf8.AppendRune, to_uint32, to_byte,
    utf8.rune1Max, utf8.rune2Max, utf8.rune3Max, utf8.MaxRune,
    utf8.surrogateMin, utf8.surrogateMax.
  rewrite (Z.mod_small n (2 ^ 32)) by lia.
  zcmp; cbn [app orb andb];
    rewrite !land_maskx, !shiftr_div by lia;
    change (2 ^ 6) with 64; change (2 ^ 8) with 256;
    change (2 ^ 12) with 4096; change (2 ^ 18) with 262144;
    rewrite lor_t4, !lor_tx by divmod;
    bytes_eq.
Qed.

Lemma range_cons (s0 : Z) (t : gostring) :
  utf8.range (s0 :: t) =
  fst (utf8.DecodeRuneInString (s0 :: t))
  :: utf8.range_from (Nat.pred (snd (utf8.DecodeRuneInString (s0 :: t)))) t.
Proof.
  unfold utf8.range. cbn [utf8.range_from].
  destruct (utf8.DecodeRuneInString (s0 :: t)). reflexivity.
Qed.

Lemma DecodeRune_ascii (n : Z) (rest : gostring) :
  n < 0x80 -> utf8.DecodeRuneInString (n :: rest) = (n, 1%nat).
Proof.
  intros H. unfold utf8.DecodeRuneInString.
  assert (F : utf8.first n = utf8.as_) by (unfold utf8.first; zcmp; reflexivity).
  rewrite F.
  change (utf8.as_ >=? utf8.as_) with true. cbv iota.
  change (Z.shiftr (to_int32 (Z.shiftl utf8.as_ 31)) 31) with 0.
  change (Z.lnot 0) with (-1).
  rewrite Z.land_m1_r, Z.land_0_r, Z.lor_0_r. reflexivity.
Qed.

Lemma DecodeRune_2 (a b : Z) (rest : gostring) :
  2 <= a < 32 -> 0 <= b < 64 ->
  utf8.DecodeRuneInString (192 + a :: 128 + b :: rest)
  = (a * 64 + b, 2%nat).
Proof.
  intros Ha Hb. unfold utf8.DecodeRuneInString.
  assert (F : utf8.first (192 + a) = utf8.s1)
    by (unfold utf8.first; zcmp; reflexivity).
  rewrite F.
  change (utf8.s1 >=? utf8.as_) with false. cbv iota.
  change (Z.land utf8.s1 7) with 2.
  change (utf8.acceptRanges (Z.shiftr utf8.s1 4)) with (128, 191).
  cbn [length fst snd]. zcmp. cbn [orb].
  rewrite land_mask2, land_maskx, shiftl_mul by lia.
  replace ((192 + a) mod 32) with a by divmod.
  replace ((128 + b) mod 64) with b by divmod.
  rewrite lor_disjoint by lia. reflexivity.
Qed.

Lemma first_3 (a : Z) :
  0 <= a < 16 ->
  utf8.first (224 + a) =
  if a =? 0 then utf8.s2 else if a =? 13 then utf8.s4 else utf8.s3.
Proof. intros H. unfold utf8.first. zcmp; reflexivity. Qed.

Lemma DecodeRune_3 (a b c : Z) (rest : gostring) :
  0 <= a < 16 -> 0 <= b < 64 -> 0 <= c < 64 ->
  (a = 0 -> 32 <= b) -> (a = 13 -> b < 32) ->
  utf8.DecodeRuneInString (224 + a :: 128 + b :: 128 + c :: rest)
  = (a * 4096 + b * 64 + c, 3%nat).
Proof.
  intros Ha Hb Hc H0 H13. unfold utf8.DecodeRuneInString.
  rewrite (first_3 a Ha).
  assert (V : Z.lor (Z.lor (Z.shiftl (Z.land (224 + a) utf8.mask3) 12)
                           (Z.shiftl (Z.land (128 + b) utf8.maskx) 6))
                    (Z.land (128 + c) utf8.maskx)
              = a * 4096 + b * 64 + c).
  { rewrite land_mask3, !land_maskx, !shiftl_mul by lia.
    replace ((224 + a) mod 16) with a by divmod.
    replace ((128 + b) mod 64) with b by divmod.
    replace ((128 + c) mod 64) with c by divmod.
    rewrite (lor_disjoint a (b * 2 ^ 6) 12) by lia.
    replace (a * 2 ^ 12 + b * 2 ^ 6) with ((a * 64 + b) * 2 ^ 6) by lia.
    rewrite lor_disjoint by lia. lia. }
  rewrite V. clear V.
  destruct (Z.eqb_spec a 0) as [E0|N0];
    [|destruct (Z.eqb_spec a 13) as [E13|N13]].
  - change (utf8.s2 >=? utf8.as_) with false. cbv iota.
    change (Z.land utf8.s2 7) with 3.
    change (utf8.acceptRanges (Z.shiftr utf8.s2 4)) with (160, 191).
    cbn [length fst snd]. unfold utf8.locb, utf8.hicb.
    specialize (H0 E0). zcmp. reflexivity.
  - change (utf8.s4 >=? utf8.as_) with false. cbv iota.
    change (Z.land utf8.s4 7) with 3.
    change (utf8.acceptRanges (Z.shiftr utf8.s4 4)) with (128, 159).
    cbn [length fst snd]. unfold utf8.locb, utf8.hicb.
    specialize (H13 E13). zcmp. reflexivity.
  - change (utf8.s3 >=? utf8.as_) with false. cbv iota.
    change (Z.land utf8.s3 7) with 3.
    change (utf8.acceptRanges (Z.shiftr utf8.s3 4)) with (128, 191).
    cbn [length fst snd]. unfold utf8.locb, utf8.hicb.
    zcmp. reflexivity.
Qed.

Lemma first_4 (a : Z) :
  0 <= a < 5 ->
  utf8.first (240 + a) =
  if a =? 0 then utf8.s5 else if a =? 4 then utf8.s7 else utf8.s6.
Proof. intros H. unfold utf8.first. zcmp; reflexivity. Qed.

Lemma DecodeRune_4 (a b c d : Z) (rest : gostring) :
  0 <= a < 5 -> 0 <= b < 64 -> 0 <= c < 64 -> 0 <= d < 64 ->
  (a = 0 -> 16 <= b) -> (a = 4 -> b < 16) ->
  utf8.DecodeRuneInString
    (240 + a :: 128 + b :: 128 + c :: 128 + d :: rest)
  = (a * 262144 + b * 4096 + c * 64 + d, 4%nat).
Proof.
  intros Ha Hb Hc Hd H0 H4. unfold utf8.DecodeRuneInString.
  rewrite (first_4 a Ha).
  assert (V : Z.lor (Z.lor (Z.lor
                (Z.shiftl (Z.land (240 + a) utf8.mask4) 18)
                (Z.shiftl (Z.land (128 + b) utf8.maskx) 12))
                (Z.shiftl (Z.land (128 + c) utf8.maskx) 6))
                (Z.land (128 + d) utf8.maskx)
              = a * 262144 + b * 4096 + c * 64 + d).
  { rewrite land_mask4, !land_maskx, !shiftl_mul by lia.
    replace ((240 + a) mod 8) with a by divmod.
    replace ((128 + b) mod 64) with b by divmod.
    replace ((128 + c) mod 64) with c by divmod.
    replace ((128 + d) mod 64) with d by divmod.
    rewrite (lor_disjoint a (b * 2 ^ 12) 18) by lia.
    replace (a * 2 ^ 18 + b * 2 ^ 12) with ((a * 64 + b) * 2 ^ 12) by lia.
    rewrite (lor_disjoint (a * 64 + b) (c * 2 ^ 6) 12) by lia.
    replace ((a * 64 + b) * 2 ^ 12 + c * 2 ^ 6)
      with (((a * 64 + b) * 64 + c) * 2 ^ 6) by lia.
    rewrite lor_disjoint by lia. lia. }
  rewrite V. clear V.
  destruct (Z.eqb_spec a 0) as [E0|N0];
    [|destruct (Z.eqb_spec a 4) as [E4|N4]].
  - change (utf8.s5 >=? utf8.as_) with false. cbv iota.
    change (Z.land utf8.s5 7) with 4.
    change (utf8.acceptRanges (Z.shiftr utf8.s5 4)) with (144, 191).
    cbn [length fst snd]. unfold utf8.locb, utf8.hicb.
    specialize (H0 E0). zcmp. reflexivity.
  - change (utf8.s7 >=? utf8.as_) with false. cbv iota.
    change (Z.land utf8.s7 7) with 4.
    change (utf8.acceptRanges (Z.shiftr utf8.s7 4)) with (128, 143).
    cbn [length fst snd]. unfold utf8.locb, utf8.hicb.
    specialize (H4 E4). zcmp. reflexivity.
  - change (utf8.s6 >=? utf8.as_) with false. cbv iota.
    change (Z.land utf8.s6 7) with 4.
    change (utf8.acceptRanges (Z.shiftr utf8.s6 4)) with (128, 191).
    cbn [length fst snd]. unfold utf8.locb, utf8.hicb.
    zcmp. reflexivity.
Qed.

(** The bytes [AppendRune] writes for a scalar value are read back by
    [range] as that one rune, whatever follows them. *)
Lemma range_AppendRune_app (n : Z) (t : gostring) :
  scalar_value n ->
  utf8.range (utf8.AppendRune [] n ++ t) = n :: utf8.range t.
Proof.
  intros [H|H].
  - destruct (Z.lt_ge_cases n 0x80) as [H1|H1].
    { rewrite AppendRune_1 by lia. cbn [app]. rewrite range_cons.
      rewrite DecodeRune_ascii by lia. reflexivity. }
    destruct (Z.lt_ge_cases n 0x800) as [H2|H2].
    { rewrite AppendRune_2 by lia. cbn [app]. rewrite range_cons.
      rewrite DecodeRune_2 by divmod. cbn [fst snd Nat.pred
        utf8.range_from]. f_equal. divmod. }
    rewrite AppendRune_3 by lia. cbn [app]. rewrite range_cons.
    rewrite DecodeRune_3 by divmod. cbn [fst snd Nat.pred
      utf8.range_from]. f_equal. divmod.
  - destruct (Z.le_gt_cases n 0xFFFF) as [H1|H1].
    { rewrite AppendRune_3 by lia. cbn [app]. rewrite range_cons.
      rewrite DecodeRune_3 by divmod. cbn [fst snd Nat.pred
        utf8.range_from]. f_equal. divmod. }
    rewrite AppendRune_4 by lia. cbn [app]. rewrite range_cons.
    rewrite DecodeRune_4 by divmod. cbn [fst snd Nat.pred
      utf8.range_from]. f_equal. divmod.
Qed.

Lemma range_AppendRune (n : Z) :
  scalar_value n -> utf8.range (utf8.AppendRune [] n) = [n].
Proof.
  intros H. rewrite <- (app_nil_r (utf8.AppendRune [] n)).
  rewrite (range_AppendRune_app n [] H). reflexivity.
Qed.

(** ** The RTF tokenizer: [\uN] *)

Lemma span_all (p : Z -> bool) (u v : gostring) :
  forallb p u = true -> hdp p v = false -> span p (u ++ v) = (u, v).
Proof.
  intros Hu Hv. induction u as [|c u IH].
  - simpl. rewrite <- (span_rest_none p v Hv) at 2.
    apply span_fst_nil in Hv.
    destruct (span p v) as [x y]. simpl in *. subst x. reflexivity.
  - simpl in Hu. apply andb_true_iff in Hu. destruct Hu as [Hc Hu].
    simpl. rewrite Hc, (IH Hu). reflexivity.
Qed.

Lemma decimal_nonneg (ds : gostring) :
  forallb RTF.isDigit ds = true -> 0 <= decimal ds.
Proof.
  unfold decimal.
  assert (G : forall acc, 0 <= acc -> forallb RTF.isDigit ds = true ->
            0 <= fold_left (fun n ch => n * 10 + (ch - 48)) ds acc).
  { induction ds as [|c ds IH]; intros acc Hacc Hd; [exact Hacc|].
    simpl in Hd. apply andb_true_iff in Hd. destruct Hd as [Hc Hd].
    simpl. apply IH; [|exact Hd].
    unfold RTF.isDigit in Hc. apply andb_true_iff in Hc.
    destruct Hc as [H1 H2]. apply Z.leb_le in H1. lia. }
  apply G. lia.
Qed.

Lemma Atoi_digits (ds : gostring) :
  ds <> [] -> forallb RTF.isDigit ds = true -> decimal ds < 2 ^ 63 ->
  strconv.Atoi ds = Some (decimal ds).
Proof.
  intros Hne Hd Hlt. pose proof (decimal_nonneg ds Hd) as Hge.
  destruct ds as [|c t]; [contradiction|].
  unfold strconv.Atoi.
  assert (Hc : RTF.isDigit c = true).
  { simpl in Hd. apply andb_true_iff in Hd. tauto. }
  unfold RTF.isDigit in Hc. apply andb_true_iff in Hc.
  destruct Hc as [H1 H2]. apply Z.leb_le in H1, H2.
  destruct (Z.eqb_spec c 45); [lia|].
  destruct (Z.eqb_spec c 43); [lia|].
  change strconv.isDigit with RTF.isDigit. rewrite Hd.
  fold (decimal (c :: t)).
  destruct (Z.leb_spec (- 2 ^ 63) (decimal (c :: t))); [|lia].
  destruct (Z.ltb_spec (decimal (c :: t)) (2 ^ 63)); [|lia].
  reflexivity.
Qed.

Lemma digit_not_letter (c : Z) :
  RTF.isDigit c = true -> RTF.isLetter c = false.
Proof.
  unfold RTF.isDigit, RTF.isLetter. intros H.
  apply andb_true_iff in H. destruct H as [H1 H2].
  apply Z.leb_le in H1, H2. zcmp; reflexivity.
Qed.

(** The iteration that reads [\u], the digits of a scalar value and
    what follows. *)
Lemma step_u_escape (st : RTF.state) (digits tail : gostring) :
  digits <> [] -> forallb RTF.isDigit digits = true ->
  hdp RTF.isDigit tail = false ->
  scalar_value (decimal digits) ->
  RTF.rest st = u_escape digits ++ tail ->
  RTF.step st =
  RTF.mkState (RTF.swallow 32 (RTF.swallow 63 tail)) (RTF.depth st)
    (RTF.skipUntilDepth st)
    (RTF.emit (RTF.skipUntilDepth st) (RTF.b st)
       (utf8.AppendRune [] (decimal digits))).
Proof.
  intros Hne Hd Ht Hs Hrest.
  unfold RTF.step. rewrite Hrest. unfold u_escape. cbn [app].
  change (92 =? 123) with false. change (92 =? 125) with false.
  change (92 =? 92) with true. cbv iota.
  change (negb (RTF.isLetter 117)) with false. cbv iota.
  unfold RTF.control_word.
  destruct digits as [|c0 ds]; [contradiction|].
  assert (Hc0 : RTF.isDigit c0 = true).
  { simpl in Hd. apply andb_true_iff in Hd. tauto. }
  assert (Hsp : span RTF.isLetter (117 :: (c0 :: ds) ++ tail)
                = ([117], (c0 :: ds) ++ tail)).
  { cbn [span app]. change (RTF.isLetter 117) with true. cbv iota.
    rewrite (digit_not_letter c0 Hc0). reflexivity. }
  rewrite Hsp.
  unfold RTF.numeric_argument. cbn [app].
  assert (Hneg : (c0 =? 45) = false).
  { unfold RTF.isDigit in Hc0. apply andb_true_iff in Hc0.
    destruct Hc0 as [H1 H2]. apply Z.leb_le in H1.
    apply Z.eqb_neq. lia. }
  rewrite Hneg, Hc0. cbn [orb]. cbv iota zeta.
  change (c0 :: ds ++ tail) with ((c0 :: ds) ++ tail).
  rewrite (span_all RTF.isDigit (c0 :: ds) tail Hd Ht).
  change (list_eqb [117] (bytes_of_string "u")) with true. cbv iota.
  assert (Hrange : 0 <= decimal (c0 :: ds) <= 0x10FFFF)
    by (destruct Hs; lia).
  rewrite (Atoi_digits (c0 :: ds)) by (try discriminate; auto; lia).
  assert (E32 : to_int32 (decimal (c0 :: ds)) = decimal (c0 :: ds)).
  { unfold to_int32. rewrite Z.mod_small by lia. lia. }
  rewrite E32.
  change (list_eqb [117] (bytes_of_string "par")) with false.
  change (list_eqb [117] (bytes_of_string "line")) with false.
  change (list_eqb [117] (bytes_of_string "tab")) with false.
  change (RTF.isDestination [117]) with false.
  reflexivity.
Qed.

(** The builder only grows. *)
Lemma emit_grows (skip : Z) (b bs : gostring) :
  exists x, RTF.emit skip b bs = b ++ x.
Proof.
  unfold RTF.emit. destruct (skip <? 0); [eauto|].
  exists []. rewrite app_nil_r. reflexivity.
Qed.

Lemma numeric_argument_grows (word r2 : gostring) (skip : Z)
  (b : gostring) :
  exists x, snd (RTF.numeric_argument word r2 skip b) = b ++ x.
Proof.
  assert (Hid : exists x, b = b ++ x)
    by (exists []; rewrite app_nil_r; reflexivity).
  unfold RTF.numeric_argument. cbv zeta.
  destruct r2 as [|c r2']; [exact Hid|].
  destruct ((c =? 45) || RTF.isDigit c); [|exact Hid].
  destruct (span RTF.isDigit (if c =? 45 then r2' else c :: r2'))
    as [numStr r4].
  destruct (list_eqb word (bytes_of_string "u")); [|exact Hid].
  destruct (strconv.Atoi numStr); [|exact Hid].
  cbn [snd]. apply emit_grows.
Qed.

Lemma step_grows (st : RTF.state) :
  exists x, RTF.b (RTF.step st) = RTF.b st ++ x.
Proof.
  assert (Hid : exists x, RTF.b st = RTF.b st ++ x)
    by (exists []; rewrite app_nil_r; reflexivity).
  unfold RTF.step.
  destruct (RTF.rest st) as [|c r]; [exact Hid|].
  destruct (c =? 123); [exact Hid|].
  destruct (c =? 125); [exact Hid|].
  destruct (c =? 92).
  - destruct r as [|sym r1]; [exact Hid|].
    destruct (negb (RTF.isLetter sym)).
    + unfold RTF.control_symbol.
      destruct ((sym =? 92) || (sym =? 123) || (sym =? 125));
        [apply emit_grows|].
      destruct (sym =? 126); [apply emit_grows|].
      destruct (sym =? 45); [exact Hid|].
      destruct (sym =? 95); [apply emit_grows|].
      destruct (sym =? 42); [exact Hid|].
      destruct (sym =? 39); [|exact Hid].
      destruct r1 as [|h1 [|h2 r2]]; try exact Hid.
      destruct (hex.Decode h1 h2); [apply emit_grows | exact Hid].
    + unfold RTF.control_word.
      destruct (span RTF.isLetter (sym :: r1)) as [word r2].
      destruct (numeric_argument_grows word r2 (RTF.skipUntilDepth st)
                  (RTF.b st)) as [x Hx].
      destruct (RTF.numeric_argument word r2 (RTF.skipUntilDepth st)
                  (RTF.b st)) as [r3 b1].
      cbn [snd] in Hx. subst b1.
      destruct (list_eqb word (bytes_of_string "par") ||
                list_eqb word (bytes_of_string "line")).
      { cbn [RTF.b].
        destruct (emit_grows (RTF.skipUntilDepth st) (RTF.b st ++ x) [10])
          as [y Hy].
        rewrite Hy, <- app_assoc. eauto. }
      destruct (list_eqb word (bytes_of_string "tab")).
      { cbn [RTF.b].
        destruct (emit_grows (RTF.skipUntilDepth st) (RTF.b st ++ x) [9])
          as [y Hy].
        rewrite Hy, <- app_assoc. eauto. }
      destruct (RTF.isDestination word); cbn [RTF.b]; eauto.
  - destruct ((c =? 13) || (c =? 10)); [exact Hid|].
    cbn [RTF.b]. apply emit_grows.
Qed.

Lemma iter_grows (k : nat) :
  forall st, exists x, RTF.b (RTF.iter k st) = RTF.b st ++ x.
Proof.
  induction k as [|k IH]; intros st.
  - exists []. rewrite app_nil_r. reflexivity.
  - simpl. destruct (IH (RTF.step st)) as [x Hx].
    destruct (step_grows st) as [y Hy].
    exists (y ++ x). rewrite Hx, Hy, app_assoc. reflexivity.
Qed.

Lemma tokenize_from (data : gostring) (n : nat) :
  RTF.rest (RTF.iter n (RTF.init data)) <> [] ->
  exists x, RTF.tokenize data
            = RTF.b (RTF.step (RTF.iter n (RTF.init data))) ++ x.
Proof.
  intros Hne. unfold RTF.tokenize. rewrite loop_iter.
  assert (Hlt : (n < length data)%nat).
  { destruct (Nat.lt_ge_cases n (length data)) as [H|H]; [exact H|].
    exfalso. apply Hne.
    replace n with (length data + (n - length data))%nat by lia.
    rewrite iter_plus. rewrite iter_done.
    - rewrite <- loop_iter. apply loop_exits. simpl. lia.
    - rewrite <- loop_iter. apply loop_exits. simpl. lia. }
  replace (length data) with (S n + (length data - S n))%nat by lia.
  rewrite iter_plus, iter_S. apply iter_grows.
Qed.

(** C6, as the code has it.  When the tokenizer, after any number of
    iterations of any run, is at [\u] followed by the decimal digits of
    a Unicode scalar value [N] (a code point outside the surrogates),
    the next iteration passes over the escape, over a [?] that follows
    it at once and over one space after that, and changes neither the
    depth nor the skip marker; when the marker is not set it writes the
    UTF-8 bytes of [N], which read back as the single code point [N] and
    are found at that position of the tokenizer's output; when the
    marker is set it writes nothing. *)
Theorem u_escape_emits (data : gostring) (n : nat)
  (digits tail : gostring) :
  let st := RTF.iter n (RTF.init data) in
  let st' := RTF.step st in
  let N := decimal digits in
  digits <> [] -> forallb RTF.isDigit digits = true ->
  hdp RTF.isDigit tail = false ->
  scalar_value N ->
  RTF.rest st = u_escape digits ++ tail ->
  RTF.rest st' = RTF.swallow 32 (RTF.swallow 63 tail) /\
  RTF.depth st' = RTF.depth st /\
  RTF.skipUntilDepth st' = RTF.skipUntilDepth st /\
  (RTF.skipUntilDepth st < 0 ->
   RTF.b st' = RTF.b st ++ utf8.AppendRune [] N /\
   utf8.range (utf8.AppendRune [] N) = [N] /\
   exists later,
     RTF.tokenize data = RTF.b st ++ utf8.AppendRune [] N ++ later) /\
  (0 <= RTF.skipUntilDepth st -> RTF.b st' = RTF.b st).
Proof.
  intros st st' N Hne Hd Ht Hs Hrest.
  pose proof (step_u_escape st digits tail Hne Hd Ht Hs Hrest) as E.
  fold st' in E. fold N in E. rewrite E. cbn [RTF.rest RTF.depth
    RTF.skipUntilDepth RTF.b].
  repeat split.
  - apply emit_writing. assumption.
  - apply range_AppendRune. exact Hs.
  - assert (Hnonempty : RTF.rest st <> [])
      by (rewrite Hrest; discriminate).
    destruct (tokenize_from data n Hnonempty) as [x Hx].
    fold st in Hx. fold st' in Hx. rewrite E in Hx. cbn [RTF.b] in Hx.
    rewrite emit_writing in Hx by assumption.
    exists x. rewrite Hx, app_assoc. reflexivity.
  - apply emit_skipping.
Qed.

(** The escape [\u] [9472?] of the specification, in [{\rtf1 ...}]. *)
Lemma u_escape_emits_witness :
  let data := bytes_of_string "{\rtf1 "
              ++ u_escape (bytes_of_string "9472?") ++ bytes_of_string "}" in
  let st := RTF.iter 2 (RTF.init data) in
  RTF.rest st = u_escape (bytes_of_string "9472?") ++ bytes_of_string "}" /\
  RTF.rest (RTF.step st) = bytes_of_string "}" /\
  RTF.b (RTF.step st) = RTF.b st ++ [0xE2; 0x94; 0x80] /\
  utf8.range [0xE2; 0x94; 0x80] = [0x2500] /\
  RTF.extractRTF data = ([0xE2; 0x94; 0x80], None).
Proof.
  intros data st.
  destruct (u_escape_emits data 2 (bytes_of_string "9472")
              (bytes_of_string "?}")) as (H1 & _ & _ & H2 & _).
  - discriminate.
  - reflexivity.
  - reflexivity.
  - left. split; vm_compute; [discriminate | reflexivity].
  - reflexivity.
  - destruct H2 as (H3 & H4 & _); [reflexivity|].
    split; [reflexivity|].
    split; [exact H1|]. split; [exact H3|]. split; [exact H4|].
    reflexivity.
Defined.

(** C6 as stated fails for numeric arguments that are not scalar values.
    With an argument that does not fit an [int], [strconv.Atoi] fails:
    nothing is written and the [?] is not passed over, so that it is
    written as text.  With the surrogate code point 55296 (U+D800), and
    with the negative argument -3913, U+FFFD is written. *)
Lemma u_escape_counterexample :
  (let data := u_escape (bytes_of_string "99999999999999999999?") in
   RTF.skipUntilDepth (RTF.init data) < 0 /\
   RTF.b (RTF.step (RTF.init data)) = [] /\
   RTF.rest (RTF.step (RTF.init data)) = bytes_of_string "?" /\
   RTF.extractRTF data = (bytes_of_string "?", None)) /\
  (let data := u_escape (bytes_of_string "55296?") in
   RTF.skipUntilDepth (RTF.init data) < 0 /\
   RTF.b (RTF.step (RTF.init data)) = [0xEF; 0xBF; 0xBD] /\
   utf8.range (RTF.b (RTF.step (RTF.init data))) = [0xFFFD] /\
   utf8.range (RTF.b (RTF.step (RTF.init data))) <> [55296]) /\
  (let data := u_escape (bytes_of_string "-3913?") in
   RTF.skipUntilDepth (RTF.init data) < 0 /\
   utf8.range (RTF.b (RTF.step (RTF.init data))) = [0xFFFD]).
Proof.
  repeat split; try reflexivity; discriminate.
Qed.

(** ** The legacy encodings of the TXT path *)

Lemma wrap_int_small (z : Z) : - 2 ^ 63 <= z < 2 ^ 63 -> wrap_int z = z.
Proof. intros H. unfold wrap_int. rewrite Z.mod_small by lia. lia. Qed.

Lemma count_cons (p : rune -> bool) (r : rune) (rs : list rune) :
  count p (r :: rs) = (if p r then 1 else 0) + count p rs.
Proof.
  unfold count. simpl. destruct (p r); simpl length; lia.
Qed.

Lemma count_bounds (p : rune -> bool) (rs : list rune) :
  0 <= count p rs <= Z.of_nat (length rs).
Proof.
  unfold count. pose proof (filter_length_le p rs). lia.
Qed.

(** The counters of [scoreCyrillicText] are the counts of the formula. *)
Lemma counters_fold (rs : list rune) :
  forall k,
  let k' := fold_left TXT.count_rune rs k in
  TXT.cyr k' = TXT.cyr k + count is_cyrillic rs /\
  TXT.asciiPrint k' = TXT.asciiPrint k + count is_printable rs /\
  TXT.repl k' = TXT.repl k + count is_replacement rs /\
  TXT.ctrl k' = TXT.ctrl k + count is_control rs.
Proof.
  induction rs as [|r rs IH]; intros k.
  - unfold count. simpl. lia.
  - cbn [fold_left]. cbv zeta.
    destruct (IH (TXT.count_rune k r)) as (H1 & H2 & H3 & H4).
    rewrite H1, H2, H3, H4, !count_cons. clear H1 H2 H3 H4.
    generalize (count is_cyrillic rs), (count is_printable rs),
      (count is_replacement rs), (count is_control rs).
    intros n1 n2 n3 n4.
    unfold TXT.count_rune, is_cyrillic, is_printable, is_replacement,
      is_control.
    zcmp; cbn [andb negb TXT.cyr TXT.asciiPrint TXT.repl TXT.ctrl]; lia.
Qed.

Lemma range_from_length (s : gostring) :
  forall k, (length (utf8.range_from k s) <= length s)%nat.
Proof.
  induction s as [|c t IH]; intros k; [simpl; lia|].
  destruct k as [|k]; cbn [utf8.range_from].
  - destruct (utf8.DecodeRuneInString (c :: t)) as [r size].
    specialize (IH (Nat.pred size)). simpl. lia.
  - specialize (IH k). simpl. lia.
Qed.

Lemma score_formula_bounds (text : gostring) :
  - 55 * Z.of_nat (length text) <= score_formula text
  <= 4 * Z.of_nat (length text).
Proof.
  unfold score_formula. cbv zeta.
  pose proof (range_from_length text 0) as L. fold (utf8.range text) in L.
  pose proof (count_bounds is_cyrillic (utf8.range text)).
  pose proof (count_bounds is_printable (utf8.range text)).
  pose proof (count_bounds is_replacement (utf8.range text)).
  pose proof (count_bounds is_control (utf8.range text)).
  lia.
Qed.

(** [scoreCyrillicText] computes the formula on every text that is not
    empty and whose length leaves the arithmetic within [int]. *)
Lemma scoreCyrillicText_formula (text : gostring) :
  text <> [] -> Z.of_nat (length text) < 2 ^ 56 ->
  TXT.scoreCyrillicText text = score_formula text.
Proof.
  intros Hne Hlen. destruct text as [|c t]; [contradiction|].
  unfold TXT.scoreCyrillicText.
  destruct (counters_fold (utf8.range (c :: t)) (TXT.mkCounters 0 0 0 0))
    as (H1 & H2 & H3 & H4).
  cbv zeta in H1, H2, H3, H4. cbv zeta.
  rewrite H1, H2, H3, H4. cbn [TXT.cyr TXT.asciiPrint TXT.repl TXT.ctrl].
  pose proof (score_formula_bounds (c :: t)) as B.
  unfold score_formula in *. cbv zeta in *.
  rewrite wrap_int_small; lia.
Qed.

Lemma decode_byte_length (m : charmap.Charmap) (c : Z) :
  (1 <= length (charmap.decode_byte m c) <= 3)%nat.
Proof.
  unfold charmap.decode_byte.
  destruct (charmap.asciiSuperset m && (c <? utf8.RuneSelf));
    [simpl; lia|].
  destruct (charmap.decode m c); simpl; lia.
Qed.

Lemma Decode_length (m : charmap.Charmap) (src : gostring) :
  (length src <= length (charmap.Decode m src) <= 3 * length src)%nat.
Proof.
  unfold charmap.Decode. induction src as [|c t IH]; [simpl; lia|].
  cbn [flat_map]. rewrite length_app.
  pose proof (decode_byte_length m c). simpl length. lia.
Qed.

Lemma Decode_nonempty (m : charmap.Charmap) (src : gostring) :
  src <> [] -> charmap.Decode m src <> [].
Proof.
  intros Hne E. pose proof (Decode_length m src) as L.
  rewrite E in L. destruct src; [contradiction | simpl in L; lia].
Qed.

Lemma score_of_candidate (m : charmap.Charmap) (data : gostring) :
  data <> [] -> Z.of_nat (length data) < 2 ^ 48 ->
  TXT.scoreCyrillicText (charmap.Decode m data)
  = score_formula (charmap.Decode m data).
Proof.
  intros Hne Hlen. apply scoreCyrillicText_formula.
  - apply Decode_nonempty, Hne.
  - pose proof (Decode_length m data). lia.
Qed.

(** The loop over the candidates keeps the first text of highest score
    among those that score above the initial [bestScore]. *)
Lemma best_candidate (data : gostring) (cands : list charmap.Charmap) :
  forall t0 s0,
  (fold_left (TXT.try_candidate data) cands (t0, s0) = (t0, s0) /\
   forall c, In c cands ->
     TXT.scoreCyrillicText (charmap.Decode c data) <= s0) \/
  (exists c, In c cands /\
     s0 < TXT.scoreCyrillicText (charmap.Decode c data) /\
     fold_left (TXT.try_candidate data) cands (t0, s0)
     = (charmap.Decode c data,
        TXT.scoreCyrillicText (charmap.Decode c data)) /\
     forall c', In c' cands ->
       TXT.scoreCyrillicText (charmap.Decode c' data)
       <= TXT.scoreCyrillicText (charmap.Decode c data)).
Proof.
  induction cands as [|c cs IH]; intros t0 s0.
  - left. split; [reflexivity|]. intros c [].
  - cbn [fold_left]. unfold TXT.try_candidate at 2 4.
    cbv zeta. cbn [snd].
    destruct (Z.gtb_spec (TXT.scoreCyrillicText (charmap.Decode c data)) s0)
      as [Hgt|Hle].
    + destruct (IH (charmap.Decode c data)
                   (TXT.scoreCyrillicText (charmap.Decode c data)))
        as [[E H]|(c1 & Hin & Hlt & E & Hmax)].
      * right. exists c. split; [left; reflexivity|].
        split; [lia|]. split; [exact E|].
        intros c' [<-|Hin]; [lia | apply H, Hin].
      * right. exists c1. split; [right; exact Hin|].
        split; [lia|]. split; [exact E|].
        intros c' [<-|Hin']; [lia | apply Hmax, Hin'].
    + destruct (IH t0 s0) as [[E H]|(c1 & Hin & Hlt & E & Hmax)].
      * left. split; [exact E|].
        intros c' [<-|Hin]; [exact Hle | apply H, Hin].
      * right. exists c1. split; [right; exact Hin|].
        split; [exact Hlt|]. split; [exact E|].
        intros c' [<-|Hin']; [lia | apply Hmax, Hin'].
Qed.

Lemma valid_nonempty (data : gostring) :
  utf8.Valid data = false -> data <> [].
Proof. intros H ->. discriminate. Qed.

(** For an input without byte-order mark that is not valid UTF-8, when
    some candidate scores above the initial [bestScore] of [-2^31]:
    [extractTXT] decodes the input under the five encodings, scores each
    text by the formula, takes a text of highest score, and returns it
    with its line endings normalized, or, when that text holds U+FFFD,
    the text made of the code points of the raw bytes. *)
Theorem extractTXT_legacy (pkg : charmap.Package) (data : gostring) :
  TXT.has_bom 0xFF 0xFE data = false ->
  TXT.has_bom 0xFE 0xFF data = false ->
  utf8.Valid data = false ->
  Z.of_nat (length data) < 2 ^ 48 ->
  (exists c, In c (TXT.candidates pkg) /\
             - 2 ^ 31 < score_formula (charmap.Decode c data)) ->
  TXT.candidates pkg =
    [ charmap.Windows1251 pkg; charmap.KOI8R pkg; charmap.ISO8859_5 pkg;
      charmap.MacintoshCyrillic pkg; charmap.CodePage866 pkg ] /\
  exists best, In best (TXT.candidates pkg) /\
    (forall c, In c (TXT.candidates pkg) ->
       score_formula (charmap.Decode c data)
       <= score_formula (charmap.Decode best data)) /\
    (forall c, In c (TXT.candidates pkg) ->
       TXT.scoreCyrillicText (charmap.Decode c data)
       = score_formula (charmap.Decode c data)) /\
    TXT.extractTXT pkg data =
    (crlf_to_lf (if strings.ContainsRune (charmap.Decode best data) 0xFFFD
                 then string_of_runes data
                 else charmap.Decode best data), None).
Proof.
  intros Hle Hbe Hv Hlen (c0 & Hin0 & Hs0).
  split; [reflexivity|].
  pose proof (valid_nonempty data Hv) as Hne.
  assert (Hsc : forall c, TXT.scoreCyrillicText (charmap.Decode c data)
                          = score_formula (charmap.Decode c data))
    by (intros c; apply score_of_candidate; assumption).
  destruct (best_candidate data (TXT.candidates pkg) [] (- 2 ^ 31))
    as [[_ H]|(best & Hin & _ & E & Hmax)].
  { specialize (H c0 Hin0). rewrite Hsc in H. lia. }
  exists best. split; [exact Hin|]. split; [|split].
  - intros c Hc. rewrite <- !Hsc. apply Hmax, Hc.
  - intros c _. apply Hsc.
  - unfold TXT.extractTXT. rewrite Hle, Hbe, Hv.
    unfold TXT.decodeBestCyrillic. rewrite E.
    pose proof (Decode_nonempty best data Hne) as Hb.
    destruct (charmap.Decode best data) as [|x t] eqn:Ed; [contradiction|].
    destruct (strings.ContainsRune (x :: t) 0xFFFD);
      rewrite normalize_newlines_crlf_to_lf; reflexivity.
Qed.

(** The six bytes of a Cyrillic word in Windows-1251: the first
    candidate has the highest score (shared with two others) and is
    returned. *)
Lemma extractTXT_legacy_witness :
  TXT.extractTXT Tables.x_text cp1251_privet
  = ([0xD0; 0x9F; 0xD1; 0x80; 0xD0; 0xB8; 0xD0; 0xB2; 0xD0; 0xB5;
      0xD1; 0x82], None) /\
  exists best, In best (TXT.candidates Tables.x_text) /\
    (forall c, In c (TXT.candidates Tables.x_text) ->
       score_formula (charmap.Decode c cp1251_privet)
       <= score_formula (charmap.Decode best cp1251_privet)) /\
    (forall c, In c (TXT.candidates Tables.x_text) ->
       TXT.scoreCyrillicText (charmap.Decode c cp1251_privet)
       = score_formula (charmap.Decode c cp1251_privet)) /\
    TXT.extractTXT Tables.x_text cp1251_privet =
    (crlf_to_lf
       (if strings.ContainsRune (charmap.Decode best cp1251_privet) 0xFFFD
        then string_of_runes cp1251_privet
        else charmap.Decode best cp1251_privet), None).
Proof.
  split; [reflexivity|].
  apply (extractTXT_legacy Tables.x_text cp1251_privet);
    try reflexivity.
  exists (charmap.Windows1251 Tables.x_text).
  split; [left; reflexivity | reflexivity].
Defined.

(** A text whose best decoding, Windows-1251 with score 55 against 54
    for KOI8-R, Mac Cyrillic and CP866 and -846 for ISO-8859-5 (which
    has no mapping for the bytes [0x98] and [0x80]), holds U+FFFD for
    the byte [0x98]: the code points of the raw bytes are returned. *)
Example extractTXT_unmapped_byte :
  map (fun c => TXT.scoreCyrillicText (charmap.Decode c cp1251_unmapped))
      (TXT.candidates Tables.x_text) = [55; 54; -846; 54; 54] /\
  strings.ContainsRune
    (charmap.Decode (charmap.Windows1251 Tables.x_text) cp1251_unmapped) 0xFFFD
  = true /\
  TXT.extractTXT Tables.x_text cp1251_unmapped
  = (string_of_runes cp1251_unmapped, None) /\
  utf8.range (string_of_runes cp1251_unmapped) = cp1251_unmapped.
Proof. repeat split. Qed.

(** *** The initial [bestScore] *)

Lemma has_bom_sentinel (b0 b1 : Z) (n : nat) :
  b0 <> 1 -> TXT.has_bom b0 b1 (sentinel_input n) = false.
Proof.
  intros H. unfold sentinel_input, TXT.has_bom.
  destruct n as [|[|n]]; cbn [repeat app]; try reflexivity.
  - destruct (Z.eqb_spec 1 b0); [congruence | reflexivity].
  - destruct (Z.eqb_spec 1 b0); [congruence | reflexivity].
Qed.

Lemma valid_sentinel (n : nat) : utf8.Valid (sentinel_input n) = false.
Proof.
  unfold utf8.Valid, sentinel_input.
  induction n as [|n IH]; [reflexivity|].
  cbn [repeat app utf8.valid_from].
  change (1 <? utf8.RuneSelf) with true. cbv iota. exact IH.
Qed.

Lemma Decode_sentinel (m : charmap.Charmap) (n : nat) :
  charmap.asciiSuperset m = true ->
  charmap.Decode m (sentinel_input n)
  = repeat 1 n ++ charmap.decode_byte m 255.
Proof.
  intros Ha. unfold charmap.Decode, sentinel_input.
  rewrite flat_map_app. cbn [flat_map]. rewrite app_nil_r. f_equal.
  induction n as [|n IH]; [reflexivity|].
  cbn [repeat flat_map]. rewrite IH.
  unfold charmap.decode_byte at 1. rewrite Ha. reflexivity.
Qed.

Lemma range_ones (n : nat) (t : gostring) :
  utf8.range (repeat 1 n ++ t) = repeat 1 n ++ utf8.range t.
Proof.
  induction n as [|n IH]; [reflexivity|].
  cbn [repeat app]. rewrite range_cons.
  rewrite DecodeRune_ascii by lia. cbn [fst snd Nat.pred].
  fold (utf8.range (repeat 1 n ++ t)). rewrite IH. reflexivity.
Qed.

Lemma count_app (p : rune -> bool) (u v : list rune) :
  count p (u ++ v) = count p u + count p v.
Proof. unfold count. rewrite filter_app, length_app. lia. Qed.

Lemma count_repeat (p : rune -> bool) (r : rune) (n : nat) :
  count p (repeat r n) = if p r then Z.of_nat n else 0.
Proof.
  induction n as [|n IH]; [destruct (p r); reflexivity|].
  cbn [repeat]. rewrite count_cons, IH. destruct (p r); lia.
Qed.

Lemma score_formula_ones (n : nat) (t : gostring) :
  score_formula (repeat 1 n ++ t) = score_formula t - 5 * Z.of_nat n.
Proof.
  unfold score_formula. cbv zeta.
  rewrite range_ones, !count_app, !count_repeat.
  change (is_cyrillic 1) with false. change (is_printable 1) with false.
  change (is_replacement 1) with false. change (is_control 1) with true.
  cbv iota. lia.
Qed.

Lemma ContainsRune_RuneError (s : gostring) :
  strings.ContainsRune s 0xFFFD
  = existsb (fun r => r =? utf8.RuneError) (utf8.range s).
Proof. reflexivity. Qed.

Lemma no_replacement_ones (n : nat) (t : gostring) :
  strings.ContainsRune (repeat 1 n ++ t) 0xFFFD
  = strings.ContainsRune t 0xFFFD.
Proof.
  rewrite !ContainsRune_RuneError.
  rewrite range_ones, existsb_app.
  replace (existsb (fun r => r =? utf8.RuneError) (repeat 1 n))
    with false; [reflexivity|].
  induction n as [|n IH]; [reflexivity|]. cbn [repeat existsb].
  rewrite <- IH. reflexivity.
Qed.

Lemma AppendRune_app (p : gostring) (r : rune) :
  utf8.AppendRune p r = p ++ utf8.AppendRune [] r.
Proof.
  unfold utf8.AppendRune. cbv zeta.
  repeat match goal with
         | |- context [if ?c then _ else _] => destruct c
         end; reflexivity.
Qed.

Lemma string_of_runes_app (u v : list rune) :
  string_of_runes (u ++ v) = string_of_runes u ++ string_of_runes v.
Proof.
  unfold string_of_runes.
  assert (G : forall rs acc,
            fold_left utf8.AppendRune rs acc
            = acc ++ fold_left utf8.AppendRune rs []).
  { induction rs as [|r rs IH]; intros acc.
    - simpl. rewrite app_nil_r. reflexivity.
    - cbn [fold_left]. rewrite (IH (utf8.AppendRune acc r)),
        (IH (utf8.AppendRune [] r)), (AppendRune_app acc r), app_assoc.
      reflexivity. }
  rewrite fold_left_app, G. reflexivity.
Qed.

(** The text made of the code points of a list of scalar values reads
    back as these code points; so does, in particular, the text that the
    last step of [extractTXT] makes of the raw bytes. *)
Lemma string_of_runes_reads_back (rs : list rune) :
  Forall scalar_value rs -> utf8.range (string_of_runes rs) = rs.
Proof.
  induction rs as [|r rs IH]; intros H; [reflexivity|].
  inversion H as [|? ? Hr Hrs]; subst.
  change (r :: rs) with ([r] ++ rs) at 1.
  rewrite string_of_runes_app.
  change (string_of_runes [r]) with (utf8.AppendRune [] r).
  rewrite (range_AppendRune_app r _ Hr), (IH Hrs). reflexivity.
Qed.

Lemma raw_bytes_read_back (data : gostring) :
  Forall (fun c => 0 <= c < 256) data ->
  utf8.range (string_of_runes data) = data.
Proof.
  intros H. apply string_of_runes_reads_back.
  apply Forall_impl with (2 := H). intros c Hc. left. lia.
Qed.

Lemma string_of_runes_ones (n : nat) :
  string_of_runes (repeat 1 n) = repeat 1 n.
Proof.
  induction n as [|n IH]; [reflexivity|].
  change (repeat 1 (S n)) with ([1] ++ repeat 1 n).
  rewrite string_of_runes_app, IH. reflexivity.
Qed.

Lemma no_cr_sentinel (n : nat) (t : gostring) :
  ~ In 13 t -> ~ In 13 (repeat 1 n ++ t).
Proof.
  intros Ht Hin. apply in_app_or in Hin. destruct Hin as [Hin|Hin].
  - apply repeat_spec in Hin. discriminate.
  - exact (Ht Hin).
Qed.

(** What [extractTXT] does with the five published tables on [n] bytes
    [0x01] and a byte [0xFF], for the [n] at which every score is at
    most [-2^31]. *)
Lemma sentinel_general (n : nat) :
  429496731 <= Z.of_nat n < 2 ^ 40 ->
  let data := sentinel_input n in
  let W := charmap.Windows1251 Tables.x_text in
  (TXT.has_bom 0xFF 0xFE data = false /\
   TXT.has_bom 0xFE 0xFF data = false /\
   utf8.Valid data = false) /\
  (forall c, In c (TXT.candidates Tables.x_text) ->
     strings.ContainsRune (charmap.Decode c data) 0xFFFD = false /\
     TXT.scoreCyrillicText (charmap.Decode c data)
     = score_formula (charmap.Decode c data) /\
     score_formula (charmap.Decode c data)
     <= score_formula (charmap.Decode W data)) /\
  score_formula (charmap.Decode W data) = 3 - 5 * Z.of_nat n /\
  charmap.Decode W data = repeat 1 n ++ [0xD1; 0x8F] /\
  string_of_runes data = repeat 1 n ++ [0xC3; 0xBF] /\
  TXT.decodeBestCyrillic Tables.x_text data = ([], false) /\
  TXT.extractTXT Tables.x_text data = (string_of_runes data, None).
Proof.
  intros Hn data W.
  assert (Hbom1 := has_bom_sentinel 0xFF 0xFE n ltac:(lia)).
  assert (Hbom2 := has_bom_sentinel 0xFE 0xFF n ltac:(lia)).
  assert (Hv := valid_sentinel n).
  fold data in Hbom1, Hbom2, Hv.
  assert (Hlen : Z.of_nat (length data) < 2 ^ 48).
  { unfold data, sentinel_input. rewrite length_app, repeat_length.
    simpl length. lia. }
  assert (Hne : data <> []) by (apply valid_nonempty, Hv).
  assert (Hcands : forall c, In c (TXT.candidates Tables.x_text) ->
            strings.ContainsRune (charmap.Decode c data) 0xFFFD = false /\
            TXT.scoreCyrillicText (charmap.Decode c data)
            = score_formula (charmap.Decode c data) /\
            score_formula (charmap.Decode c data) <= 3 - 5 * Z.of_nat n).
  { intros c Hc. rewrite (score_of_candidate c data Hne Hlen).
    unfold data.
    destruct Hc as [<-|[<-|[<-|[<-|[<-|[]]]]]];
      rewrite Decode_sentinel by reflexivity;
      rewrite no_replacement_ones, score_formula_ones;
      (split; [reflexivity|]); (split; [reflexivity|]).
    - change (score_formula (charmap.decode_byte
                (charmap.Windows1251 Tables.x_text) 255)) with 3. lia.
    - change (score_formula (charmap.decode_byte
                (charmap.KOI8R Tables.x_text) 255)) with 3. lia.
    - change (score_formula (charmap.decode_byte
                (charmap.ISO8859_5 Tables.x_text) 255)) with 3. lia.
    - change (score_formula (charmap.decode_byte
                (charmap.MacintoshCyrillic Tables.x_text) 255)) with 0. lia.
    - change (score_formula (charmap.decode_byte
                (charmap.CodePage866 Tables.x_text) 255)) with 0. lia. }
  assert (HW : charmap.Decode W data = repeat 1 n ++ [0xD1; 0x8F]).
  { unfold data, W. rewrite Decode_sentinel by reflexivity. reflexivity. }
  assert (HWs : score_formula (charmap.Decode W data)
                = 3 - 5 * Z.of_nat n).
  { rewrite HW, score_formula_ones. change (score_formula [0xD1; 0x8F])
      with 3. reflexivity. }
  assert (Hlatin : string_of_runes data = repeat 1 n ++ [0xC3; 0xBF]).
  { unfold data, sentinel_input.
    rewrite string_of_runes_app, string_of_runes_ones. reflexivity. }
  assert (Hbest : TXT.decodeBestCyrillic Tables.x_text data = ([], false)).
  { unfold TXT.decodeBestCyrillic.
    destruct (best_candidate data (TXT.candidates Tables.x_text) []
                (- 2 ^ 31)) as [[E _]|(c & Hin & Hlt & _)].
    - rewrite E. reflexivity.
    - destruct (Hcands c Hin) as (_ & E & Hle). rewrite E in Hlt. lia. }
  split; [auto|]. split.
  { intros c Hc. destruct (Hcands c Hc) as (H1 & H2 & H3).
    rewrite HWs. auto. }
  split; [exact HWs|]. split; [exact HW|]. split; [exact Hlatin|].
  split; [exact Hbest|].
  unfold TXT.extractTXT. rewrite Hbom1, Hbom2, Hv, Hbest.
  rewrite normalize_newlines_crlf_to_lf, crlf_to_lf_no_cr; [reflexivity|].
  rewrite Hlatin. apply no_cr_sentinel.
  intros [H|[H|[]]]; discriminate.
Qed.

(** C1 fails on the code.  On the input made of 429496731 bytes [0x01]
    and one byte [0xFF], which has no byte-order mark and is not valid
    UTF-8, the five decodings hold no U+FFFD and the one of highest
    score is that of Windows-1251, with the score -2147483652 of the
    formula: the claim has [extractTXT] return it.  No score is above
    the initial [bestScore] of [int(-1 << 31)], so that
    [decodeBestCyrillic] returns no text, and [extractTXT] returns the
    code points of the raw bytes: it ends with the bytes [C3 BF] of
    U+00FF where the Windows-1251 text ends with [D1 8F], U+044F. *)
Theorem extractTXT_sentinel_divergence :
  let n := Z.to_nat 429496731 in
  let data := sentinel_input n in
  let W := charmap.Windows1251 Tables.x_text in
  (TXT.has_bom 0xFF 0xFE data = false /\
   TXT.has_bom 0xFE 0xFF data = false /\
   utf8.Valid data = false) /\
  (forall c, In c (TXT.candidates Tables.x_text) ->
     strings.ContainsRune (charmap.Decode c data) 0xFFFD = false /\
     TXT.scoreCyrillicText (charmap.Decode c data)
     = score_formula (charmap.Decode c data) /\
     score_formula (charmap.Decode c data)
     <= score_formula (charmap.Decode W data)) /\
  score_formula (charmap.Decode W data) = -2147483652 /\
  charmap.Decode W data = repeat 1 n ++ [0xD1; 0x8F] /\
  string_of_runes data = repeat 1 n ++ [0xC3; 0xBF] /\
  TXT.decodeBestCyrillic Tables.x_text data = ([], false) /\
  TXT.extractTXT Tables.x_text data = (string_of_runes data, None) /\
  string_of_runes data <> crlf_to_lf (charmap.Decode W data).
Proof.
  intros n data W.
  assert (Hn : Z.of_nat n = 429496731) by (apply Z2Nat.id; lia).
  destruct (sentinel_general n) as (H1 & H2 & H3 & H4 & H5 & H6 & H7).
  { rewrite Hn. lia. }
  fold data in H1, H2, H3, H4, H5, H6, H7.
  fold W in H2, H3, H4.
  split; [exact H1|]. split; [exact H2|].
  split; [rewrite H3, Hn; reflexivity|].
  split; [exact H4|]. split; [exact H5|]. split; [exact H6|].
  split; [exact H7|].
  rewrite H5, H4. rewrite crlf_to_lf_no_cr.
  - intros E. apply app_inv_head in E. discriminate.
  - apply no_cr_sentinel. intros [H|[H|[]]]; discriminate.
Qed.

(** ** The PDF adapter *)

(** C4, as the code has it.  In every run of [extractPDF] the calls are
    made one after the other, each after the one before has returned,
    and in this order: the two pipes, the start of the command, the
    write of the whole input to standard input, the closing of standard
    input, the reading of all of standard output, the wait.  The
    reading of standard output thus begins only after the writing of
    the input has returned without error and standard input is closed:
    the two do not overlap. *)
Theorem extractPDF_call_order (os : PDF.oracle) (data : gostring) :
  let tr := snd (PDF.run os (PDF.extractPDF data)) in
  let setup := [PDF.Event PDF.StdinPipe; PDF.Event PDF.StdoutPipe;
                PDF.Event PDF.Start] in
  tr = [PDF.Event PDF.StdinPipe] \/
  tr = [PDF.Event PDF.StdinPipe; PDF.Event PDF.StdoutPipe] \/
  tr = setup \/
  tr = setup ++ [PDF.Event (PDF.StdinWrite data);
                 PDF.Event PDF.StdinClose; PDF.Event PDF.ProcessKill] \/
  (os _ (PDF.StdinWrite data) = None /\
   tr = setup ++ [PDF.Event (PDF.StdinWrite data);
                  PDF.Event PDF.StdinClose;
                  PDF.Event PDF.ReadAllStdout; PDF.Event PDF.Wait]).
Proof.
  cbv zeta. unfold PDF.extractPDF. cbn [PDF.run].
  destruct (os _ PDF.StdinPipe); cbn [PDF.run snd]; [auto|].
  destruct (os _ PDF.StdoutPipe); cbn [PDF.run snd]; [auto|].
  destruct (os _ PDF.Start); cbn [PDF.run snd]; [auto|].
  destruct (os _ (PDF.StdinWrite data)); cbn [PDF.run snd];
    [do 3 right; left; reflexivity|].
  do 4 right. split; [reflexivity|].
  destruct (os _ PDF.ReadAllStdout) as [out [e|]]; cbn [PDF.run snd fst].
  - destruct (os _ PDF.Wait); reflexivity.
  - destruct (os _ PDF.Wait); reflexivity.
Qed.

(** *** The pipes *)

Lemma reachable_trans (capacity : nat) (P : OS.process)
  (s0 s1 s2 : OS.system P) :
  OS.reachable capacity P s0 s1 ->
  OS.reachable capacity P s1 s2 ->
  OS.reachable capacity P s0 s2.
Proof.
  intros H1 H2. induction H2 as [|s s' _ IH Hs]; [exact H1|].
  exact (OS.reach_step _ _ _ _ _ IH Hs).
Qed.

Section Deadlock.

Variable capacity : nat.
Variable K : option (list Z) -> PDF.prog (list Z * option (list Z)).

Lemma repeat_snoc (n : nat) : repeat 0 n ++ [0] = repeat 0 (S n).
Proof. symmetry. apply (repeat_cons n 0). Qed.

Lemma copying_round (k : nat) (d : gostring) :
  (k < capacity)%nat ->
  OS.reachable capacity OS.copier
    (OS.copying K k (0 :: d)) (OS.copying K (S k) d).
Proof.
  intros Hk.
  assert (Hcap : (length (@nil Z) <? capacity)%nat = true)
    by (apply Nat.ltb_lt; simpl; lia).
  assert (Hout : (length (repeat 0%Z k) <? capacity)%nat = true)
    by (rewrite repeat_length; apply Nat.ltb_lt; exact Hk).
  pose (s1 := @OS.mkSystem OS.copier (PDF.Do (PDF.StdinWrite d) K)
                ([] ++ [0]) false (repeat 0 k) [] (OS.Running OS.Idle)).
  pose (s2 := @OS.mkSystem OS.copier (PDF.Do (PDF.StdinWrite d) K)
                [] false (repeat 0 k) [] (OS.Running (OS.Holding 0))).
  apply OS.reach_step with s2;
    [apply OS.reach_step with s1;
     [apply OS.reach_step with (OS.copying K k (0 :: d));
      [apply OS.reach_here|] |] |].
  - left. unfold OS.parent_move, OS.copying.
    cbn [OS.child OS.stdout_pipe OS.parent OS.stdin_pipe OS.stdin_closed
         OS.collected].
    rewrite Hcap. reflexivity.
  - right. reflexivity.
  - right. unfold OS.child_move, s2.
    cbn [OS.child OS.pnext OS.copier OS.stdout_pipe OS.parent
         OS.stdin_pipe OS.stdin_closed OS.collected].
    rewrite Hout, repeat_snoc. reflexivity.
Qed.

Lemma copying_rounds (k : nat) :
  forall j d, (j + k <= capacity)%nat ->
  OS.reachable capacity OS.copier
    (OS.copying K j (repeat 0 k ++ d)) (OS.copying K (j + k) d).
Proof.
  induction k as [|k IH]; intros j d Hk.
  - rewrite Nat.add_0_r. apply OS.reach_here.
  - cbn [repeat app]. eapply reachable_trans.
    + apply copying_round. lia.
    + replace (j + S k)%nat with (S j + k)%nat by lia. apply IH. lia.
Qed.

Lemma copying_to_filling (d : gostring) :
  (0 < capacity)%nat ->
  OS.reachable capacity OS.copier
    (OS.copying K capacity (0 :: d)) (OS.filling capacity K 0 d).
Proof.
  intros Hcap.
  assert (H0 : (length (@nil Z) <? capacity)%nat = true)
    by (apply Nat.ltb_lt; simpl; lia).
  pose (s1 := @OS.mkSystem OS.copier (PDF.Do (PDF.StdinWrite d) K)
                ([] ++ [0]) false (repeat 0 capacity) []
                (OS.Running OS.Idle)).
  apply OS.reach_step with s1; [apply OS.reach_step with
    (OS.copying K capacity (0 :: d)); [apply OS.reach_here|] |].
  - left. unfold OS.parent_move, OS.copying.
    cbn [OS.child OS.stdout_pipe OS.parent OS.stdin_pipe OS.stdin_closed
         OS.collected].
    rewrite H0. reflexivity.
  - right. reflexivity.
Qed.

Lemma filling_step (j : nat) (d : gostring) :
  (j < capacity)%nat ->
  OS.reachable capacity OS.copier
    (OS.filling capacity K j (0 :: d)) (OS.filling capacity K (S j) d).
Proof.
  intros Hj.
  assert (Hin : (length (repeat 0%Z j) <? capacity)%nat = true)
    by (rewrite repeat_length; apply Nat.ltb_lt; exact Hj).
  apply OS.reach_step with (OS.filling capacity K j (0 :: d));
    [apply OS.reach_here|].
  left. unfold OS.parent_move, OS.filling.
  cbn [OS.child OS.stdout_pipe OS.parent OS.stdin_pipe OS.stdin_closed
       OS.collected].
  rewrite Hin, repeat_snoc. reflexivity.
Qed.

Lemma filling_steps (k : nat) :
  forall j d, (j + k <= capacity)%nat ->
  OS.reachable capacity OS.copier
    (OS.filling capacity K j (repeat 0 k ++ d)) (OS.filling capacity K (j + k) d).
Proof.
  induction k as [|k IH]; intros j d Hk.
  - rewrite Nat.add_0_r. apply OS.reach_here.
  - cbn [repeat app]. eapply reachable_trans.
    + apply filling_step. lia.
    + replace (j + S k)%nat with (S j + k)%nat by lia. apply IH. lia.
Qed.

Lemma filling_deadlocked (c : Z) (d : gostring) :
  OS.deadlocked capacity OS.copier (OS.filling capacity K capacity (c :: d)).
Proof.
  assert (Hfull : (length (repeat 0%Z capacity) <? capacity)%nat = false)
    by (rewrite repeat_length; apply Nat.ltb_irrefl).
  split; [|split].
  - unfold OS.parent_move, OS.filling.
    cbn [OS.child OS.stdout_pipe OS.parent OS.stdin_pipe OS.stdin_closed
         OS.collected].
    rewrite Hfull. reflexivity.
  - unfold OS.child_move, OS.filling.
    cbn [OS.child OS.pnext OS.copier OS.stdout_pipe OS.parent
         OS.stdin_pipe OS.stdin_closed OS.collected].
    rewrite Hfull. reflexivity.
  - intros H. exact H.
Qed.

Lemma copying_deadlocks :
  (0 < capacity)%nat ->
  exists s,
    OS.reachable capacity OS.copier
      (OS.copying K 0 (repeat 0 (2 * capacity + 2))) s /\
    OS.deadlocked capacity OS.copier s.
Proof.
  intros Hcap. exists (OS.filling capacity K capacity [0]). split.
  - replace (repeat 0 (2 * capacity + 2))
      with (repeat 0 capacity ++ 0 :: repeat 0 capacity ++ [0]).
    + eapply reachable_trans; [apply (copying_rounds capacity 0); lia|].
      eapply reachable_trans; [apply copying_to_filling; exact Hcap|].
      apply (filling_steps capacity 0). lia.
    + replace (2 * capacity + 2)%nat
        with (capacity + S (capacity + 1))%nat by lia.
      rewrite repeat_app. cbn [repeat]. rewrite repeat_app. reflexivity.
  - apply filling_deadlocked.
Qed.

End Deadlock.

(** With a subprocess that writes its output while input is left to
    read, the order of the calls of [extractPDF] can end in a deadlock:
    for every capacity of the pipes, on an input of twice the capacity
    and two bytes more, a state is reached in which the parent is
    blocked in its write to a full input pipe, having begun no read,
    and the subprocess is blocked in a write to a full output pipe. *)
Theorem extractPDF_can_deadlock (capacity : nat) :
  (0 < capacity)%nat ->
  exists s,
    OS.reachable capacity OS.copier
      (OS.init OS.copier (repeat 0 (2 * capacity + 2))) s /\
    OS.deadlocked capacity OS.copier s.
Proof.
  intros Hcap.
  assert (Hstart : exists K,
    OS.reachable capacity OS.copier
      (OS.init OS.copier (repeat 0 (2 * capacity + 2)))
      (OS.copying K 0 (repeat 0 (2 * capacity + 2)))).
  { eexists.
    eapply OS.reach_step; [eapply OS.reach_step;
      [eapply OS.reach_step; [apply OS.reach_here|] |] |];
      left; reflexivity. }
  destruct Hstart as [K HK].
  destruct (copying_deadlocks capacity K Hcap) as (s & Hs & Hd).
  exists s. split; [|exact Hd].
  exact (reachable_trans _ _ _ _ _ HK Hs).
Qed.

(** C4 as stated fails.  In the run in which every call succeeds, the
    whole input has been written and standard input closed when the
    reading of standard output begins: the two are not overlapped.  And
    with pipes of 65536 bytes and a subprocess that writes its output
    while input is left to read, an input of 131074 bytes leads to a
    deadlock: the parent blocked in its write, before any read, and the
    subprocess blocked in a write to the full output pipe. *)
Lemma extractPDF_sequential_counterexample :
  (let data := bytes_of_string "%PDF-1.7" in
   let os := Sample.os_pdftotext (bytes_of_string "page one") in
   PDF.run os (PDF.extractPDF data)
   = ((bytes_of_string "page one", None),
      [PDF.Event PDF.StdinPipe; PDF.Event PDF.StdoutPipe;
       PDF.Event PDF.Start; PDF.Event (PDF.StdinWrite data);
       PDF.Event PDF.StdinClose; PDF.Event PDF.ReadAllStdout;
       PDF.Event PDF.Wait])) /\
  exists s,
    OS.reachable (Z.to_nat 65536) OS.copier
      (OS.init OS.copier (repeat 0 (2 * Z.to_nat 65536 + 2))) s /\
    OS.deadlocked (Z.to_nat 65536) OS.copier s.
Proof.
  split; [reflexivity|].
  apply (extractPDF_can_deadlock (Z.to_nat 65536)). lia.
Qed.

Lemma schedule_reachable (capacity : nat) (P : OS.process) (fuel : nat) :
  forall s, OS.reachable capacity P s (OS.schedule capacity P fuel s).
Proof.
  induction fuel as [|fuel IH]; intros s; [apply OS.reach_here|].
  cbn [OS.schedule].
  assert (T := reachable_trans capacity P).
  destruct (OS.child_move capacity P s) as [s'|] eqn:Ec.
  - apply T with s'; [|apply IH].
    eapply OS.reach_step; [apply OS.reach_here | right; exact Ec].
  - destruct (OS.parent_move capacity P s) as [s'|] eqn:Ep.
    + apply T with s'; [|apply IH].
      eapply OS.reach_step; [apply OS.reach_here | left; exact Ep].
    + apply OS.reach_here.
Qed.

(** With a subprocess that reads all of its input before it writes, as
    a converter that needs the whole document does, the same order of
    calls goes through with pipes smaller than the input and than the
    output. *)
Example extractPDF_slurper_returns :
  let out := bytes_of_string "twelve bytes" in
  let s := OS.schedule 4 (OS.slurper out) 100
             (OS.init (OS.slurper out) (bytes_of_string "%PDF-1.7 ...")) in
  OS.reachable 4 (OS.slurper out)
    (OS.init (OS.slurper out) (bytes_of_string "%PDF-1.7 ...")) s /\
  OS.parent s = PDF.Ret (out, None).
Proof.
  intros out s. split; [apply schedule_reachable | reflexivity].
Qed.

(** ** The examples of the specification and of the README *)

Example txt_readme_sample :
  TXT.extractTXT Tables.x_text (bytes_of_string "Hello, world!" ++ [10])
  = (bytes_of_string "Hello, world!" ++ [10], None).
Proof. reflexivity. Qed.

Example txt_utf16_le_bom :
  TXT.extractTXT Tables.x_text [0xFF; 0xFE; 0x48; 0x00; 0x69; 0x00]
  = (bytes_of_string "Hi", None).
Proof. reflexivity. Qed.

Example txt_utf16_be_bom :
  TXT.extractTXT Tables.x_text [0xFE; 0xFF; 0x00; 0x48; 0x00; 0x69]
  = (bytes_of_string "Hi", None).
Proof. reflexivity. Qed.

Example txt_utf16_surrogates :
  TXT.extractTXT Tables.x_text [0xFF; 0xFE; 0x3D; 0xD8; 0x00; 0xDE]
  = ([0xF0; 0x9F; 0x98; 0x80], None).
Proof. reflexivity. Qed.

Example rtf_hello_world :
  RTF.extractRTF (bytes_of_string "{\rtf1 Hello\par World}")
  = (bytes_of_string "Hello" ++ [10] ++ bytes_of_string "World", None).
Proof. reflexivity. Qed.

Example rtf_hex_and_symbols :
  RTF.extractRTF (bytes_of_string "{\rtf1 a\~b\_c\-d\{e\}\\ \'41\tab x\*\y z }w}")
  = (bytes_of_string "a b-cd{e}\ A" ++ [9] ++ bytes_of_string "xw", None).
Proof. reflexivity. Qed.

Example dispatch_by_extension :
  let ExtractText :=
    Dispatch.ExtractText Sample.no_unicode_lower
      (Sample.os_pdftotext (bytes_of_string "page one"))
      (Sample.zip_with Sample.two_paragraphs) Tables.x_text in
  ExtractText (bytes_of_string "a.PDF") [] = (bytes_of_string "page one", None)
  /\ ExtractText (bytes_of_string "dir.d/b.docx") []
     = (bytes_of_string "A" ++ [10] ++ bytes_of_string "B" ++ [10], None)
  /\ ExtractText (bytes_of_string "c.Rtf") (bytes_of_string "{\b bold}")
     = (bytes_of_string "bold", None)
  /\ ExtractText (bytes_of_string "d.txt") cp1251_privet
     = ([0xD0; 0x9F; 0xD1; 0x80; 0xD0; 0xB8; 0xD0; 0xB2; 0xD0; 0xB5;
         0xD1; 0x82], None).
Proof. repeat split. Qed.

(** ** Further properties of [extractTXT] *)

(** X1 (extractTXT, lines 327-372): the text that [extractTXT] returns
    never holds a carriage return, whatever the input and whichever of
    its five returns is taken. *)
Theorem extractTXT_no_carriage_return (pkg : charmap.Package)
  (data : gostring) :
  ~ In 13 (fst (TXT.extractTXT pkg data)).
Proof.
  unfold TXT.extractTXT.
  destruct (TXT.has_bom 255 254 data);
    [cbn [fst]; rewrite normalize_newlines_crlf_to_lf; apply crlf_to_lf_free|].
  destruct (TXT.has_bom 254 255 data);
    [cbn [fst]; rewrite normalize_newlines_crlf_to_lf; apply crlf_to_lf_free|].
  destruct (utf8.Valid data);
    [cbn [fst]; rewrite normalize_newlines_crlf_to_lf; apply crlf_to_lf_free|].
  destruct (TXT.decodeBestCyrillic pkg data) as [decoded [|]];
    cbn [fst]; rewrite normalize_newlines_crlf_to_lf; apply crlf_to_lf_free.
Qed.

Lemma unit_of_bytes (u : Z) :
  0 <= u < 65536 ->
  Z.lor (to_uint16 (u mod 256)) (to_uint16 (Z.shiftl (to_uint16 (u / 256)) 8))
  = u.
Proof.
  intros Hu. unfold to_uint16.
  change (2 ^ 16) with 65536.
  rewrite (Z.mod_small (u mod 256)) by divmod.
  rewrite (Z.mod_small (u / 256)) by divmod.
  rewrite shiftl_mul by lia.
  rewrite (Z.mod_small (u / 256 * 2 ^ 8)) by divmod.
  rewrite Z.lor_comm, lor_disjoint by divmod.
  divmod.
Qed.

Lemma units_in_range (rs : list rune) :
  Forall scalar_value rs ->
  Forall (fun u => 0 <= u < 65536) (flat_map utf16_units rs).
Proof.
  induction 1 as [|r rs Hr _ IH]; [constructor|].
  cbn [flat_map]. apply Forall_app. split; [|exact IH].
  unfold utf16_units, scalar_value in *.
  destruct (Z.ltb_spec r 65536).
  - repeat constructor; lia.
  - repeat constructor; divmod.
Qed.

Lemma units_le_bytes (us : list Z) :
  Forall (fun u => 0 <= u < 65536) us ->
  units_le (flat_map (fun u => [u mod 256; u / 256]) us) = us.
Proof.
  induction 1 as [|u us Hu _ IH]; [reflexivity|].
  cbn [flat_map app units_le]. rewrite IH, unit_of_bytes by exact Hu.
  reflexivity.
Qed.

Lemma units_be_bytes (us : list Z) :
  Forall (fun u => 0 <= u < 65536) us ->
  units_be (flat_map (fun u => [u / 256; u mod 256]) us) = us.
Proof.
  induction 1 as [|u us Hu _ IH]; [reflexivity|].
  cbn [flat_map app units_be]. rewrite IH, unit_of_bytes by exact Hu.
  reflexivity.
Qed.

Lemma Decode_units (r : rune) (t : list Z) :
  scalar_value r ->
  utf16.Decode (utf16_units r ++ t) = r :: utf16.Decode t.
Proof.
  intros Hr. unfold utf16_units, scalar_value in *.
  destruct (Z.ltb_spec r 65536) as [Hlt|Hge].
  - cbn [app utf16.Decode]. unfold utf16.surr1, utf16.surr3.
    destruct (Z.ltb_spec r 55296); [reflexivity|].
    destruct (Z.leb_spec 57344 r); [reflexivity|lia].
  - cbn [app utf16.Decode].
    unfold utf16.DecodeRune, utf16.surr1, utf16.surr2, utf16.surr3,
      utf16.surrSelf.
    set (q := (r - 65536) / 1024). set (m := (r - 65536) mod 1024).
    assert (Hq : 0 <= q < 1024) by (subst q; divmod).
    assert (Hm : 0 <= m < 1024) by (subst m; divmod).
    assert (Hr' : r = q * 1024 + m + 65536) by (subst q m; divmod).
    destruct (Z.ltb_spec (55296 + q) 55296); [lia|].
    destruct (Z.leb_spec 57344 (55296 + q)); [lia|].
    cbn [orb].
    destruct (Z.leb_spec 55296 (55296 + q)); [|lia].
    destruct (Z.ltb_spec (55296 + q) 56320); [|lia].
    destruct (Z.leb_spec 56320 (56320 + m)); [|lia].
    destruct (Z.ltb_spec (56320 + m) 57344); [|lia].
    cbn [andb]. f_equal.
    replace (55296 + q - 55296) with q by lia.
    replace (56320 + m - 56320) with m by lia.
    rewrite shiftl_mul by lia.
    rewrite lor_disjoint by lia. change (2 ^ 10) with 1024. lia.
Qed.

Lemma Decode_all_units (rs : list rune) :
  Forall scalar_value rs -> utf16.Decode (flat_map utf16_units rs) = rs.
Proof.
  induction 1 as [|r rs Hr _ IH]; [reflexivity|].
  cbn [flat_map]. rewrite Decode_units, IH by exact Hr. reflexivity.
Qed.

(** X2 (extractTXT, lines 329-350): a text in UTF-16 behind a byte
    order mark, in either byte order, is returned as the UTF-8 encoding
    of the same scalar values (surrogate pairs joined), with its line
    endings normalized. *)
Theorem extractTXT_utf16_round_trip (pkg : charmap.Package)
  (rs : list rune) :
  Forall scalar_value rs ->
  TXT.extractTXT pkg ([0xFF; 0xFE] ++ utf16_le rs)
  = (crlf_to_lf (string_of_runes rs), None) /\
  TXT.extractTXT pkg ([0xFE; 0xFF] ++ utf16_be rs)
  = (crlf_to_lf (string_of_runes rs), None).
Proof.
  intros Hrs. unfold TXT.extractTXT, utf16_le, utf16_be.
  cbn [app TXT.has_bom skipn].
  change ((255 =? 255) && (254 =? 254)) with true.
  change ((254 =? 255) && (255 =? 254)) with false.
  change ((254 =? 254) && (255 =? 255)) with true.
  cbv iota.
  rewrite units_le_bytes, units_be_bytes by (apply units_in_range, Hrs).
  rewrite Decode_all_units by exact Hrs.
  rewrite normalize_newlines_crlf_to_lf. split; reflexivity.
Qed.

Lemma extractTXT_utf16_round_trip_witness :
  let rs := [0x48; 0x1F600; 13; 10; 0x44F] in
  Forall scalar_value rs /\
  TXT.extractTXT Tables.x_text
    [0xFF; 0xFE; 0x48; 0x00; 0x3D; 0xD8; 0x00; 0xDE; 0x0D; 0x00;
     0x0A; 0x00; 0x4F; 0x04]
  = ([0x48; 0xF0; 0x9F; 0x98; 0x80; 0x0A; 0xD1; 0x8F], None) /\
  TXT.extractTXT Tables.x_text
    [0xFE; 0xFF; 0x00; 0x48; 0xD8; 0x3D; 0xDE; 0x00; 0x00; 0x0D;
     0x00; 0x0A; 0x04; 0x4F]
  = ([0x48; 0xF0; 0x9F; 0x98; 0x80; 0x0A; 0xD1; 0x8F], None).
Proof.
  assert (H : Forall scalar_value [0x48; 0x1F600; 13; 10; 0x44F])
    by (repeat constructor; unfold scalar_value; lia).
  split; [exact H|].
  exact (extractTXT_utf16_round_trip Tables.x_text _ H).
Defined.

Lemma units_le_odd (c : Z) (n : nat) :
  forall body, (length body <= n)%nat -> Nat.even (length body) = true ->
  units_le (body ++ [c]) = units_le body.
Proof.
  induction n as [|n IH]; intros body Hlen Hev.
  - destruct body; [reflexivity|simpl in Hlen; lia].
  - destruct body as [|x [|y body]]; [reflexivity|discriminate|].
    cbn [app units_le]. rewrite IH; [reflexivity| |exact Hev].
    simpl in Hlen. lia.
Qed.

Lemma units_be_odd (c : Z) (n : nat) :
  forall body, (length body <= n)%nat -> Nat.even (length body) = true ->
  units_be (body ++ [c]) = units_be body.
Proof.
  induction n as [|n IH]; intros body Hlen Hev.
  - destruct body; [reflexivity|simpl in Hlen; lia].
  - destruct body as [|x [|y body]]; [reflexivity|discriminate|].
    cbn [app units_be]. rewrite IH; [reflexivity| |exact Hev].
    simpl in Hlen. lia.
Qed.

(** X3 (extractTXT, lines 331-334 and 341-344): behind a byte order
    mark, a last byte that has no partner to form a code unit is
    dropped without a trace. *)
Theorem extractTXT_utf16_odd_byte (pkg : charmap.Package)
  (body : gostring) (c : byte) :
  Nat.even (length body) = true ->
  TXT.extractTXT pkg (0xFF :: 0xFE :: body ++ [c])
  = TXT.extractTXT pkg (0xFF :: 0xFE :: body) /\
  TXT.extractTXT pkg (0xFE :: 0xFF :: body ++ [c])
  = TXT.extractTXT pkg (0xFE :: 0xFF :: body).
Proof.
  intros Hev. unfold TXT.extractTXT. cbn [TXT.has_bom skipn].
  change ((255 =? 255) && (254 =? 254)) with true.
  change ((254 =? 255) && (255 =? 254)) with false.
  change ((254 =? 254) && (255 =? 255)) with true.
  cbv iota.
  rewrite (units_le_odd c (length body)), (units_be_odd c (length body))
    by (exact Hev || apply Nat.le_refl).
  split; reflexivity.
Qed.

Lemma extractTXT_utf16_odd_byte_witness :
  TXT.extractTXT Tables.x_text [0xFF; 0xFE; 0x48; 0x00; 0x69; 0x00; 0x21]
  = TXT.extractTXT Tables.x_text [0xFF; 0xFE; 0x48; 0x00; 0x69; 0x00] /\
  TXT.extractTXT Tables.x_text [0xFE; 0xFF; 0x48; 0x00; 0x69; 0x00; 0x21]
  = TXT.extractTXT Tables.x_text [0xFE; 0xFF; 0x48; 0x00; 0x69; 0x00].
Proof.
  exact (extractTXT_utf16_odd_byte Tables.x_text [0x48; 0x00; 0x69; 0x00]
           0x21 eq_refl).
Defined.

(** ** Further properties of [decodeBestCyrillic] and [scoreCyrillicText] *)

Lemma first_best (data : gostring) (cands : list charmap.Charmap) :
  forall t0 s0,
  (fold_left (TXT.try_candidate data) cands (t0, s0) = (t0, s0) /\
   forall c, In c cands -> candidate_score data c <= s0) \/
  (exists pre best post, cands = pre ++ best :: post /\
     fold_left (TXT.try_candidate data) cands (t0, s0)
     = (charmap.Decode best data, candidate_score data best) /\
     s0 < candidate_score data best /\
     (forall c, In c pre ->
        candidate_score data c < candidate_score data best) /\
     (forall c, In c post ->
        candidate_score data c <= candidate_score data best)).
Proof.
  induction cands as [|c cs IH]; intros t0 s0.
  - left. split; [reflexivity|intros c []].
  - assert (Htc : TXT.try_candidate data (t0, s0) c
                   = if candidate_score data c >? s0
                     then (charmap.Decode c data, candidate_score data c)
                     else (t0, s0)) by reflexivity.
    cbn [fold_left]. rewrite Htc.
    destruct (Z.gtb_spec (candidate_score data c) s0) as [Hgt|Hle].
    + destruct (IH (charmap.Decode c data) (candidate_score data c))
        as [[Heq Hall]|(pre & best & post & Hc & Heq & Hlt & Hpre & Hpost)].
      * right. exists [], c, cs. split; [reflexivity|].
        split; [exact Heq|]. split; [lia|].
        split; [intros c' []|exact Hall].
      * right. exists (c :: pre), best, post.
        split; [rewrite Hc; reflexivity|].
        split; [exact Heq|]. split; [lia|].
        split; [|exact Hpost].
        intros c' [<-|Hin]; [exact Hlt|apply Hpre, Hin].
    + destruct (IH t0 s0)
        as [[Heq Hall]|(pre & best & post & Hc & Heq & Hlt & Hpre & Hpost)].
      * left. split; [exact Heq|].
        intros c' [<-|Hin]; [exact Hle|apply Hall, Hin].
      * right. exists (c :: pre), best, post.
        split; [rewrite Hc; reflexivity|].
        split; [exact Heq|]. split; [exact Hlt|].
        split; [|exact Hpost].
        intros c' [<-|Hin]; [lia|apply Hpre, Hin].
Qed.

(** X4 (decodeBestCyrillic, lines 375-410): when [decodeBestCyrillic]
    accepts a text, that text is not empty, holds no U+FFFD, and is the
    decoding under the first of the candidates, in the order
    Windows-1251, KOI8-R, ISO-8859-5, Mac Cyrillic, CP866, that
    reaches the highest score: every earlier candidate scores strictly
    less, no later one scores more, and the score is above [-2^31]. *)
Theorem decodeBestCyrillic_first_best (pkg : charmap.Package)
  (data text : gostring) :
  TXT.decodeBestCyrillic pkg data = (text, true) ->
  text <> [] /\ strings.ContainsRune text 0xFFFD = false /\
  exists pre best post,
    [ charmap.Windows1251 pkg; charmap.KOI8R pkg; charmap.ISO8859_5 pkg;
      charmap.MacintoshCyrillic pkg; charmap.CodePage866 pkg ]
    = pre ++ best :: post /\
    text = charmap.Decode best data /\
    - 2 ^ 31 < candidate_score data best /\
    (forall c, In c pre ->
       candidate_score data c < candidate_score data best) /\
    (forall c, In c post ->
       candidate_score data c <= candidate_score data best).
Proof.
  unfold TXT.decodeBestCyrillic.
  destruct (first_best data (TXT.candidates pkg) [] (- 2 ^ 31))
    as [[Heq _]|(pre & best & post & Hc & Heq & Hlt & Hpre & Hpost)];
    rewrite Heq.
  - discriminate.
  - destruct (charmap.Decode best data) as [|x t] eqn:Hd; [discriminate|].
    destruct (strings.ContainsRune (x :: t) 65533) eqn:Hr; [discriminate|].
    intros H. injection H as <-.
    split; [discriminate|]. split; [exact Hr|].
    exists pre, best, post. rewrite <- Hd.
    repeat split; assumption.
Qed.

Lemma decodeBestCyrillic_first_best_witness :
  let text := [0xD0; 0x9F; 0xD1; 0x80; 0xD0; 0xB8; 0xD0; 0xB2; 0xD0; 0xB5;
               0xD1; 0x82] in
  TXT.decodeBestCyrillic Tables.x_text cp1251_privet = (text, true) /\
  strings.ContainsRune text 0xFFFD = false /\
  exists pre best post,
    TXT.candidates Tables.x_text = pre ++ best :: post /\
    text = charmap.Decode best cp1251_privet /\
    - 2 ^ 31 < candidate_score cp1251_privet best /\
    (forall c, In c pre ->
       candidate_score cp1251_privet c < candidate_score cp1251_privet best)
    /\
    (forall c, In c post ->
       candidate_score cp1251_privet c
       <= candidate_score cp1251_privet best).
Proof.
  assert (H : TXT.decodeBestCyrillic Tables.x_text cp1251_privet
              = ([0xD0; 0x9F; 0xD1; 0x80; 0xD0; 0xB8; 0xD0; 0xB2; 0xD0;
                  0xB5; 0xD1; 0x82], true)) by (vm_compute; reflexivity).
  split; [exact H|].
  exact (proj2 (decodeBestCyrillic_first_best Tables.x_text cp1251_privet
                  _ H)).
Defined.

Lemma classes_disjoint (rs : list rune) :
  count is_cyrillic rs + count is_printable rs + count is_replacement rs
  + count is_control rs <= Z.of_nat (length rs).
Proof.
  induction rs as [|r rs IH]; [unfold count; simpl; lia|].
  rewrite !count_cons. cbn [length]. rewrite Nat2Z.inj_succ.
  assert (H : (if is_cyrillic r then 1 else 0)
              + (if is_printable r then 1 else 0)
              + (if is_replacement r then 1 else 0)
              + (if is_control r then 1 else 0) <= 1).
  { unfold is_cyrillic, is_printable, is_replacement, is_control.
    zcmp; cbn [andb negb]; lia. }
  lia.
Qed.

(** X5 (scoreCyrillicText, lines 412-431): for a text that is not
    empty, the score that the loop computes is
    [3*cyr + ascii - 50*repl - 5*ctrl], each term the number of runes
    of the text in one of four classes; no rune is in two classes, so
    the score lies between [-50] and [3] times the length of the
    text. *)
Theorem scoreCyrillicText_counts (text : gostring) :
  text <> [] -> Z.of_nat (length text) < 2 ^ 56 ->
  let rs := utf8.range text in
  TXT.scoreCyrillicText text
  = 3 * count is_cyrillic rs + count is_printable rs
    - 50 * count is_replacement rs - 5 * count is_control rs /\
  - 50 * Z.of_nat (length text) <= TXT.scoreCyrillicText text
  <= 3 * Z.of_nat (length text).
Proof.
  intros Hne Hlen rs.
  rewrite (scoreCyrillicText_formula text Hne Hlen).
  unfold score_formula. fold rs. split; [reflexivity|].
  pose proof (classes_disjoint rs) as Hd.
  pose proof (range_from_length text 0) as Hl. fold (utf8.range text) in Hl.
  fold rs in Hl.
  pose proof (count_bounds is_cyrillic rs).
  pose proof (count_bounds is_printable rs).
  pose proof (count_bounds is_replacement rs).
  pose proof (count_bounds is_control rs).
  lia.
Qed.

Lemma scoreCyrillicText_counts_witness :
  let text := [0xD0; 0x9F; 0x21; 0x01; 0xFF] in
  TXT.scoreCyrillicText text = 3 * 1 + 1 - 50 * 1 - 5 * 1 /\
  - 50 * 5 <= TXT.scoreCyrillicText text <= 3 * 5.
Proof.
  exact (scoreCyrillicText_counts [0xD0; 0x9F; 0x21; 0x01; 0xFF]
           ltac:(discriminate) ltac:(vm_compute; reflexivity)).
Defined.

(** ** Further properties of the tokenizer of [extractRTF] *)

Lemma loop_enough (fuel : nat) (st : RTF.state) :
  (length (RTF.rest st) <= fuel)%nat -> RTF.loop fuel st = rtf_run st.
Proof.
  intros Hle. unfold rtf_run. rewrite !loop_iter.
  replace fuel
    with (length (RTF.rest st) + (fuel - length (RTF.rest st)))%nat by lia.
  rewrite iter_plus. apply iter_done.
  rewrite <- loop_iter. apply loop_exits, Nat.le_refl.
Qed.

Lemma run_step (st : RTF.state) :
  RTF.rest st <> [] -> rtf_run st = rtf_run (RTF.step st).
Proof.
  intros Hne. pose proof (step_reads st Hne) as Hlt.
  unfold rtf_run at 1.
  destruct (RTF.rest st) as [|c r] eqn:Hr; [congruence|].
  cbn [length RTF.loop]. rewrite Hr.
  apply loop_enough. cbn [length] in Hlt. lia.
Qed.

Lemma run_done (st : RTF.state) : RTF.rest st = [] -> rtf_run st = st.
Proof. intros H. unfold rtf_run. rewrite H. reflexivity. Qed.

Lemma run_cons (c : byte) (r : gostring) (d skip : Z) (b : gostring) :
  rtf_run (RTF.mkState (c :: r) d skip b)
  = rtf_run (RTF.step (RTF.mkState (c :: r) d skip b)).
Proof. apply run_step. discriminate. Qed.

Lemma tokenize_run (data : gostring) :
  RTF.tokenize data = RTF.b (rtf_run (RTF.init data)).
Proof. reflexivity. Qed.

(** *** The depth and the marker *)

Lemma step_invariant (L : Z) (st : RTF.state) :
  L < 2 ^ 63 ->
  0 <= RTF.depth st ->
  RTF.depth st + Z.of_nat (length (RTF.rest st)) <= L ->
  (RTF.skipUntilDepth st = -1 \/
   0 <= RTF.skipUntilDepth st <= RTF.depth st) ->
  0 <= RTF.depth (RTF.step st) /\
  RTF.depth (RTF.step st) + Z.of_nat (length (RTF.rest (RTF.step st))) <= L /\
  (RTF.skipUntilDepth (RTF.step st) = -1 \/
   0 <= RTF.skipUntilDepth (RTF.step st) <= RTF.depth (RTF.step st)).
Proof.
  intros HL Hd Hlen Hs.
  destruct (RTF.rest st) as [|c r] eqn:Hr.
  { rewrite (step_done st Hr), Hr. auto. }
  assert (Hreads := step_reads st ltac:(rewrite Hr; discriminate)).
  rewrite Hr in Hreads. cbn [length] in Hreads, Hlen.
  revert Hreads. unfold RTF.step. rewrite Hr.
  destruct (Z.eqb_spec c 123).
  { cbn [RTF.depth RTF.rest RTF.skipUntilDepth]. intros _.
    rewrite wrap_int_small by lia. lia. }
  destruct (Z.eqb_spec c 125).
  { cbn [RTF.depth RTF.rest RTF.skipUntilDepth]. intros _.
    destruct (Z.gtb_spec (RTF.depth st) 0);
      destruct (Z.geb_spec (RTF.skipUntilDepth st) 0);
      destruct (Z.eqb_spec (RTF.depth st) (RTF.skipUntilDepth st));
      cbn [andb]; lia. }
  destruct (Z.eqb_spec c 92).
  { destruct r as [|sym r1].
    { cbn [RTF.depth RTF.rest RTF.skipUntilDepth length]. lia. }
    destruct (negb (RTF.isLetter sym)).
    - pose proof (control_symbol_marker sym r1 (RTF.depth st)
                    (RTF.skipUntilDepth st) (RTF.b st)) as (H1 & H2 & H3).
      cbv zeta in H1, H2, H3. intros Hreads. rewrite H1.
      split; [lia|]. split; [lia|].
      destruct (Z.le_gt_cases 0 (RTF.skipUntilDepth st)) as [Hs0|Hs0].
      + destruct (H2 Hs0) as [-> _]. lia.
      + destruct (H3 ltac:(lia)) as [->| ->]; lia.
    - pose proof (control_word_marker (sym :: r1) (RTF.depth st)
                    (RTF.skipUntilDepth st) (RTF.b st)) as (H1 & H2 & H3).
      cbv zeta in H1, H2, H3. intros Hreads. rewrite H1.
      split; [lia|]. split; [lia|].
      destruct (Z.le_gt_cases 0 (RTF.skipUntilDepth st)) as [Hs0|Hs0].
      + destruct (H2 Hs0) as [-> _]. lia.
      + destruct (H3 ltac:(lia)) as [->| ->]; lia. }
  destruct ((c =? 13) || (c =? 10));
    cbn [RTF.depth RTF.rest RTF.skipUntilDepth]; intros _; lia.
Qed.

(** X6 (extractRTF, lines 158-178, 204-208, 269-273): along every run
    of the tokenizer the depth is never negative and never exceeds the
    number of bytes read, and the marker is either [-1] or a depth
    between [0] and the current depth: a group that is being skipped
    is still open. *)
Theorem depth_marker_invariant (data : gostring) (n : nat) :
  Z.of_nat (length data) < 2 ^ 63 ->
  let st := RTF.iter n (RTF.init data) in
  0 <= RTF.depth st
  <= Z.of_nat (length data) - Z.of_nat (length (RTF.rest st)) /\
  (RTF.skipUntilDepth st = -1 \/
   0 <= RTF.skipUntilDepth st <= RTF.depth st).
Proof.
  intros HL. cbv zeta.
  enough (H : 0 <= RTF.depth (RTF.iter n (RTF.init data)) /\
              RTF.depth (RTF.iter n (RTF.init data))
              + Z.of_nat (length (RTF.rest (RTF.iter n (RTF.init data))))
              <= Z.of_nat (length data) /\
              (RTF.skipUntilDepth (RTF.iter n (RTF.init data)) = -1 \/
               0 <= RTF.skipUntilDepth (RTF.iter n (RTF.init data))
               <= RTF.depth (RTF.iter n (RTF.init data)))).
  { destruct H as (H1 & H2 & H3). split; [lia|exact H3]. }
  induction n as [|n IH].
  - cbn [RTF.iter RTF.init RTF.depth RTF.rest RTF.skipUntilDepth]. lia.
  - rewrite iter_S. destruct IH as (H1 & H2 & H3).
    apply (step_invariant (Z.of_nat (length data))); assumption.
Qed.

Lemma depth_marker_invariant_witness :
  let data := bytes_of_string "{\fonttbl{\f0 Arial;}}Text" in
  let st := RTF.iter 5 (RTF.init data) in
  RTF.depth st = 2 /\ RTF.skipUntilDepth st = 1 /\
  0 <= RTF.depth st
  <= Z.of_nat (length data) - Z.of_nat (length (RTF.rest st)) /\
  (RTF.skipUntilDepth st = -1 \/
   0 <= RTF.skipUntilDepth st <= RTF.depth st).
Proof.
  split; [reflexivity|]. split; [reflexivity|].
  exact (depth_marker_invariant
           (bytes_of_string "{\fonttbl{\f0 Arial;}}Text") 5
           ltac:(vm_compute; reflexivity)).
Defined.

(** *** Input without a backslash *)

Lemma run_without_backslash (s : gostring) :
  ~ In 92 s ->
  forall d skip b0, skip < 0 ->
  RTF.b (rtf_run (RTF.mkState s d skip b0))
  = b0 ++ filter (fun c => negb ((c =? 123) || (c =? 125)
                                 || (c =? 13) || (c =? 10))) s.
Proof.
  induction s as [|c s IH]; intros Hno d skip b0 Hskip.
  - rewrite run_done by reflexivity. cbn. now rewrite app_nil_r.
  - assert (Hc : c <> 92) by (intros ->; apply Hno; left; reflexivity).
    assert (Hs : ~ In 92 s) by (intros H; apply Hno; right; exact H).
    rewrite run_cons. unfold RTF.step.
    cbn [RTF.rest RTF.depth RTF.skipUntilDepth RTF.b filter].
    destruct (Z.eqb_spec c 123); [cbn [orb negb]; apply IH; assumption|].
    destruct (Z.eqb_spec c 125).
    { cbn [orb negb].
      destruct (Z.geb_spec skip 0); [lia|]. cbn [andb].
      apply IH; assumption. }
    destruct (Z.eqb_spec c 92); [contradiction|].
    cbn [orb].
    destruct ((c =? 13) || (c =? 10)); cbn [negb].
    + apply IH; assumption.
    + rewrite emit_writing by exact Hskip.
      rewrite IH by assumption. now rewrite <- app_assoc.
Qed.

(** X7 (extractRTF, lines 163-178 and 279-289): on an input without
    a backslash the tokenizer writes the input itself without its
    braces, carriage returns and line feeds; nothing is skipped and
    nothing else is added. *)
Theorem tokenize_without_backslash (data : gostring) :
  ~ In 92 data ->
  RTF.tokenize data
  = filter (fun c => negb ((c =? 123) || (c =? 125)
                           || (c =? 13) || (c =? 10))) data.
Proof.
  intros Hno. rewrite tokenize_run. unfold RTF.init.
  rewrite run_without_backslash by (exact Hno || lia). reflexivity.
Qed.

Lemma tokenize_without_backslash_witness :
  RTF.tokenize (bytes_of_string "}a{b" ++ [13; 10] ++ bytes_of_string "c}}")
  = bytes_of_string "abc".
Proof.
  apply (tokenize_without_backslash
           (bytes_of_string "}a{b" ++ [13; 10] ++ bytes_of_string "c}}")).
  vm_compute. intuition discriminate.
Defined.

(** *** What a writer of RTF wrote is read back *)

Lemma special_not_letter (c : byte) :
  is_special c = true -> RTF.isLetter c = false.
Proof.
  unfold is_special, RTF.isLetter.
  destruct (Z.eqb_spec c 92) as [->|]; [reflexivity|].
  destruct (Z.eqb_spec c 123) as [->|]; [reflexivity|].
  destruct (Z.eqb_spec c 125) as [->|]; [reflexivity|discriminate].
Qed.

Lemma run_escape (p : gostring) :
  forall d skip b0 tail, skip < 0 ->
  rtf_run (RTF.mkState (rtf_escape p ++ tail) d skip b0)
  = rtf_run (RTF.mkState tail d skip
               (b0 ++ filter (fun c => negb (is_line_break c)) p)).
Proof.
  induction p as [|c p IH]; intros d skip b0 tail Hskip.
  - cbn. now rewrite app_nil_r.
  - unfold rtf_escape. cbn [flat_map]. fold (rtf_escape p).
    rewrite <- app_assoc.
    destruct (is_special c) eqn:Hsp.
    + cbn [app]. rewrite run_cons. unfold RTF.step.
      cbn [RTF.rest RTF.depth RTF.skipUntilDepth RTF.b].
      change (92 =? 123) with false. change (92 =? 125) with false.
      change (92 =? 92) with true. cbv iota.
      rewrite (special_not_letter c Hsp). cbn [negb].
      unfold RTF.control_symbol. unfold is_special in Hsp. rewrite Hsp.
      rewrite emit_writing by exact Hskip. rewrite IH by exact Hskip.
      cbn [filter].
      assert (Hlb : is_line_break c = false).
      { unfold is_line_break. revert Hsp.
        destruct (Z.eqb_spec c 92) as [->|]; [reflexivity|].
        destruct (Z.eqb_spec c 123) as [->|]; [reflexivity|].
        destruct (Z.eqb_spec c 125) as [->|]; [reflexivity|discriminate]. }
      rewrite Hlb. cbn [negb]. now rewrite <- app_assoc.
    + cbn [app]. rewrite run_cons. unfold RTF.step.
      cbn [RTF.rest RTF.depth RTF.skipUntilDepth RTF.b].
      unfold is_special in Hsp.
      destruct (Z.eqb_spec c 92); [discriminate|].
      destruct (Z.eqb_spec c 123); [discriminate|].
      destruct (Z.eqb_spec c 125); [discriminate|].
      cbn [filter]. change (is_line_break c) with ((c =? 13) || (c =? 10)).
      destruct ((c =? 13) || (c =? 10)); cbn [negb].
      * apply IH, Hskip.
      * rewrite emit_writing by exact Hskip. rewrite IH by exact Hskip.
        now rewrite <- app_assoc.
Qed.

Lemma run_par (d : Z) (b0 tail : gostring) :
  rtf_run (RTF.mkState (bytes_of_string "\par " ++ tail) d (-1) b0)
  = rtf_run (RTF.mkState tail d (-1) (b0 ++ [10])).
Proof.
  rewrite run_step by discriminate. reflexivity.
Qed.

Lemma run_paragraphs (ps : list gostring) :
  forall d b0 tail,
  rtf_run (RTF.mkState
             (flat_map (fun p => rtf_escape p ++ bytes_of_string "\par ") ps
              ++ tail) d (-1) b0)
  = rtf_run (RTF.mkState tail d (-1)
               (b0 ++ flat_map
                        (fun p => filter (fun c => negb (is_line_break c)) p
                                  ++ [10]) ps)).
Proof.
  induction ps as [|p ps IH]; intros d b0 tail.
  - cbn. now rewrite app_nil_r.
  - cbn [flat_map]. rewrite <- !app_assoc.
    rewrite run_escape by lia. rewrite run_par, IH.
    now rewrite <- !app_assoc.
Qed.

(** X8 (extractRTF, lines 163-290): what a writer of RTF wrote is read
    back.  For paragraphs written with a backslash before each [\], [{]
    and [}], each followed by [\par] and a space, in one group that
    starts with [\rtf1], the tokenizer gives the bytes of each
    paragraph, carriage returns and line feeds left out, and a newline
    after each. *)
Theorem tokenize_rtf_document (paragraphs : list gostring) :
  RTF.tokenize (rtf_document paragraphs)
  = flat_map (fun p => filter (fun c => negb (is_line_break c)) p ++ [10])
             paragraphs.
Proof.
  rewrite tokenize_run. unfold rtf_document, RTF.init.
  rewrite run_step by discriminate.
  rewrite run_step by discriminate.
  change (RTF.step (RTF.step (RTF.mkState
            (bytes_of_string "{\rtf1 " ++ ?t) 0 (-1) [])))
    with (RTF.mkState t 1 (-1) []).
  rewrite run_paragraphs. rewrite run_step by discriminate.
  rewrite run_done by reflexivity. reflexivity.
Qed.

Lemma reverseHexTable_digit (n : Z) :
  0 <= n < 16 -> hex.reverseHexTable (hex_digit n) = n.
Proof.
  intros Hn. unfold hex.reverseHexTable, hex_digit.
  destruct (Z.ltb_spec n 10).
  - destruct (Z.leb_spec 48 (48 + n)); [|lia].
    destruct (Z.leb_spec (48 + n) 57); [|lia]. cbn [andb]. lia.
  - destruct (Z.leb_spec 48 (87 + n)); [|lia].
    destruct (Z.leb_spec (87 + n) 57); [lia|]. cbn [andb].
    destruct (Z.leb_spec 97 (87 + n)); [|lia].
    destruct (Z.leb_spec (87 + n) 102); [|lia]. cbn [andb]. lia.
Qed.

Lemma hex_Decode_digits (c : byte) :
  0 <= c < 256 ->
  hex.Decode (hex_digit (c / 16)) (hex_digit (c mod 16)) = Some c.
Proof.
  intros Hc. unfold hex.Decode.
  rewrite !reverseHexTable_digit by divmod.
  destruct (Z.gtb_spec (c / 16) 15); [divmod|].
  destruct (Z.gtb_spec (c mod 16) 15); [divmod|].
  f_equal. rewrite shiftl_mul by lia. unfold to_byte.
  change (2 ^ 4) with 16. change (2 ^ 8) with 256.
  rewrite Z.mod_small by divmod.
  change 16 with (2 ^ 4) at 2. rewrite lor_disjoint by divmod.
  change (2 ^ 4) with 16. divmod.
Qed.

Lemma run_hex (s : gostring) :
  Forall (fun c => 0 <= c < 256) s ->
  forall d skip b0 tail, skip < 0 ->
  rtf_run (RTF.mkState (flat_map hex_escape s ++ tail) d skip b0)
  = rtf_run (RTF.mkState tail d skip (b0 ++ s)).
Proof.
  induction 1 as [|c s Hc _ IH]; intros d skip b0 tail Hskip.
  - cbn. now rewrite app_nil_r.
  - cbn [flat_map]. rewrite <- app_assoc. unfold hex_escape at 1.
    cbn [app]. rewrite run_cons. unfold RTF.step.
    cbn [RTF.rest RTF.depth RTF.skipUntilDepth RTF.b].
    change (92 =? 123) with false. change (92 =? 125) with false.
    change (92 =? 92) with true. cbv iota.
    change (negb (RTF.isLetter 39)) with true. cbv iota.
    unfold RTF.control_symbol.
    change ((39 =? 92) || (39 =? 123) || (39 =? 125)) with false.
    change (39 =? 126) with false. change (39 =? 45) with false.
    change (39 =? 95) with false. change (39 =? 42) with false.
    change (39 =? 39) with true. cbv iota.
    rewrite hex_Decode_digits by exact Hc.
    rewrite emit_writing by exact Hskip. rewrite IH by exact Hskip.
    now rewrite <- app_assoc.
Qed.

(** X9 (extractRTF, lines 209-220): every byte written as the escape
    [\'hh] is read back as that byte, a carriage return, a line feed,
    a brace or a backslash as well as any other. *)
Theorem tokenize_hex_escapes (s : gostring) :
  Forall (fun c => 0 <= c < 256) s ->
  RTF.tokenize (flat_map hex_escape s) = s.
Proof.
  intros Hs. rewrite tokenize_run. unfold RTF.init.
  rewrite <- (app_nil_r (flat_map hex_escape s)).
  rewrite run_hex by (exact Hs || lia).
  rewrite run_done by reflexivity. reflexivity.
Qed.

Lemma tokenize_hex_escapes_witness :
  RTF.tokenize (bytes_of_string "\'0d\'0a\'7b\'5c\'e9\'ff")
  = [0x0D; 0x0A; 0x7B; 0x5C; 0xE9; 0xFF].
Proof.
  apply (tokenize_hex_escapes [0x0D; 0x0A; 0x7B; 0x5C; 0xE9; 0xFF]).
  repeat constructor; lia.
Defined.

(** *** Destination groups *)

Lemma fragment_tail (c : byte) (t : gostring) :
  is_special c = false -> fragment (c :: t) -> fragment t.
Proof.
  intros Hc H. inversion H; subst; try assumption;
    try (cbn in Hc; discriminate).
Qed.

Lemma span_app_stop (p : Z -> bool) (u : gostring) (c : Z) (v : gostring) :
  p c = false ->
  span p (u ++ c :: v) = (fst (span p u), snd (span p u) ++ c :: v).
Proof.
  intros Hc. induction u as [|x u IH].
  - cbn [app span]. rewrite Hc. reflexivity.
  - cbn [app span]. destruct (p x); [|reflexivity].
    rewrite IH. destruct (span p u). reflexivity.
Qed.

Lemma fragment_span (p : Z -> bool) (u : gostring) :
  (forall c, p c = true -> is_special c = false) ->
  fragment u -> fragment (snd (span p u)).
Proof.
  intros Hp. induction u as [|x u IH]; intros Hu; [exact Hu|].
  cbn [span]. destruct (p x) eqn:Hx; [|exact Hu].
  destruct (span p u) eqn:Hs. cbn [snd] in *.
  apply IH. apply (fragment_tail x); [apply Hp, Hx|exact Hu].
Qed.

Lemma span_shorter (p : Z -> bool) (u : gostring) :
  (length (snd (span p u)) <= length u)%nat.
Proof. apply span_length. Qed.

Lemma swallow_app (c : byte) (y : gostring) (tail : gostring) :
  c <> 125 ->
  RTF.swallow c (y ++ 125 :: tail) = RTF.swallow c y ++ 125 :: tail.
Proof.
  intros Hc. destruct y as [|x y].
  - cbn [app RTF.swallow].
    destruct (Z.eqb_spec 125 c); [congruence|reflexivity].
  - cbn [app RTF.swallow]. destruct (x =? c); reflexivity.
Qed.

Lemma fragment_swallow (c : byte) (y : gostring) :
  is_special c = false -> fragment y -> fragment (RTF.swallow c y).
Proof.
  intros Hc Hy. destruct y as [|x y]; [exact Hy|].
  cbn [RTF.swallow]. destruct (Z.eqb_spec x c) as [->|]; [|exact Hy].
  apply (fragment_tail c); assumption.
Qed.

Lemma digit_not_special (c : byte) :
  RTF.isDigit c = true -> is_special c = false.
Proof.
  unfold RTF.isDigit, is_special. intros H.
  destruct (Z.eqb_spec c 92) as [->|]; [discriminate|].
  destruct (Z.eqb_spec c 123) as [->|]; [discriminate|].
  destruct (Z.eqb_spec c 125) as [->|]; [discriminate|reflexivity].
Qed.

(** The numeric argument of a control word that writes nothing is
    made of plain bytes of the fragment that follows the word. *)
Lemma numeric_argument_fragment (w t tail : gostring) (skip : Z)
  (b : gostring) :
  0 <= skip \/ list_eqb w (bytes_of_string "u") = false ->
  fragment t ->
  exists t', fragment t' /\ (length t' <= length t)%nat /\
    RTF.numeric_argument w (t ++ 125 :: tail) skip b
    = (t' ++ 125 :: tail, b).
Proof.
  intros Hq Ht. destruct t as [|c t0].
  - exists []. split; [constructor|]. split; [apply Nat.le_refl|].
    reflexivity.
  - cbn [app RTF.numeric_argument].
    destruct ((c =? 45) || RTF.isDigit c) eqn:Hc.
    2:{ exists (c :: t0). split; [exact Ht|].
        split; [apply Nat.le_refl|reflexivity]. }
    assert (Hsp : is_special c = false).
    { apply orb_true_iff in Hc. destruct Hc as [Hc|Hc].
      - apply Z.eqb_eq in Hc. subst c. reflexivity.
      - apply digit_not_special, Hc. }
    assert (Ht0 : fragment t0) by (apply (fragment_tail c); assumption).
    set (x := if c =? 45 then t0 else c :: t0).
    assert (Hx : fragment x) by (subst x; destruct (c =? 45); assumption).
    assert (Hxl : (length x <= length (c :: t0))%nat).
    { subst x. destruct (c =? 45); cbn [length]; lia. }
    assert (Hxe : (if c =? 45 then t0 ++ 125 :: tail
                   else c :: t0 ++ 125 :: tail) = x ++ 125 :: tail).
    { subst x. destruct (c =? 45); reflexivity. }
    rewrite Hxe. rewrite span_app_stop by reflexivity.
    set (y := snd (span RTF.isDigit x)).
    assert (Hy : fragment y)
      by (apply fragment_span; [apply digit_not_special|exact Hx]).
    assert (Hyl : (length y <= length x)%nat) by apply span_length.
    destruct (list_eqb w (bytes_of_string "u")) eqn:Hw.
    + destruct Hq as [Hq|Hq]; [|discriminate].
      destruct (strconv.Atoi (fst (span RTF.isDigit x))).
      * exists (RTF.swallow 63 y).
        split; [apply fragment_swallow; [reflexivity|exact Hy]|].
        split; [pose proof (swallow_length 63 y); lia|].
        rewrite swallow_app by lia. rewrite emit_skipping by exact Hq.
        reflexivity.
      * exists y. split; [exact Hy|]. split; [lia|reflexivity].
    + exists y. split; [exact Hy|]. split; [lia|reflexivity].
Qed.

(** A control word met while a group is skipped: nothing but input is
    consumed. *)
Lemma control_word_skipping (w t tail : gostring) (d skip : Z)
  (b : gostring) :
  0 <= skip ->
  forallb RTF.isLetter w = true -> hdp RTF.isLetter t = false ->
  fragment t ->
  exists t', fragment t' /\ (length t' <= length t)%nat /\
    RTF.control_word (w ++ t ++ 125 :: tail) d skip b
    = RTF.mkState (t' ++ 125 :: tail) d skip b.
Proof.
  intros Hs Hw Ht Hf. unfold RTF.control_word.
  rewrite span_all;
    [|exact Hw|destruct t; [reflexivity|exact Ht]].
  destruct (numeric_argument_fragment w t tail skip b (or_introl Hs) Hf)
    as (t1 & Hf1 & Hl1 & ->).
  exists (RTF.swallow 32 t1).
  split; [apply fragment_swallow; [reflexivity|exact Hf1]|].
  split; [pose proof (swallow_length 32 t1); lia|].
  rewrite swallow_app by lia. rewrite !emit_skipping by exact Hs.
  destruct (Z.ltb_spec skip 0); [lia|].
  destruct (list_eqb w (bytes_of_string "par")
            || list_eqb w (bytes_of_string "line")); [reflexivity|].
  destruct (list_eqb w (bytes_of_string "tab")); [reflexivity|].
  destruct (RTF.isDestination w); reflexivity.
Qed.

(** A control word that opens a destination: the marker is set to the
    current depth. *)
Lemma control_word_destination (w t tail : gostring) (d : Z)
  (b : gostring) :
  RTF.isDestination w = true ->
  forallb RTF.isLetter w = true -> hdp RTF.isLetter t = false ->
  fragment t ->
  exists t', fragment t' /\ (length t' <= length t)%nat /\
    RTF.control_word (w ++ t ++ 125 :: tail) d (-1) b
    = RTF.mkState (t' ++ 125 :: tail) d d b.
Proof.
  intros Hd Hw Ht Hf. unfold RTF.control_word.
  rewrite span_all;
    [|exact Hw|destruct t; [reflexivity|exact Ht]].
  assert (Hu : list_eqb w (bytes_of_string "u") = false).
  { destruct (list_eqb w (bytes_of_string "u")) eqn:E; [|reflexivity].
    apply list_eqb_eq in E. subst w. discriminate. }
  assert (Hp : list_eqb w (bytes_of_string "par")
               || list_eqb w (bytes_of_string "line") = false).
  { destruct (list_eqb w (bytes_of_string "par")) eqn:E1.
    { apply list_eqb_eq in E1. subst w. discriminate. }
    destruct (list_eqb w (bytes_of_string "line")) eqn:E2; [|reflexivity].
    apply list_eqb_eq in E2. subst w. discriminate. }
  assert (Htab : list_eqb w (bytes_of_string "tab") = false).
  { destruct (list_eqb w (bytes_of_string "tab")) eqn:E; [|reflexivity].
    apply list_eqb_eq in E. subst w. discriminate. }
  destruct (numeric_argument_fragment w t tail (-1) b (or_intror Hu) Hf)
    as (t1 & Hf1 & Hl1 & ->).
  exists (RTF.swallow 32 t1).
  split; [apply fragment_swallow; [reflexivity|exact Hf1]|].
  split; [pose proof (swallow_length 32 t1); lia|].
  rewrite swallow_app by lia. rewrite Hp, Htab, Hd. reflexivity.
Qed.

Lemma control_symbol_skipping (sym : byte) (r1 : gostring) (d skip : Z)
  (b : gostring) :
  0 <= skip -> sym <> 39 ->
  RTF.control_symbol sym r1 d skip b = RTF.mkState r1 d skip b.
Proof.
  intros Hs Hsym. unfold RTF.control_symbol.
  rewrite !emit_skipping by exact Hs.
  destruct (Z.ltb_spec skip 0); [lia|].
  destruct ((sym =? 92) || (sym =? 123) || (sym =? 125)); [reflexivity|].
  destruct (sym =? 126); [reflexivity|].
  destruct (sym =? 45); [reflexivity|].
  destruct (sym =? 95); [reflexivity|].
  destruct (sym =? 42); [reflexivity|].
  destruct (Z.eqb_spec sym 39); [contradiction|reflexivity].
Qed.

(** While a group is skipped, a fragment before a closing brace is
    passed over: the depth, the marker and the builder are as
    before. *)
Lemma skip_fragment :
  forall u, fragment u ->
  forall D S b tail, 0 <= S <= D -> D + Z.of_nat (length u) < 2 ^ 63 ->
  rtf_run (RTF.mkState (u ++ 125 :: tail) D S b)
  = rtf_run (RTF.mkState (125 :: tail) D S b).
Proof.
  intros u. induction u as [u IH] using length_induction.
  intros Hu D S b tail HS HD.
  inversion Hu as [ | c t Hc Ht | sym t Hl Hq Ht | h1 h2 t Ht
                  | w t Hw Hwl Hth Ht | u1 t Hu1 Ht ]; subst u.
  - reflexivity.
  - cbn [app]. rewrite run_cons. unfold RTF.step.
    cbn [RTF.rest RTF.depth RTF.skipUntilDepth RTF.b].
    unfold is_special in Hc.
    destruct (Z.eqb_spec c 123); [rewrite orb_true_r in Hc; discriminate|].
    destruct (Z.eqb_spec c 125); [rewrite orb_true_r in Hc; discriminate|].
    destruct (Z.eqb_spec c 92); [discriminate|].
    rewrite emit_skipping by lia.
    cbn [length] in HD, IH.
    destruct ((c =? 13) || (c =? 10)); apply IH; (exact Ht || lia).
  - cbn [app]. rewrite run_cons. unfold RTF.step.
    cbn [RTF.rest RTF.depth RTF.skipUntilDepth RTF.b].
    change (92 =? 123) with false. change (92 =? 125) with false.
    change (92 =? 92) with true. cbv iota.
    rewrite Hl. cbn [negb].
    rewrite control_symbol_skipping by (lia || exact Hq).
    cbn [length] in HD, IH. apply IH; (exact Ht || lia).
  - cbn [app]. rewrite run_cons. unfold RTF.step.
    cbn [RTF.rest RTF.depth RTF.skipUntilDepth RTF.b].
    change (92 =? 123) with false. change (92 =? 125) with false.
    change (92 =? 92) with true. cbv iota.
    change (negb (RTF.isLetter 39)) with true. cbv iota.
    unfold RTF.control_symbol.
    change ((39 =? 92) || (39 =? 123) || (39 =? 125)) with false.
    change (39 =? 126) with false. change (39 =? 45) with false.
    change (39 =? 95) with false. change (39 =? 42) with false.
    change (39 =? 39) with true. cbv iota. cbn [app].
    cbn [length] in HD, IH.
    destruct (hex.Decode h1 h2); rewrite ?emit_skipping by lia;
      apply IH; (exact Ht || lia).
  - destruct w as [|l w']; [congruence|].
    cbn [forallb] in Hwl. apply andb_true_iff in Hwl.
    destruct Hwl as [Hl Hwl'].
    cbn [app]. rewrite run_cons. unfold RTF.step.
    cbn [RTF.rest RTF.depth RTF.skipUntilDepth RTF.b].
    change (92 =? 123) with false. change (92 =? 125) with false.
    change (92 =? 92) with true. cbv iota.
    rewrite Hl. cbn [negb].
    change (l :: (w' ++ t) ++ 125 :: tail)
      with ((l :: w') ++ t ++ 125 :: tail) || rewrite <- app_assoc.
    destruct (control_word_skipping (l :: w') t tail D S b)
      as (t' & Hf' & Hl' & Heq);
      [lia|cbn [forallb]; rewrite Hl; exact Hwl'|exact Hth|exact Ht|].
    change (l :: w' ++ t ++ 125 :: tail)
      with ((l :: w') ++ t ++ 125 :: tail).
    rewrite Heq.
    cbn [length] in HD, IH. rewrite length_app in HD, IH.
    apply IH; [cbn [length]; lia|exact Hf'|exact HS|cbn [length] in *; lia].
  - cbn [app]. rewrite run_cons. unfold RTF.step.
    cbn [RTF.rest RTF.depth RTF.skipUntilDepth RTF.b].
    change (123 =? 123) with true. cbv iota.
    cbn [length] in HD, IH. rewrite length_app in HD, IH.
    cbn [length] in HD, IH.
    rewrite wrap_int_small by lia.
    rewrite <- app_assoc. cbn [app].
    rewrite (IH u1) by (exact Hu1 || lia).
    rewrite run_cons. unfold RTF.step.
    cbn [RTF.rest RTF.depth RTF.skipUntilDepth RTF.b].
    change (125 =? 123) with false. change (125 =? 125) with true.
    cbv iota.
    destruct (Z.gtb_spec (D + 1) 0); [|lia].
    destruct (Z.eqb_spec (D + 1) S); [lia|].
    rewrite andb_false_r.
    replace (D + 1 - 1) with D by lia.
    apply IH; (exact Ht || lia).
Qed.

Lemma destination_letters (w : gostring) :
  RTF.isDestination w = true ->
  exists l w', w = l :: w' /\ RTF.isLetter l = true /\
               forallb RTF.isLetter w = true.
Proof.
  unfold RTF.isDestination. intros H.
  repeat (apply orb_true_iff in H; destruct H as [H|H]);
    apply list_eqb_eq in H; subst w;
    eexists _, _; (split; [reflexivity|split; reflexivity]).
Qed.

(** X10 (extractRTF, lines 166-178, 204-208, 260-273): a group that
    opens with one of the destination words [\fonttbl], [\colortbl],
    [\stylesheet], [\info], [\pict], [\header], [\footer], or with
    [\*], is dropped as a whole wherever it stands outside a skipped
    group: when its body is a well-formed fragment, with whatever
    groups, control words and escapes inside, the tokenizer goes on
    after its closing brace with the depth, the marker and the text
    written so far as they were before its opening brace. *)
Theorem destination_group_dropped (st : RTF.state)
  (w body tail : gostring) :
  fragment body ->
  RTF.skipUntilDepth st = -1 ->
  0 <= RTF.depth st ->
  RTF.depth st + Z.of_nat (length body) + 1 < 2 ^ 63 ->
  (RTF.isDestination w = true -> hdp RTF.isLetter body = false ->
   RTF.rest st = [123; 92] ++ w ++ body ++ 125 :: tail ->
   rtf_run st
   = rtf_run (RTF.mkState tail (RTF.depth st) (-1) (RTF.b st))) /\
  (RTF.rest st = [123; 92; 42] ++ body ++ 125 :: tail ->
   rtf_run st
   = rtf_run (RTF.mkState tail (RTF.depth st) (-1) (RTF.b st))).
Proof.
  intros Hf Hs Hd HD. destruct st as [r d s b].
  cbn [RTF.rest RTF.depth RTF.skipUntilDepth RTF.b] in *. subst s.
  assert (Hclose : forall t', fragment t' ->
            (length t' <= length body)%nat ->
            rtf_run (RTF.mkState (t' ++ 125 :: tail) (d + 1) (d + 1) b)
            = rtf_run (RTF.mkState tail d (-1) b)).
  { intros t' Hf' Hl'. rewrite skip_fragment by (exact Hf' || lia).
    rewrite run_cons. unfold RTF.step.
    cbn [RTF.rest RTF.depth RTF.skipUntilDepth RTF.b].
    change (125 =? 123) with false. change (125 =? 125) with true.
    cbv iota.
    destruct (Z.gtb_spec (d + 1) 0); [|lia].
    destruct (Z.geb_spec (d + 1) 0); [|lia].
    rewrite Z.eqb_refl. cbn [andb].
    replace (d + 1 - 1) with d by lia. reflexivity. }
  split.
  - intros Hw Hb ->.
    destruct (destination_letters w Hw) as (l & w' & -> & Hl & Hall).
    cbn [app]. rewrite run_cons. unfold RTF.step at 1.
    cbn [RTF.rest RTF.depth RTF.skipUntilDepth RTF.b].
    change (123 =? 123) with true. cbv iota.
    rewrite wrap_int_small by lia.
    rewrite run_cons. unfold RTF.step.
    cbn [RTF.rest RTF.depth RTF.skipUntilDepth RTF.b].
    change (92 =? 123) with false. change (92 =? 125) with false.
    change (92 =? 92) with true. cbv iota.
    rewrite Hl. cbn [negb].
    destruct (control_word_destination (l :: w') body tail (d + 1) b
                Hw Hall Hb Hf) as (t' & Hf' & Hl' & Heq).
    cbn [app] in Heq. rewrite Heq. apply Hclose; assumption.
  - intros ->.
    cbn [app]. rewrite run_cons. unfold RTF.step at 1.
    cbn [RTF.rest RTF.depth RTF.skipUntilDepth RTF.b].
    change (123 =? 123) with true. cbv iota.
    rewrite wrap_int_small by lia.
    rewrite run_cons. unfold RTF.step.
    cbn [RTF.rest RTF.depth RTF.skipUntilDepth RTF.b].
    change (92 =? 123) with false. change (92 =? 125) with false.
    change (92 =? 92) with true. cbv iota.
    change (negb (RTF.isLetter 42)) with true. cbv iota.
    unfold RTF.control_symbol.
    change ((42 =? 92) || (42 =? 123) || (42 =? 125)) with false.
    change (42 =? 126) with false. change (42 =? 45) with false.
    change (42 =? 95) with false. change (42 =? 42) with true.
    change (-1 <? 0) with true. cbv iota.
    apply Hclose; [exact Hf|apply Nat.le_refl].
Qed.

Lemma destination_group_dropped_witness :
  let body := bytes_of_string "{\f0\fswiss Arial;}{\f1 \'c0\{x\};}" in
  let tail := bytes_of_string "Hello}" in
  let st := RTF.mkState
              (bytes_of_string "{\fonttbl" ++ body ++ 125 :: tail)
              1 (-1) (bytes_of_string "A") in
  let st' := RTF.mkState
               (bytes_of_string "{\*" ++ body ++ 125 :: tail)
               1 (-1) (bytes_of_string "A") in
  fragment body /\
  rtf_run st = rtf_run (RTF.mkState tail 1 (-1) (bytes_of_string "A")) /\
  rtf_run st' = rtf_run (RTF.mkState tail 1 (-1) (bytes_of_string "A")) /\
  RTF.b (rtf_run st) = bytes_of_string "AHello" /\
  RTF.extractRTF (bytes_of_string "{\rtf1{\fonttbl{\f0\fswiss Arial;}}Hi}")
  = (bytes_of_string "Hi", None).
Proof.
  assert (Hf : fragment
                 (bytes_of_string "{\f0\fswiss Arial;}{\f1 \'c0\{x\};}")).
  { apply (frag_group (bytes_of_string "\f0\fswiss Arial;")
                      (bytes_of_string "{\f1 \'c0\{x\};}")).
    - apply (frag_word (bytes_of_string "f")
                       (bytes_of_string "0\fswiss Arial;"));
        [discriminate|reflexivity|reflexivity|].
      apply frag_byte; [reflexivity|].
      apply (frag_word (bytes_of_string "fswiss")
                       (bytes_of_string " Arial;"));
        [discriminate|reflexivity|reflexivity|].
      repeat (apply frag_byte; [reflexivity|]). apply frag_nil.
    - apply (frag_group (bytes_of_string "\f1 \'c0\{x\};") []);
        [|apply frag_nil].
      apply (frag_word (bytes_of_string "f")
                       (bytes_of_string "1 \'c0\{x\};"));
        [discriminate|reflexivity|reflexivity|].
      apply frag_byte; [reflexivity|]. apply frag_byte; [reflexivity|].
      apply frag_hex.
      apply frag_symbol; [reflexivity|discriminate|].
      apply frag_byte; [reflexivity|].
      apply frag_symbol; [reflexivity|discriminate|].
      apply frag_byte; [reflexivity|]. apply frag_nil. }
  split; [exact Hf|].
  pose proof (destination_group_dropped
                (RTF.mkState
                   (bytes_of_string "{\fonttbl"
                    ++ bytes_of_string "{\f0\fswiss Arial;}{\f1 \'c0\{x\};}"
                    ++ 125 :: bytes_of_string "Hello}")
                   1 (-1) (bytes_of_string "A"))
                (bytes_of_string "fonttbl") _ (bytes_of_string "Hello}")
                Hf eq_refl ltac:(vm_compute; discriminate)
                ltac:(vm_compute; reflexivity)) as [H1 _].
  pose proof (destination_group_dropped
                (RTF.mkState
                   (bytes_of_string "{\*"
                    ++ bytes_of_string "{\f0\fswiss Arial;}{\f1 \'c0\{x\};}"
                    ++ 125 :: bytes_of_string "Hello}")
                   1 (-1) (bytes_of_string "A"))
                [] _ (bytes_of_string "Hello}")
                Hf eq_refl ltac:(vm_compute; discriminate)
                ltac:(vm_compute; reflexivity)) as [_ H2].
  split; [exact (H1 eq_refl eq_refl eq_refl)|].
  split; [exact (H2 eq_refl)|].
  split; vm_compute; reflexivity.
Defined.

(** ** Further properties of the normalization and of [extractRTF] *)

(** X11 (extractRTF, lines 294-301): the texts that the normalization
    leaves as they are are exactly those without carriage return,
    without two newlines in a row, without two blanks in a row and
    without white space before one of [,.:;!?]. *)
Theorem normalize_fixed_points (s : gostring) :
  RTF.normalize s = s <-> normalized s.
Proof.
  split.
  - intros H. rewrite <- H. apply normalize_normalized.
  - apply normalize_fixes_normalized.
Qed.

Lemma finish_keeps (out : gostring) :
  utf8.ValidString out = true \/
  (TXT.has_bom 0xFF 0xFE out = false /\ TXT.has_bom 0xFE 0xFF out = false) ->
  RTF.finish out = (out, None).
Proof.
  intros H. unfold RTF.finish.
  destruct (utf8.ValidString out); [reflexivity|].
  destruct H as [H|[H1 H2]]; [discriminate|].
  cbn [negb]. destruct out as [|b0 [|b1 bs]]; try reflexivity.
  cbn [TXT.has_bom] in H1, H2. rewrite H1, H2. reflexivity.
Qed.

(** X12 (extractRTF, lines 292-324): unless the text that was written
    is not valid UTF-8 and starts with a byte order mark, [extractRTF]
    returns the normalized text, which holds no carriage return, no two
    newlines in a row, no two blanks in a row and no white space before
    one of [,.:;!?]. *)
Theorem extractRTF_normalized (data : gostring) :
  let out := RTF.normalize (RTF.tokenize data) in
  utf8.ValidString out = true \/
  (TXT.has_bom 0xFF 0xFE out = false /\ TXT.has_bom 0xFE 0xFF out = false) ->
  RTF.extractRTF data = (out, None) /\
  normalized (fst (RTF.extractRTF data)).
Proof.
  intros out H. unfold RTF.extractRTF. fold out.
  rewrite (finish_keeps out H). split; [reflexivity|].
  apply normalize_normalized.
Qed.

Lemma extractRTF_normalized_witness :
  let data := bytes_of_string "{\rtf1 caf\'e9  ,\par\par x}" in
  utf8.ValidString (RTF.normalize (RTF.tokenize data)) = false /\
  RTF.extractRTF data
  = (bytes_of_string "caf" ++ [0xE9] ++ bytes_of_string "," ++ [10]
     ++ bytes_of_string "x", None) /\
  normalized (fst (RTF.extractRTF data)).
Proof.
  split; [vm_compute; reflexivity|].
  exact (extractRTF_normalized
           (bytes_of_string "{\rtf1 caf\'e9  ,\par\par x}")
           (or_intror (conj eq_refl eq_refl))).
Defined.

(** *** The text is never longer than the input *)

Lemma AppendRune_length (r : rune) :
  (length (utf8.AppendRune [] r) <= 4)%nat.
Proof.
  unfold utf8.AppendRune.
  destruct (_ <=? utf8.rune1Max); [cbn; lia|].
  destruct (_ <=? utf8.rune2Max); [cbn; lia|].
  destruct (_ || _); [cbn; lia|].
  destruct (_ <=? utf8.rune3Max); cbn; lia.
Qed.

Lemma span_lengths (p : Z -> bool) (s : gostring) :
  (length (fst (span p s)) + length (snd (span p s)) = length s)%nat.
Proof. apply span_length_sum. Qed.

Lemma Atoi_one_digit (c : byte) (v : Z) :
  RTF.isDigit c = true -> strconv.Atoi [c] = Some v -> 0 <= v <= 9.
Proof.
  unfold RTF.isDigit. intros Hc. unfold strconv.Atoi.
  destruct (Z.eqb_spec c 45); [lia|].
  destruct (Z.eqb_spec c 43); [lia|].
  cbn [forallb fold_left].
  destruct (strconv.isDigit c); [|discriminate]. cbn [andb].
  destruct ((- 2 ^ 63 <=? 0 * 10 + (c - 48)) && (0 * 10 + (c - 48) <? 2 ^ 63));
    [|discriminate].
  intros H. injection H as <-.
  apply andb_true_iff in Hc. destruct Hc as [H1 H2].
  apply Z.leb_le in H1, H2. lia.
Qed.

Lemma Atoi_nonempty (s : gostring) (v : Z) :
  strconv.Atoi s = Some v -> s <> [].
Proof. intros H ->. discriminate. Qed.

Lemma numeric_argument_weight (word r2 : gostring) (skip : Z)
  (b : gostring) :
  let res := RTF.numeric_argument word r2 skip b in
  (list_eqb word (bytes_of_string "u") = false -> snd res = b) /\
  (length (snd res) + length (fst res) <= length b + length r2 + 2)%nat /\
  (length (fst res) <= length r2)%nat.
Proof.
  cbv zeta. split; [|split; [|apply numeric_argument_length]].
  { intros Hu. unfold RTF.numeric_argument.
    destruct r2 as [|c r2']; [reflexivity|].
    destruct ((c =? 45) || RTF.isDigit c); [|reflexivity].
    destruct (span RTF.isDigit _). rewrite Hu. reflexivity. }
  unfold RTF.numeric_argument.
  destruct r2 as [|c r2']; [cbn [fst snd length]; lia|].
  destruct ((c =? 45) || RTF.isDigit c) eqn:Hc; [|cbn [fst snd length]; lia].
  set (x := if c =? 45 then r2' else c :: r2').
  assert (Hx : (length x <= length (c :: r2'))%nat)
    by (subst x; destruct (c =? 45); cbn [length]; lia).
  pose proof (span_length_sum RTF.isDigit x) as Hsum.
  destruct (span RTF.isDigit x) as [numStr r4] eqn:Hsp.
  cbn [fst snd] in Hsum.
  destruct (list_eqb word (bytes_of_string "u"));
    [|cbn [fst snd]; lia].
  destruct (strconv.Atoi numStr) as [v|] eqn:Ha; [|cbn [fst snd]; lia].
  cbn [fst snd].
  pose proof (swallow_length 63 r4) as Hsw.
  unfold RTF.emit. destruct (skip <? 0); [|lia].
  rewrite length_app.
  pose proof (AppendRune_length
                (to_int32 (if c =? 45 then wrap_int (- v) else v))) as H4.
  destruct (Z.eqb_spec c 45) as [->|Hn].
  - subst x. pose proof (Atoi_nonempty _ _ Ha).
    destruct numStr; [congruence|]. cbn [length] in *. lia.
  - subst x. destruct numStr as [|d1 [|d2 ds]].
    + discriminate.
    + rewrite ?(proj2 (Z.eqb_neq c 45) Hn) in Hc. cbn [orb] in Hc.
      assert (d1 = c).
      { cbn [span] in Hsp. rewrite Hc in Hsp.
        destruct (span RTF.isDigit r2'). congruence. }
      subst d1. pose proof (Atoi_one_digit c v Hc Ha) as Hv.
      rewrite AppendRune_1 by (unfold to_int32; change (2 ^ 31) with 2147483648;
                               change (2 ^ 32) with 4294967296; divmod).
      cbn [length] in *. lia.
    + cbn [length] in *. lia.
Qed.

Lemma emit_length (skip : Z) (b bs : gostring) :
  (length (RTF.emit skip b bs) <= length b + length bs)%nat.
Proof.
  unfold RTF.emit. destruct (skip <? 0); [rewrite length_app|]; lia.
Qed.

Lemma control_symbol_weight (sym : byte) (r1 : gostring) (d skip : Z)
  (b : gostring) :
  let st' := RTF.control_symbol sym r1 d skip b in
  (length (RTF.b st') + length (RTF.rest st') <= length b + length r1 + 1)%nat.
Proof.
  cbv zeta. unfold RTF.control_symbol.
  pose proof (fun bs => emit_length skip b bs) as He.
  destruct (_ || _);
    [cbn [RTF.b RTF.rest]; specialize (He [sym]); cbn [length] in He; lia|].
  destruct (sym =? 126);
    [cbn [RTF.b RTF.rest]; specialize (He [32]); cbn [length] in He; lia|].
  destruct (sym =? 45); [cbn [RTF.b RTF.rest]; lia|].
  destruct (sym =? 95);
    [cbn [RTF.b RTF.rest]; specialize (He [45]); cbn [length] in He; lia|].
  destruct (sym =? 42); [cbn [RTF.b RTF.rest]; lia|].
  destruct (sym =? 39); [|cbn [RTF.b RTF.rest]; lia].
  destruct r1 as [|h1 [|h2 r2]]; try (cbn [RTF.b RTF.rest length]; lia).
  destruct (hex.Decode h1 h2) as [v|];
    cbn [RTF.b RTF.rest length];
    [specialize (He [v]); cbn [length] in He; lia|lia].
Qed.

Lemma control_word_weight (l : byte) (r : gostring) (d skip : Z)
  (b : gostring) :
  RTF.isLetter l = true ->
  let st' := RTF.control_word (l :: r) d skip b in
  (length (RTF.b st') + length (RTF.rest st')
   <= length b + length (l :: r) + 1)%nat.
Proof.
  intros Hl. cbv zeta. unfold RTF.control_word.
  pose proof (span_length_sum RTF.isLetter (l :: r)) as Hsum.
  pose proof (span_cons_true RTF.isLetter l r Hl) as Hsp.
  destruct (span RTF.isLetter (l :: r)) as [word r2] eqn:E.
  cbn [fst snd] in Hsum.
  assert (Hwl : (1 <= length word)%nat).
  { injection Hsp as Hw' _. rewrite Hw'. cbn [length]. lia. }
  pose proof (numeric_argument_weight word r2 skip b) as (Hb & Hw & Hr).
  cbv zeta in Hb, Hw, Hr.
  destruct (RTF.numeric_argument word r2 skip b) as [r3 b1].
  cbn [fst snd] in Hb, Hw, Hr.
  pose proof (swallow_length 32 r3) as Hsw.
  pose proof (fun bs => emit_length skip b1 bs) as He.
  assert (Hnu : forall s, s <> bytes_of_string "u" ->
            list_eqb word s = true -> b1 = b).
  { intros s Hs Hws. apply list_eqb_eq in Hws. subst word.
    apply Hb. apply list_eqb_neq. exact Hs. }
  destruct (list_eqb word (bytes_of_string "par")) eqn:E1.
  { cbn [orb RTF.b RTF.rest]. specialize (He [10]). cbn [length] in He.
    rewrite (Hnu (bytes_of_string "par") ltac:(vm_compute; discriminate) E1) in *. cbn [length] in *. lia. }
  destruct (list_eqb word (bytes_of_string "line")) eqn:E2.
  { cbn [orb RTF.b RTF.rest]. specialize (He [10]). cbn [length] in He.
    rewrite (Hnu (bytes_of_string "line") ltac:(vm_compute; discriminate) E2) in *. cbn [length] in *. lia. }
  cbn [orb].
  destruct (list_eqb word (bytes_of_string "tab")) eqn:E3.
  { cbn [RTF.b RTF.rest]. specialize (He [9]). cbn [length] in He.
    rewrite (Hnu (bytes_of_string "tab") ltac:(vm_compute; discriminate) E3) in *. cbn [length] in *. lia. }
  destruct (list_eqb word (bytes_of_string "u")) eqn:E4.
  { apply list_eqb_eq in E4. subst word.
    change (RTF.isDestination (bytes_of_string "u")) with false.
    cbn [RTF.b RTF.rest length] in *. lia. }
  rewrite (Hb eq_refl) in *.
  destruct (RTF.isDestination word); cbn [RTF.b RTF.rest length] in *; lia.
Qed.

Lemma step_weight (st : RTF.state) :
  (length (RTF.b (RTF.step st)) + length (RTF.rest (RTF.step st))
   <= length (RTF.b st) + length (RTF.rest st))%nat.
Proof.
  unfold RTF.step. destruct (RTF.rest st) as [|c r] eqn:Hr;
    [rewrite Hr; cbn [length]; lia|].
  destruct (c =? 123); [cbn [RTF.b RTF.rest length]; lia|].
  destruct (c =? 125); [cbn [RTF.b RTF.rest length]; lia|].
  destruct (c =? 92).
  - destruct r as [|sym r1]; [cbn [RTF.b RTF.rest length]; lia|].
    destruct (RTF.isLetter sym) eqn:Hl; cbn [negb].
    + pose proof (control_word_weight sym r1 (RTF.depth st)
                    (RTF.skipUntilDepth st) (RTF.b st) Hl) as H.
      cbv zeta in H. cbn [length] in *. lia.
    + pose proof (control_symbol_weight sym r1 (RTF.depth st)
                    (RTF.skipUntilDepth st) (RTF.b st)) as H.
      cbv zeta in H. cbn [length] in *. lia.
  - destruct (_ || _); cbn [RTF.b RTF.rest length]; [lia|].
    pose proof (emit_length (RTF.skipUntilDepth st) (RTF.b st) [c]) as H.
    cbn [length] in H. lia.
Qed.

Lemma iter_weight (n : nat) :
  forall st,
  (length (RTF.b (RTF.iter n st)) + length (RTF.rest (RTF.iter n st))
   <= length (RTF.b st) + length (RTF.rest st))%nat.
Proof.
  induction n as [|n IH]; intros st; [cbn; lia|].
  cbn [RTF.iter]. pose proof (IH (RTF.step st)).
  pose proof (step_weight st). lia.
Qed.

Lemma tokenize_length (data : gostring) :
  (length (RTF.tokenize data) <= length data)%nat.
Proof.
  unfold RTF.tokenize. rewrite loop_iter.
  pose proof (iter_weight (length data) (RTF.init data)) as H.
  cbn [RTF.init RTF.b RTF.rest length] in H. lia.
Qed.

Lemma crlf_to_lf_length (s : gostring) :
  (length (crlf_to_lf s) <= length s)%nat.
Proof.
  induction s as [s IH] using length_induction.
  destruct s as [|c t]; [cbn; lia|].
  cbn [crlf_to_lf]. destruct (c =? 13).
  - destruct t as [|c' t'].
    + cbn; lia.
    + destruct (c' =? 10).
      * pose proof (IH t' ltac:(cbn [length]; lia)). cbn [length]. lia.
      * pose proof (IH (c' :: t') ltac:(cbn [length]; lia)).
        cbn [length] in *. lia.
  - pose proof (IH t ltac:(cbn [length]; lia)). cbn [length]. lia.
Qed.

Lemma replace_newlines_length (s : gostring) :
  (length (regexp.ReplaceAllString regexp.reNewlines s) <= length s)%nat.
Proof.
  induction s as [s IH] using length_induction.
  destruct s as [|c t]; [rewrite ReplaceAllString_nil; cbn; lia|].
  rewrite replace_newlines_cons.
  pose proof (span_length regexp.is_newline t) as Hs.
  destruct (_ && _); cbn [length].
  - pose proof (IH (snd (span regexp.is_newline t))
                  ltac:(cbn [length]; lia)). lia.
  - pose proof (IH t ltac:(cbn [length]; lia)). lia.
Qed.

Lemma replace_spaces_length (s : gostring) :
  (length (regexp.ReplaceAllString regexp.reSpaces s) <= length s)%nat.
Proof.
  induction s as [s IH] using length_induction.
  destruct s as [|c t]; [rewrite ReplaceAllString_nil; cbn; lia|].
  rewrite replace_spaces_cons.
  pose proof (span_length regexp.is_blank t) as Hs.
  destruct (_ && _); cbn [length].
  - pose proof (IH (snd (span regexp.is_blank t))
                  ltac:(cbn [length]; lia)). lia.
  - pose proof (IH t ltac:(cbn [length]; lia)). lia.
Qed.

Lemma replace_punct_length (s : gostring) :
  (length (regexp.ReplaceAllString regexp.reSpaceBeforePunct s)
   <= length s)%nat.
Proof.
  induction s as [s IH] using length_induction.
  destruct s as [|c t]; [rewrite ReplaceAllString_nil; cbn; lia|].
  rewrite replace_punct_cons.
  pose proof (span_length regexp.is_space t) as Hs.
  destruct (_ && _); cbn [length].
  - destruct (snd (span regexp.is_space t)) as [|p v].
    + cbn [firstn tl app]. rewrite ReplaceAllString_nil. cbn; lia.
    + cbn [firstn tl app length] in *.
      pose proof (IH v ltac:(cbn [length]; lia)). lia.
  - pose proof (IH t ltac:(cbn [length]; lia)). lia.
Qed.

Lemma normalize_length (s : gostring) :
  (length (RTF.normalize s) <= length s)%nat.
Proof.
  rewrite normalize_unfold.
  pose proof (crlf_to_lf_length s).
  pose proof (replace_newlines_length (crlf_to_lf s)).
  pose proof (replace_spaces_length
                (regexp.ReplaceAllString regexp.reNewlines (crlf_to_lf s))).
  pose proof (replace_punct_length
                (regexp.ReplaceAllString regexp.reSpaces
                   (regexp.ReplaceAllString regexp.reNewlines
                      (crlf_to_lf s)))).
  lia.
Qed.

(** X13 (extractRTF, lines 155-301): the tokenizer never writes more
    bytes than it reads, an escape [\uN] included, and the
    normalization never lengthens a text: unless the re-decoding of
    lines 302-323 applies, the text returned is at most as long as
    the input. *)
Theorem extractRTF_not_longer (data : gostring) :
  (length (RTF.tokenize data) <= length data)%nat /\
  (length (RTF.normalize (RTF.tokenize data)) <= length data)%nat /\
  (utf8.ValidString (RTF.normalize (RTF.tokenize data)) = true ->
   (length (fst (RTF.extractRTF data)) <= length data)%nat).
Proof.
  pose proof (tokenize_length data) as H1.
  pose proof (normalize_length (RTF.tokenize data)) as H2.
  split; [exact H1|]. split; [lia|].
  intros Hv. unfold RTF.extractRTF.
  rewrite finish_keeps by (left; exact Hv). cbn [fst]. lia.
Qed.

(** ** Further properties of [extractDOCX] *)

Lemma walk_well_formed (ts : DOCX.tokens) :
  terminal ts = None ->
  forall stack b txt, snd (DOCX.walk ts stack b txt) = None.
Proof.
  induction ts as [|e|t rest IH]; intros Ht stack b txt.
  - destruct txt; reflexivity.
  - discriminate.
  - cbn [terminal] in Ht. cbn [DOCX.walk].
    destruct txt as [acc|]; destruct t;
      repeat match goal with
             | |- context [if ?c then _ else _] => destruct c
             end; apply IH, Ht.
Qed.

Lemma walk_error_text (ts : DOCX.tokens) :
  forall stack b txt e,
  snd (DOCX.walk ts stack b txt) = Some e ->
  DOCX.walk ts stack b txt = ([], Some e) /\ terminal ts = Some e.
Proof.
  intros stack b txt e H.
  destruct (terminal ts) as [e'|] eqn:Ht.
  - rewrite (walk_malformed ts e' Ht) in *. cbn [snd] in H.
    injection H as ->. split; reflexivity.
  - rewrite (walk_well_formed ts Ht) in H. discriminate.
Qed.

(** X14 (extractDOCX, lines 79-153): [extractDOCX] returns an error in
    exactly four cases, the archive cannot be read, it holds no
    [word/document.xml], that member cannot be opened, or its token
    stream ends with an error other than the end of the input; every
    error comes with the empty text, whatever was read before. *)
Theorem extractDOCX_errors
  (zip_NewReader : gostring -> error + list DOCX.File) (data : gostring) :
  let found files :=
    find (fun f => list_eqb (DOCX.Name_ f)
                     (bytes_of_string "word/document.xml")) files in
  (forall e, snd (DOCX.extractDOCX zip_NewReader data) = Some e ->
     DOCX.extractDOCX zip_NewReader data = ([], Some e) /\
     (zip_NewReader data = inl e \/
      (exists files, zip_NewReader data = inr files /\
         found files = None /\
         e = bytes_of_string "document.xml not found in docx") \/
      (exists files docFile, zip_NewReader data = inr files /\
         found files = Some docFile /\ DOCX.Open docFile = inl e) \/
      (exists files docFile ts, zip_NewReader data = inr files /\
         found files = Some docFile /\ DOCX.Open docFile = inr ts /\
         terminal ts = Some e))) /\
  (snd (DOCX.extractDOCX zip_NewReader data) = None <->
   exists files docFile ts, zip_NewReader data = inr files /\
     found files = Some docFile /\ DOCX.Open docFile = inr ts /\
     terminal ts = None).
Proof.
  cbv zeta. unfold DOCX.extractDOCX.
  destruct (zip_NewReader data) as [err|files].
  { split.
    - intros e H. cbn [snd] in H. injection H as ->.
      split; [reflexivity|]. left. reflexivity.
    - split; [discriminate|]. intros (f & d & ts & H & _). discriminate. }
  destruct (find _ files) as [docFile|] eqn:Hfind.
  2:{ split.
      - intros e H. cbn [snd] in H. injection H as <-.
        split; [reflexivity|]. right. left. exists files.
        repeat split; assumption.
      - split; [discriminate|].
        intros (f & d & ts & H & H' & _). injection H as <-.
        rewrite Hfind in H'. discriminate. }
  destruct (DOCX.Open docFile) as [err|ts] eqn:Hopen.
  { split.
    - intros e H. cbn [snd] in H. injection H as ->.
      split; [reflexivity|]. right. right. left. exists files, docFile.
      repeat split; assumption.
    - split; [discriminate|].
      intros (f & d & ts & H & H' & H'' & _). injection H as <-.
      rewrite Hfind in H'. injection H' as <-. rewrite Hopen in H''.
      discriminate. }
  split.
  - intros e H. destruct (walk_error_text ts [] [] None e H) as [Hw Ht].
    split; [exact Hw|]. right. right. right. exists files, docFile, ts.
    repeat split; assumption.
  - split.
    + intros H. exists files, docFile, ts.
      repeat split; try assumption.
      destruct (terminal ts) as [e|] eqn:Ht; [|reflexivity].
      rewrite (walk_malformed ts e Ht) in H. discriminate.
    + intros (f & d & ts' & H & H' & H'' & Ht). injection H as <-.
      rewrite Hfind in H'. injection H' as <-. rewrite Hopen in H''.
      injection H'' as <-. apply walk_well_formed, Ht.
Qed.

(** X15 (extractDOCX, lines 105-151): the walker looks at the local
    names of the elements only.  Name spaces and attributes, comments,
    processing instructions and directives, and the stack of open
    elements that it maintains have no effect on the result. *)
Theorem extractDOCX_local_names_only (ts : DOCX.tokens)
  (stack stack' : list DOCX.element) (b : gostring)
  (txt : option gostring) :
  DOCX.walk ts stack b txt = DOCX.walk (erase ts) stack' b txt.
Proof.
  revert stack stack' b txt.
  induction ts as [|e|t rest IH]; intros stack stack' b txt.
  - reflexivity.
  - reflexivity.
  - destruct txt as [acc|]; destruct t;
      cbn [DOCX.walk erase erase_token DOCX.Local];
      repeat match goal with
             | |- context [if ?c then _ else _] => destruct c
             end; apply IH.
Qed.

Lemma feed_app (l1 l2 : list DOCX.Token) (k : DOCX.tokens) :
  feed (l1 ++ l2) k = feed l1 (feed l2 k).
Proof. induction l1 as [|t l1 IH]; [reflexivity|]. cbn. now rewrite IH. Qed.

Lemma walk_chunks (chunks : list gostring) :
  forall n' l k stack b acc,
  has_local n' "t" = true ->
  DOCX.walk (feed (map DOCX.CharData chunks ++ DOCX.EndElement n' :: l) k)
            stack b (Some acc)
  = DOCX.walk (feed l k) stack (b ++ acc ++ concat chunks) None.
Proof.
  induction chunks as [|d chunks IH]; intros n' l k stack b acc Hn.
  - cbn [map app feed DOCX.walk concat]. unfold has_local in Hn.
    rewrite Hn. now rewrite app_nil_r.
  - cbn [map app feed DOCX.walk concat]. rewrite IH by exact Hn.
    now rewrite <- app_assoc.
Qed.

Lemma walk_renders (l : list DOCX.Token) (x : gostring) :
  renders l x ->
  forall k stack b, exists stack',
  DOCX.walk (feed l k) stack b None = DOCX.walk k stack' (b ++ x) None.
Proof.
  induction 1 as [ | t l x Ht _ IH
                 | n n' a chunks l x Hn Hn' _ IH
                 | n n' a inner xi l x Hn _ IHi _ IH ];
    intros k stack b.
  - exists stack. cbn [feed]. now rewrite app_nil_r.
  - destruct (IH k stack b) as [stack' Hs]. exists stack'.
    cbn [feed DOCX.walk]. destruct t; try discriminate; exact Hs.
  - cbn [feed DOCX.walk]. unfold has_local in Hn.
    apply list_eqb_eq in Hn. rewrite Hn.
    change (list_eqb (bytes_of_string "t") (bytes_of_string "br"))
      with false.
    change (list_eqb (bytes_of_string "t") (bytes_of_string "tab"))
      with false.
    change (list_eqb (bytes_of_string "t") (bytes_of_string "t"))
      with true. cbv iota.
    rewrite walk_chunks by exact Hn'. cbn [app].
    destruct (IH k (stack ++ [DOCX.mkElement (DOCX.Space n)
                                (bytes_of_string "t")])
                 (b ++ concat chunks)) as [stack' Hs].
    exists stack'. rewrite Hs. now rewrite <- app_assoc.
  - cbn [feed DOCX.walk]. rewrite feed_app. cbn [feed].
    unfold has_local in Hn. rewrite Hn.
    set (stack1 := stack ++ [DOCX.mkElement (DOCX.Space n) (DOCX.Local n)]).
    assert (Hopen : forall K,
              (if list_eqb (DOCX.Local n) (bytes_of_string "br")
               then DOCX.walk K stack1 (b ++ [10]) None
               else if list_eqb (DOCX.Local n) (bytes_of_string "tab")
                    then DOCX.walk K stack1 (b ++ [9]) None
                    else DOCX.walk K stack1 b None)
              = DOCX.walk K stack1 (b ++ open_text n) None).
    { intros K. unfold open_text, has_local.
      destruct (list_eqb (DOCX.Local n) (bytes_of_string "br"));
        [reflexivity|].
      destruct (list_eqb (DOCX.Local n) (bytes_of_string "tab"));
        [reflexivity|]. now rewrite app_nil_r. }
    rewrite Hopen.
    destruct (IHi (DOCX.Tok (DOCX.EndElement n') (feed l k)) stack1
                  (b ++ open_text n)) as [stack2 Hs2].
    rewrite Hs2. cbn [DOCX.walk].
    assert (Hclose : forall K S0 B,
              (if list_eqb (DOCX.Local n') (bytes_of_string "p")
               then DOCX.walk K S0 (B ++ [10]) None
               else DOCX.walk K S0 B None)
              = DOCX.walk K S0 (B ++ close_text n') None).
    { intros K S0 B. unfold close_text, has_local.
      destruct (list_eqb (DOCX.Local n') (bytes_of_string "p"));
        [reflexivity|]. now rewrite app_nil_r. }
    rewrite Hclose.
    destruct (IH k (removelast stack2)
                 (((b ++ open_text n) ++ xi) ++ close_text n'))
      as [stack3 Hs3].
    exists stack3. rewrite Hs3. now rewrite <- !app_assoc.
Qed.

(** X16 (extractDOCX, lines 100-152): for a [word/document.xml] whose
    tokens form well-formed content, with [t] elements that hold
    character data only, the text returned is the character data of
    the [t] elements, a newline for each [br] element, a tab for each
    [tab] element and a newline at the end of each [p] element, in
    document order, and the error is nil. *)
Theorem extractDOCX_renders
  (zip_NewReader : gostring -> error + list DOCX.File)
  (data : gostring) (files : list DOCX.File) (docFile : DOCX.File)
  (l : list DOCX.Token) (x : gostring) :
  zip_NewReader data = inr files ->
  find (fun f => list_eqb (DOCX.Name_ f)
                   (bytes_of_string "word/document.xml")) files
    = Some docFile ->
  DOCX.Open docFile = inr (feed l DOCX.EOF) ->
  renders l x ->
  DOCX.extractDOCX zip_NewReader data = (x, None).
Proof.
  intros Hz Hf Ho Hr. unfold DOCX.extractDOCX. rewrite Hz, Hf, Ho.
  destruct (walk_renders l x Hr DOCX.EOF [] []) as [stack' Hs].
  rewrite Hs. reflexivity.
Qed.

Lemma extractDOCX_renders_witness :
  renders sample_document
    (bytes_of_string "Hello" ++ [9] ++ bytes_of_string "W" ++ [10; 10; 10])
  /\
  DOCX.extractDOCX
    (Sample.zip_with (feed sample_document DOCX.EOF)) (bytes_of_string "PK")
  = (bytes_of_string "Hello" ++ [9] ++ bytes_of_string "W" ++ [10; 10; 10],
     None).
Proof.
  assert (Hrun : renders sample_run
                   (bytes_of_string "Hello" ++ [9] ++ bytes_of_string "W"
                    ++ [10])).
  { apply (renders_text (Sample.w "t") (Sample.w "t") []
             [bytes_of_string "Hello"] _
             ([9] ++ bytes_of_string "W" ++ [10]) eq_refl eq_refl).
    apply (renders_element (Sample.w "tab") (Sample.w "tab") [] [] [] _
             (bytes_of_string "W" ++ [10]) eq_refl renders_nil).
    apply (renders_text (Sample.w "t") (Sample.w "t") []
             [bytes_of_string "W"] _ [10] eq_refl eq_refl).
    apply (renders_element (Sample.w "br") (Sample.w "br") [] [] [] [] []
             eq_refl renders_nil renders_nil). }
  assert (Hps : renders sample_paragraphs
                  (bytes_of_string "Hello" ++ [9] ++ bytes_of_string "W"
                   ++ [10; 10; 10])).
  { apply (renders_element (Sample.w "p") (Sample.w "p") []
             (DOCX.StartElement (Sample.w "r") [] :: sample_run
              ++ [DOCX.EndElement (Sample.w "r")])
             (bytes_of_string "Hello" ++ [9] ++ bytes_of_string "W" ++ [10])
             _ [10] eq_refl).
    - apply (renders_element (Sample.w "r") (Sample.w "r") [] sample_run
               (bytes_of_string "Hello" ++ [9] ++ bytes_of_string "W"
                ++ [10]) [] [] eq_refl Hrun renders_nil).
    - apply renders_other; [reflexivity|].
      apply renders_other; [reflexivity|].
      apply (renders_element (Sample.w "p") (Sample.w "p") [] [] [] [] []
               eq_refl renders_nil renders_nil). }
  assert (Hdoc : renders sample_document
                   (bytes_of_string "Hello" ++ [9] ++ bytes_of_string "W"
                    ++ [10; 10; 10])).
  { apply (renders_element (Sample.w "document") (Sample.w "document") []
             (DOCX.StartElement (Sample.w "body") [] :: sample_paragraphs
              ++ [DOCX.EndElement (Sample.w "body")])
             (bytes_of_string "Hello" ++ [9] ++ bytes_of_string "W"
              ++ [10; 10; 10]) [] [] eq_refl); [|apply renders_nil].
    apply (renders_element (Sample.w "body") (Sample.w "body") []
             sample_paragraphs
             (bytes_of_string "Hello" ++ [9] ++ bytes_of_string "W"
              ++ [10; 10; 10]) [] [] eq_refl Hps renders_nil). }
  split; [exact Hdoc|].
  exact (extractDOCX_renders
           (Sample.zip_with (feed sample_document DOCX.EOF))
           (bytes_of_string "PK") _ _ sample_document _
           eq_refl eq_refl eq_refl Hdoc).
Defined.

(** ** Further properties of [ExtractText] and [extractPDF] *)

Lemma ext_rev_dot (e : gostring) :
  forall acc rest, ~ In 46 e -> ~ In 47 e ->
  filepath.ext_rev (e ++ 46 :: rest) acc = 46 :: rev e ++ acc.
Proof.
  induction e as [|c e IH]; intros acc rest H46 H47.
  - reflexivity.
  - cbn [app filepath.ext_rev].
    destruct (Z.eqb_spec c 47); [exfalso; apply H47; left; auto|].
    destruct (Z.eqb_spec c 46); [exfalso; apply H46; left; auto|].
    rewrite IH
      by (intros H; first [apply H46; right; exact H
                          |apply H47; right; exact H]).
    cbn [rev]. now rewrite <- app_assoc.
Qed.

Lemma Ext_suffix (stem e : gostring) :
  ~ In 46 e -> ~ In 47 e -> filepath.Ext (stem ++ 46 :: e) = 46 :: e.
Proof.
  intros H46 H47. unfold filepath.Ext.
  rewrite rev_app_distr. cbn [rev]. rewrite <- app_assoc. cbn [app].
  rewrite ext_rev_dot by (rewrite <- in_rev; assumption).
  now rewrite rev_involutive, app_nil_r.
Qed.

Lemma ext_rev_no_dot (r : gostring) :
  forall acc, ~ In 46 r ->
  filepath.ext_rev r acc = [] /\
  forall rest, filepath.ext_rev (r ++ 47 :: rest) acc = [].
Proof.
  induction r as [|c r IH]; intros acc H46.
  - split; reflexivity.
  - cbn [app filepath.ext_rev].
    destruct (Z.eqb_spec c 47); [split; reflexivity|].
    destruct (Z.eqb_spec c 46); [exfalso; apply H46; left; auto|].
    apply IH. intros H; apply H46; right; exact H.
Qed.

Lemma Ext_no_dot (dir base : gostring) :
  ~ In 46 base ->
  filepath.Ext base = [] /\ filepath.Ext (dir ++ 47 :: base) = [].
Proof.
  intros H46. unfold filepath.Ext.
  assert (H : ~ In 46 (rev base)) by (rewrite <- in_rev; exact H46).
  split; [apply ext_rev_no_dot, H|].
  rewrite rev_app_distr. cbn [rev]. rewrite <- app_assoc. cbn [app].
  apply ext_rev_no_dot, H.
Qed.

Lemma lower_letters (e t : gostring) :
  ascii_lower e = t -> Forall (fun c => 97 <= c <= 122) t ->
  forallb (fun c => c <? utf8.RuneSelf) e = true /\
  ~ In 46 e /\ ~ In 47 e.
Proof.
  revert t. induction e as [|c e IH]; intros t Ht Hall.
  - repeat split; auto.
  - cbn [ascii_lower map] in Ht. subst t.
    inversion Hall as [|x l Hc Hl]; subst.
    destruct (IH _ eq_refl Hl) as (H1 & H2 & H3).
    cbn [forallb]. rewrite H1. unfold utf8.RuneSelf.
    assert (Hr : 65 <= c <= 122).
    { revert Hc. destruct (Z.leb_spec 65 c); destruct (Z.leb_spec c 90);
        cbn [andb]; lia. }
    destruct (Z.ltb_spec c 128); [|lia].
    split; [reflexivity|]. split; (intros [->|Hin]; [lia|auto]).
Qed.

Lemma ToLower_extension (unicode_ToLower : rune -> rune)
  (stem e t : gostring) :
  ascii_lower e = t -> Forall (fun c => 97 <= c <= 122) t ->
  strings.ToLower unicode_ToLower (filepath.Ext (stem ++ 46 :: e))
  = 46 :: t.
Proof.
  intros Ht Hall. destruct (lower_letters e t Ht Hall) as (H1 & H2 & H3).
  rewrite Ext_suffix by assumption. unfold strings.ToLower.
  cbn [forallb]. rewrite H1. change (46 <? utf8.RuneSelf) with true.
  cbn [andb map]. change ((65 <=? 46) && (46 <=? 90)) with false.
  cbv iota. unfold ascii_lower in Ht. rewrite Ht. reflexivity.
Qed.

(** X17 (ExtractText, lines 23-33): the extension is matched without
    regard to the case of ASCII letters, and once it is one of the four
    known extensions the contents are not looked at: a name that ends
    in a dot and [pdf], [docx], [rtf] or [txt] in any mix of cases is
    handed to the extractor of that type, whatever the bytes of the
    file are. *)
Theorem ExtractText_extension_case
  (unicode_ToLower : rune -> rune) (os : PDF.oracle)
  (zip_NewReader : gostring -> error + list DOCX.File)
  (pkg : charmap.Package) (stem e data : gostring) :
  let ExtractText :=
    Dispatch.ExtractText unicode_ToLower os zip_NewReader pkg in
  (ascii_lower e = bytes_of_string "pdf" ->
   ExtractText (stem ++ [46] ++ e) data = Dispatch.extractPDF os data) /\
  (ascii_lower e = bytes_of_string "docx" ->
   ExtractText (stem ++ [46] ++ e) data
   = Dispatch.extractDOCX zip_NewReader data) /\
  (ascii_lower e = bytes_of_string "rtf" ->
   ExtractText (stem ++ [46] ++ e) data = Dispatch.extractRTF data) /\
  (ascii_lower e = bytes_of_string "txt" ->
   ExtractText (stem ++ [46] ++ e) data = Dispatch.extractTXT pkg data).
Proof.
  cbv zeta. unfold Dispatch.ExtractText. cbn [app].
  repeat split; intros He;
    rewrite (ToLower_extension unicode_ToLower stem e _ He)
      by (apply Forall_forall; intros c Hc; vm_compute in Hc;
          intuition lia);
    reflexivity.
Qed.

Lemma extractTXT_error_nil (pkg : charmap.Package) (data : gostring) :
  snd (TXT.extractTXT pkg data) = None.
Proof.
  unfold TXT.extractTXT.
  destruct (TXT.has_bom 0xFF 0xFE data); [reflexivity|].
  destruct (TXT.has_bom 0xFE 0xFF data); [reflexivity|].
  destruct (utf8.Valid data); [reflexivity|].
  destruct (TXT.decodeBestCyrillic pkg data) as [decoded [|]]; reflexivity.
Qed.

(** X18 (ExtractText, lines 24 and 32-33, with [filepath.Ext]): a name
    whose last path element holds no dot has the empty extension,
    whatever dots its directories hold, and is therefore handed to the
    plain-text extractor, which returns no error. *)
Theorem ExtractText_no_dot
  (unicode_ToLower : rune -> rune) (os : PDF.oracle)
  (zip_NewReader : gostring -> error + list DOCX.File)
  (pkg : charmap.Package) (dir base data : gostring) :
  ~ In 46 base ->
  let ExtractText :=
    Dispatch.ExtractText unicode_ToLower os zip_NewReader pkg in
  ExtractText base data = TXT.extractTXT pkg data /\
  ExtractText (dir ++ [47] ++ base) data = TXT.extractTXT pkg data /\
  snd (ExtractText (dir ++ [47] ++ base) data) = None.
Proof.
  intros H46. cbv zeta. unfold Dispatch.ExtractText. cbn [app].
  destruct (Ext_no_dot dir base H46) as [-> ->].
  repeat split. apply extractTXT_error_nil.
Qed.

Lemma ExtractText_no_dot_witness :
  let ExtractText :=
    Dispatch.ExtractText Sample.no_unicode_lower (Sample.os_pdftotext [])
      Sample.not_a_zip Tables.x_text in
  ExtractText (bytes_of_string "LICENSE") (bytes_of_string "%PDF-1.7")
  = (bytes_of_string "%PDF-1.7", None) /\
  ExtractText (bytes_of_string "docs/v1.2.pdf/LICENSE")
              (bytes_of_string "%PDF-1.7")
  = (bytes_of_string "%PDF-1.7", None).
Proof.
  pose proof (ExtractText_no_dot Sample.no_unicode_lower
                (Sample.os_pdftotext []) Sample.not_a_zip Tables.x_text
                (bytes_of_string "docs/v1.2.pdf") (bytes_of_string "LICENSE")
                (bytes_of_string "%PDF-1.7")
                ltac:(vm_compute; intuition discriminate)) as (H1 & H2 & _).
  split; [exact H1|exact H2].
Defined.

Lemma finish_error_nil (out : gostring) : snd (RTF.finish out) = None.
Proof.
  unfold RTF.finish. destruct (negb _); [|reflexivity].
  destruct out as [|b0 [|b1 bs]]; try reflexivity.
  destruct (_ && _); [reflexivity|]. destruct (_ && _); reflexivity.
Qed.

Lemma extractDOCX_error_text
  (zip_NewReader : gostring -> error + list DOCX.File) (data : gostring)
  (e : error) :
  snd (DOCX.extractDOCX zip_NewReader data) = Some e ->
  fst (DOCX.extractDOCX zip_NewReader data) = [].
Proof.
  unfold DOCX.extractDOCX.
  destruct (zip_NewReader data) as [err|files]; [reflexivity|].
  destruct (find _ files) as [docFile|]; [|reflexivity].
  destruct (DOCX.Open docFile) as [err|ts]; [reflexivity|].
  intros H. destruct (walk_error_text ts [] [] None e H) as [-> _].
  reflexivity.
Qed.

Lemma extractPDF_result (os : PDF.oracle) (data : gostring) :
  fst (PDF.run os (PDF.extractPDF data))
  = match first_error
            [ os _ PDF.StdinPipe; os _ PDF.StdoutPipe; os _ PDF.Start;
              os _ (PDF.StdinWrite data); snd (os _ PDF.ReadAllStdout);
              os _ PDF.Wait ] with
    | Some e => ([], Some e)
    | None => (fst (os _ PDF.ReadAllStdout), None)
    end.
Proof.
  unfold PDF.extractPDF. cbn [PDF.run first_error].
  destruct (os _ PDF.StdinPipe); [reflexivity|].
  cbn [PDF.run]. destruct (os _ PDF.StdoutPipe); [reflexivity|].
  cbn [PDF.run]. destruct (os _ PDF.Start); [reflexivity|].
  cbn [PDF.run]. destruct (os _ (PDF.StdinWrite data)); [reflexivity|].
  cbn [PDF.run]. destruct (os _ PDF.ReadAllStdout) as [out [e|]];
    cbn [snd fst PDF.run]; [reflexivity|].
  destruct (os _ PDF.Wait); reflexivity.
Qed.

(** X19 (extractPDF, lines 49-77): [extractPDF] returns the error of
    the first call that fails, in the order [StdinPipe], [StdoutPipe],
    [Start], [Write], [ReadAll], [Wait], with the empty text; the
    error of [Wait] is lost when [ReadAll] failed.  When no call fails
    it returns what [ReadAll] read, unchanged, and no error. *)
Theorem extractPDF_first_error (os : PDF.oracle) (data : gostring) :
  fst (PDF.run os (PDF.extractPDF data))
  = match first_error
            [ os _ PDF.StdinPipe; os _ PDF.StdoutPipe; os _ PDF.Start;
              os _ (PDF.StdinWrite data); snd (os _ PDF.ReadAllStdout);
              os _ PDF.Wait ] with
    | Some e => ([], Some e)
    | None => (fst (os _ PDF.ReadAllStdout), None)
    end.
Proof. apply extractPDF_result. Qed.

(** X20 (ExtractText, lines 23-47, and the four extractors): an error
    never comes with a text.  Whenever [ExtractText] returns an error,
    the text that it returns is empty, whatever part of the file was
    read before the failure. *)
Theorem ExtractText_error_empty_text
  (unicode_ToLower : rune -> rune) (os : PDF.oracle)
  (zip_NewReader : gostring -> error + list DOCX.File)
  (pkg : charmap.Package) (filename data : gostring) (e : error) :
  snd (Dispatch.ExtractText unicode_ToLower os zip_NewReader pkg
         filename data) = Some e ->
  fst (Dispatch.ExtractText unicode_ToLower os zip_NewReader pkg
         filename data) = [].
Proof.
  assert (Hpdf : snd (Dispatch.extractPDF os data) = Some e ->
                 fst (Dispatch.extractPDF os data) = []).
  { unfold Dispatch.extractPDF. rewrite extractPDF_result.
    destruct (first_error _); [reflexivity|discriminate]. }
  assert (Hdocx := extractDOCX_error_text zip_NewReader data e).
  assert (Hrtf : snd (Dispatch.extractRTF data) = Some e ->
                 fst (Dispatch.extractRTF data) = []).
  { unfold Dispatch.extractRTF, RTF.extractRTF.
    rewrite finish_error_nil. discriminate. }
  assert (Htxt : snd (Dispatch.extractTXT pkg data) = Some e ->
                 fst (Dispatch.extractTXT pkg data) = []).
  { unfold Dispatch.extractTXT. rewrite extractTXT_error_nil.
    discriminate. }
  unfold Dispatch.ExtractText.
  repeat match goal with
         | |- context [if ?c then _ else _] => destruct c; [assumption|]
         end.
  reflexivity.
Qed.

Lemma ExtractText_error_empty_text_witness :
  Dispatch.ExtractText Sample.no_unicode_lower (Sample.os_pdftotext [])
    (Sample.zip_with Sample.cut_off_document) Tables.x_text
    (bytes_of_string "report.docx") (bytes_of_string "PK")
  = ([], Some Sample.xml_error).
Proof.
  pose proof (ExtractText_error_empty_text Sample.no_unicode_lower
                (Sample.os_pdftotext [])
                (Sample.zip_with Sample.cut_off_document) Tables.x_text
                (bytes_of_string "report.docx") (bytes_of_string "PK")
                Sample.xml_error eq_refl) as H.
  apply injective_projections; [exact H|reflexivity].
Defined.

(** ** [extractPDF] with a subprocess that reads all of its input first *)

Lemma extractPDF_points (data : gostring) :
  PDF.extractPDF data
  = PDF.Do PDF.StdinPipe (fun err =>
    match err with
    | Some e => PDF.Ret ([], Some e)
    | None => pdf_after_stdin data
    end).
Proof. reflexivity. Qed.

Lemma phase_cast (capacity : nat) (data out : gostring) (n m : nat)
  (s : OS.system (OS.slurper out)) :
  slurper_phase capacity data out n s -> n = m ->
  slurper_phase capacity data out m s.
Proof. intros H <-. exact H. Qed.

Ltac pdf_move H :=
  unfold OS.parent_move, OS.child_move in H;
  cbn [OS.init OS.parent OS.child OS.stdin_pipe OS.stdin_closed
       OS.stdout_pipe OS.collected OS.pnext OS.pstart OS.slurper
       pdf_after_stdin pdf_after_stdout pdf_after_write pdf_after_read
       PDF.extractPDF snd fst] in H.

(** Every move leads from a phase to the next one. *)
Lemma phase_step (capacity : nat) (data out : gostring) (n : nat)
  (s s' : OS.system (OS.slurper out)) :
  slurper_phase capacity data out n s ->
  OS.step capacity (OS.slurper out) s s' ->
  slurper_phase capacity data out (S n) s'.
Proof.
  intros Hph Hstep.
  destruct Hph as [ | | | consumed pipe d Hcap Hlen | consumed pipe Hlen
                  | consumed pipe Hlen | col so o' Hout Hcap
                  | col so Hout | | ];
    destruct Hstep as [H|H]; pdf_move H; try discriminate H.
  - injection H as <-. apply ph_stdin.
  - injection H as <-. apply ph_stdout.
  - injection H as <-.
    apply (phase_cast _ _ _ _ _ _ (ph_write capacity data out 0 [] data
                                     (Nat.le_0_l _) eq_refl)).
    reflexivity.
  - destruct d as [|c d'].
    + injection H as <-. cbn [length] in Hlen.
      apply (phase_cast _ _ _ _ _ _
               (ph_close capacity data out consumed pipe ltac:(lia))).
      lia.
    + destruct (Nat.ltb_spec (length pipe) capacity) as [Hlt|];
        [|discriminate H].
      injection H as <-. cbn [length] in Hlen.
      assert (Hl : length (pipe ++ [c]) = S (length pipe))
        by (rewrite length_app; cbn [length]; lia).
      apply (phase_cast _ _ _ _ _ _
               (ph_write capacity data out consumed (pipe ++ [c]) d'
                  ltac:(lia) ltac:(lia))).
      lia.
  - destruct pipe as [|c pipe']; [discriminate H|].
    injection H as <-. cbn [length] in Hlen, Hcap.
    apply (phase_cast _ _ _ _ _ _
             (ph_write capacity data out (S consumed) pipe' d
                ltac:(lia) ltac:(lia))).
    cbn [length]. lia.
  - injection H as <-.
    apply (phase_cast _ _ _ _ _ _
             (ph_drain capacity data out consumed pipe Hlen)).
    lia.
  - destruct pipe as [|c pipe']; [discriminate H|].
    injection H as <-. cbn [length] in Hlen.
    apply (phase_cast _ _ _ _ _ _
             (ph_close capacity data out (S consumed) pipe' ltac:(lia))).
    cbn [length]. lia.
  - destruct pipe as [|c pipe'].
    + injection H as <-. cbn [length] in Hlen.
      apply (phase_cast _ _ _ _ _ _
               (ph_emit capacity data out [] [] out eq_refl
                  (Nat.le_0_l _))).
      cbn [length]. lia.
    + injection H as <-. cbn [length] in Hlen.
      apply (phase_cast _ _ _ _ _ _
               (ph_drain capacity data out (S consumed) pipe'
                  ltac:(lia))).
      cbn [length]. lia.
  - destruct so as [|c so']; [discriminate H|].
    injection H as <-. cbn [length] in Hcap.
    assert (Hl : length (col ++ [c]) = S (length col))
      by (rewrite length_app; cbn [length]; lia).
    apply (phase_cast _ _ _ _ _ _
             (ph_emit capacity data out (col ++ [c]) so' o'
                ltac:(rewrite <- app_assoc; exact Hout) ltac:(lia))).
    cbn [length]. lia.
  - destruct o' as [|c o''].
    + injection H as <-. rewrite app_nil_r in Hout.
      apply (phase_cast _ _ _ _ _ _
               (ph_exited capacity data out col so Hout)).
      lia.
    + destruct (Nat.ltb_spec (length so) capacity) as [Hlt|];
        [|discriminate H].
      injection H as <-.
      assert (Hl : length (so ++ [c]) = S (length so))
        by (rewrite length_app; cbn [length]; lia).
      apply (phase_cast _ _ _ _ _ _
               (ph_emit capacity data out col (so ++ [c]) o''
                  ltac:(rewrite <- app_assoc; exact Hout) ltac:(lia))).
      lia.
  - destruct so as [|c so'].
    + injection H as <-. rewrite app_nil_r in Hout. subst col.
      apply (phase_cast _ _ _ _ _ _ (ph_wait capacity data out)).
      cbn [length]. lia.
    + injection H as <-.
      assert (Hl : length (col ++ [c]) = S (length col))
        by (rewrite length_app; cbn [length]; lia).
      apply (phase_cast _ _ _ _ _ _
               (ph_exited capacity data out (col ++ [c]) so'
                  ltac:(rewrite <- app_assoc; exact Hout))).
      cbn [length]. lia.
  - injection H as <-.
    apply (phase_cast _ _ _ _ _ _ (ph_return capacity data out)).
    lia.
Qed.

Lemma phase_reachable (capacity : nat) (data out : gostring) (n : nat)
  (s : OS.system (OS.slurper out)) :
  reachable_in capacity (OS.slurper out) (OS.init (OS.slurper out) data)
    n s ->
  slurper_phase capacity data out n s.
Proof.
  induction 1 as [|n s s' _ IH Hs]; [apply ph_init|].
  exact (phase_step _ _ _ _ _ _ IH Hs).
Qed.

Lemma phase_bound (capacity : nat) (data out : gostring) (n : nat)
  (s : OS.system (OS.slurper out)) :
  slurper_phase capacity data out n s ->
  (n <= 9 + 2 * length data + 2 * length out)%nat /\
  (OS.returned (OS.slurper out) s ->
   OS.parent s = PDF.Ret (out, None) /\
   n = (9 + 2 * length data + 2 * length out)%nat).
Proof.
  intros Hph.
  destruct Hph as [ | | | consumed pipe d Hcap Hlen | consumed pipe Hlen
                  | consumed pipe Hlen | col so o' Hout Hcap
                  | col so Hout | | ];
    (split; [|try (intros []); try (split; reflexivity)]);
    try lia.
  - apply (f_equal (@length Z)) in Hout. rewrite !length_app in Hout. lia.
  - apply (f_equal (@length Z)) in Hout. rewrite !length_app in Hout. lia.
Qed.

Lemma phase_progress (capacity : nat) (data out : gostring) (n : nat)
  (s : OS.system (OS.slurper out)) :
  (0 < capacity)%nat ->
  slurper_phase capacity data out n s ->
  ~ OS.returned (OS.slurper out) s ->
  exists s', OS.step capacity (OS.slurper out) s s'.
Proof.
  intros Hpos Hph Hnot.
  destruct Hph as [ | | | consumed pipe d Hcap Hlen | consumed pipe Hlen
                  | consumed pipe Hlen | col so o' Hout Hcap
                  | col so Hout | | ].
  - eexists. left. reflexivity.
  - eexists. left. reflexivity.
  - eexists. left. reflexivity.
  - destruct d as [|c d'].
    + eexists. left. reflexivity.
    + destruct (Nat.ltb_spec (length pipe) capacity) as [Hlt|Hge].
      * eexists. left. unfold OS.parent_move.
        cbn [OS.parent OS.child OS.stdin_pipe].
        rewrite (proj2 (Nat.ltb_lt _ _) Hlt). reflexivity.
      * destruct pipe as [|x pipe']; [cbn [length] in Hge; lia|].
        eexists. right. reflexivity.
  - eexists. left. reflexivity.
  - destruct pipe as [|x pipe']; eexists; right; reflexivity.
  - destruct so as [|x so'].
    + destruct o' as [|c o''].
      * eexists. right. reflexivity.
      * eexists. right. unfold OS.child_move.
        cbn [OS.child OS.pnext OS.slurper OS.stdout_pipe length].
        rewrite (proj2 (Nat.ltb_lt _ _) Hpos). reflexivity.
    + eexists. left. reflexivity.
  - destruct so as [|x so']; eexists; left; reflexivity.
  - eexists. left. reflexivity.
  - exfalso. apply Hnot. exact I.
Qed.

(** X21 (extractPDF, lines 49-77, in the model of the pipes): with a
    subprocess that reads its standard input to the end before it
    writes its output, as a converter that needs the whole document
    does, the calls made one after the other are enough.  Whatever
    the sizes of the input and of the output, for every capacity of
    the pipes of at least one byte and under every interleaving of
    the moves of the two processes, a run is never stuck before
    [extractPDF] has returned, it has at most
    [9 + 2*len(data) + 2*len(out)] moves, and [extractPDF] returns
    the whole output of the subprocess and no error. *)
Theorem extractPDF_slurper_total (capacity : nat) (data out : gostring)
  (n : nat) (s : OS.system (OS.slurper out)) :
  (0 < capacity)%nat ->
  reachable_in capacity (OS.slurper out) (OS.init (OS.slurper out) data)
    n s ->
  (n <= 9 + 2 * length data + 2 * length out)%nat /\
  (OS.returned (OS.slurper out) s ->
   OS.parent s = PDF.Ret (out, None) /\
   n = (9 + 2 * length data + 2 * length out)%nat) /\
  (~ OS.returned (OS.slurper out) s ->
   exists s', OS.step capacity (OS.slurper out) s s').
Proof.
  intros Hpos Hr. apply phase_reachable in Hr.
  destruct (phase_bound _ _ _ _ _ Hr) as [Hb Hret].
  split; [exact Hb|]. split; [exact Hret|].
  apply (phase_progress _ _ _ _ _ Hpos Hr).
Qed.

Lemma extractPDF_slurper_total_witness :
  let out := bytes_of_string "page one" in
  let data := bytes_of_string "%PDF-1.7" in
  let s1 := @OS.mkSystem (OS.slurper out) (pdf_after_stdin data)
              [] false [] [] OS.NotStarted in
  reachable_in 1 (OS.slurper out) (OS.init (OS.slurper out) data) 1 s1 /\
  (1 <= 9 + 2 * length data + 2 * length out)%nat /\
  exists s', OS.step 1 (OS.slurper out) s1 s'.
Proof.
  assert (Hr : reachable_in 1 (OS.slurper (bytes_of_string "page one"))
                 (OS.init (OS.slurper (bytes_of_string "page one"))
                    (bytes_of_string "%PDF-1.7")) 1
                 (@OS.mkSystem (OS.slurper (bytes_of_string "page one"))
                    (pdf_after_stdin (bytes_of_string "%PDF-1.7"))
                    [] false [] [] OS.NotStarted)).
  { apply reach_in_S
      with (s := OS.init (OS.slurper (bytes_of_string "page one"))
                   (bytes_of_string "%PDF-1.7"));
      [apply reach_in_0|].
    left. reflexivity. }
  split; [exact Hr|].
  pose proof (extractPDF_slurper_total 1 (bytes_of_string "%PDF-1.7")
                (bytes_of_string "page one") 1 _ (le_n 1) Hr)
    as (Hb & _ & Hp).
  split; [exact Hb|]. apply Hp. intros H. exact H.
Defined.

(** ** The legacy path of [extractTXT] *)

(** X22 (extractTXT, lines 357-371, with decodeBestCyrillic): for an
    input without byte order mark that is not valid UTF-8 there are
    two outcomes.  Either some candidate scores above [-2^31]: then
    the first candidate of highest score decides, and the text is its
    decoding, or the text made of the code points of the raw bytes
    when that decoding holds U+FFFD.  Or no candidate scores above
    [-2^31]: then the text is made of the code points of the raw
    bytes.  In both the line endings are normalized and the error is
    nil. *)
Theorem extractTXT_legacy_path (pkg : charmap.Package) (data : gostring) :
  TXT.has_bom 0xFF 0xFE data = false ->
  TXT.has_bom 0xFE 0xFF data = false ->
  utf8.Valid data = false ->
  let candidates :=
    [ charmap.Windows1251 pkg; charmap.KOI8R pkg; charmap.ISO8859_5 pkg;
      charmap.MacintoshCyrillic pkg; charmap.CodePage866 pkg ] in
  (exists pre best post,
     candidates = pre ++ best :: post /\
     - 2 ^ 31 < candidate_score data best /\
     (forall c, In c pre ->
        candidate_score data c < candidate_score data best) /\
     (forall c, In c post ->
        candidate_score data c <= candidate_score data best) /\
     TXT.extractTXT pkg data
     = (crlf_to_lf
          (if strings.ContainsRune (charmap.Decode best data) 0xFFFD
           then string_of_runes data
           else charmap.Decode best data), None)) \/
  ((forall c, In c candidates -> candidate_score data c <= - 2 ^ 31) /\
   TXT.extractTXT pkg data = (crlf_to_lf (string_of_runes data), None)).
Proof.
  intros Hle Hbe Hv. cbv zeta.
  unfold TXT.extractTXT. rewrite Hle, Hbe, Hv.
  unfold TXT.decodeBestCyrillic.
  destruct (first_best data (TXT.candidates pkg) [] (- 2 ^ 31))
    as [[Heq Hall]|(pre & best & post & Hc & Heq & Hlt & Hpre & Hpost)];
    rewrite Heq.
  - right. split; [exact Hall|].
    rewrite normalize_newlines_crlf_to_lf. reflexivity.
  - left. exists pre, best, post.
    split; [exact Hc|]. split; [exact Hlt|]. split; [exact Hpre|].
    split; [exact Hpost|].
    pose proof (Decode_nonempty best data (valid_nonempty data Hv)) as Hne.
    destruct (charmap.Decode best data) as [|x t]; [congruence|].
    destruct (strings.ContainsRune (x :: t) 65533);
      rewrite normalize_newlines_crlf_to_lf; reflexivity.
Qed.

Lemma extractTXT_legacy_path_witness :
  let W := charmap.Windows1251 Tables.x_text in
  candidate_score cp1251_privet W = 18 /\
  ((exists pre best post,
     TXT.candidates Tables.x_text = pre ++ best :: post /\
     - 2 ^ 31 < candidate_score cp1251_privet best /\
     (forall c, In c pre ->
        candidate_score cp1251_privet c
        < candidate_score cp1251_privet best) /\
     (forall c, In c post ->
        candidate_score cp1251_privet c
        <= candidate_score cp1251_privet best) /\
     TXT.extractTXT Tables.x_text cp1251_privet
     = (crlf_to_lf
          (if strings.ContainsRune (charmap.Decode best cp1251_privet)
                0xFFFD
           then string_of_runes cp1251_privet
           else charmap.Decode best cp1251_privet), None)) \/
  ((forall c, In c (TXT.candidates Tables.x_text) ->
      candidate_score cp1251_privet c <= - 2 ^ 31) /\
   TXT.extractTXT Tables.x_text cp1251_privet
   = (crlf_to_lf (string_of_runes cp1251_privet), None))).
Proof.
  split; [vm_compute; reflexivity|].
  exact (extractTXT_legacy_path Tables.x_text cp1251_privet
           eq_refl eq_refl eq_refl).
Defined.

(** ** The text of [extractTXT] is valid UTF-8 *)

Lemma valid_from_ascii (c : byte) (t : gostring) :
  c < 0x80 -> utf8.valid_from 0 (c :: t) = utf8.valid_from 0 t.
Proof.
  intros Hc. cbn [utf8.valid_from]. unfold utf8.RuneSelf.
  destruct (Z.ltb_spec c 128); [reflexivity|lia].
Qed.

Ltac lead_cases c :=
  unfold lead, utf8.first;
  destruct (Z.ltb_spec c 128); [lia|];
  destruct (Z.ltb_spec c 194);
  [|destruct (Z.ltb_spec c 224);
    [|destruct (Z.eqb_spec c 224);
      [|destruct (Z.ltb_spec c 237);
        [|destruct (Z.eqb_spec c 237);
          [|destruct (Z.ltb_spec c 240);
            [|destruct (Z.eqb_spec c 240);
              [|destruct (Z.ltb_spec c 244);
                [|destruct (Z.eqb_spec c 244)]]]]]]]].

Ltac between_cases :=
  unfold between, utf8.locb, utf8.hicb;
  repeat match goal with
         | |- context [?x <? ?y] => destruct (Z.ltb_spec x y)
         | |- context [?x <=? ?y] => destruct (Z.leb_spec x y)
         end;
  cbn [andb orb]; try reflexivity; try lia.

Lemma valid_from_head (c : byte) (t : gostring) :
  0x80 <= c ->
  utf8.valid_from 0 (c :: t)
  = match head_ok c t with
    | Some k => utf8.valid_from k t
    | None => false
    end.
Proof.
  intros Hc. cbn [utf8.valid_from]. unfold utf8.RuneSelf, head_ok.
  destruct (Z.ltb_spec c 128) as [|_]; [lia|].
  lead_cases c; cbv zeta;
    try reflexivity;
    match goal with
    | |- context [Z.land ?x 7] =>
      let v := eval vm_compute in (Z.land x 7) in
      change (Z.land x 7) with v
    end;
    match goal with
    | |- context [utf8.acceptRanges ?x] =>
      let v := eval vm_compute in (utf8.acceptRanges x) in
      change (utf8.acceptRanges x) with v
    end;
    match goal with
    | |- context [?x =? utf8.xx] =>
      let v := eval vm_compute in (x =? utf8.xx) in
      change (x =? utf8.xx) with v
    end;
    cbv iota; cbn [fst snd];
    destruct t as [|c1 [|c2 [|c3 t']]];
    cbn [length nth]; try reflexivity;
    repeat match goal with
           | |- context [Z.of_nat ?n <? ?k] =>
             destruct (Z.ltb_spec (Z.of_nat n) k); [try lia|try lia]
           end;
    try reflexivity;
    repeat match goal with
           | |- context [Z.pos ?p =? Z.pos ?q] =>
             let v := eval vm_compute in (Z.pos p =? Z.pos q) in
             change (Z.pos p =? Z.pos q) with v
           end;
    cbv iota; try reflexivity;
    between_cases.
Qed.

Lemma head_ok_same (c : byte) (t t' : gostring) (k : nat) :
  head_ok c t = Some k -> firstn k t' = firstn k t ->
  head_ok c t' = Some k.
Proof.
  unfold head_ok. destruct (lead c) as [[[k0 lo] hi]|]; [|discriminate].
  destruct k0 as [|[|[|[|k0]]]]; try discriminate;
    destruct t as [|c1 [|c2 [|c3 t]]]; try discriminate;
    match goal with
    | |- (if ?b then _ else _) = _ -> _ => destruct b eqn:Hb; [|discriminate]
    end;
    intros H; injection H as <-;
    destruct t' as [|d1 [|d2 [|d3 t']]]; cbn [firstn]; intros Hf;
    try discriminate Hf; injection Hf as Hf; subst; rewrite Hb; reflexivity.
Qed.

Lemma head_ok_cont (c : byte) (t : gostring) (k : nat) :
  head_ok c t = Some k ->
  (k <= length t)%nat /\ Forall (fun x => 0x80 <= x) (firstn k t).
Proof.
  unfold head_ok, lead.
  repeat match goal with
         | |- context [if ?x <? ?y then _ else _] => destruct (x <? y)
         | |- context [if ?x =? ?y then _ else _] => destruct (x =? y)
         end; try discriminate;
    destruct t as [|c1 [|c2 [|c3 t]]]; try discriminate;
    match goal with
    | |- (if ?b then _ else _) = _ -> _ => destruct b eqn:Hb; [|discriminate]
    end;
    intros H; injection H as <-;
    unfold between in Hb;
    repeat match type of Hb with
           | _ && _ = true => apply andb_true_iff in Hb;
                              let H1 := fresh "Hb" in destruct Hb as [Hb H1]
           end;
    repeat match goal with
           | H : (_ <=? _) = true |- _ => apply Z.leb_le in H
           | H : _ && _ = true |- _ =>
             apply andb_true_iff in H;
             let H1 := fresh "Hb" in destruct H as [H H1]
           end;
    (split; [cbn [length]; lia|cbn [firstn]; repeat constructor; lia]).
Qed.

Lemma crlf_firstn (k : nat) :
  forall t, (k <= length t)%nat ->
  Forall (fun x => 0x80 <= x) (firstn k t) ->
  crlf_to_lf t = firstn k t ++ crlf_to_lf (skipn k t).
Proof.
  induction k as [|k IH]; intros t Hk Hc; [reflexivity|].
  destruct t as [|c t]; [cbn [length] in Hk; lia|].
  cbn [firstn skipn] in *. inversion Hc as [|x l Hx Hl]; subst.
  cbn [crlf_to_lf app]. destruct (Z.eqb_spec c 13); [lia|].
  rewrite <- IH; [reflexivity|cbn [length] in Hk; lia|exact Hl].
Qed.

Lemma firstn_firstn_app (k : nat) (u v : gostring) :
  firstn k (firstn k u ++ v) = firstn k u \/ (length u < k)%nat.
Proof.
  destruct (Nat.le_gt_cases k (length u)) as [Hle|Hgt]; [left|right; lia].
  rewrite firstn_app, firstn_firstn, Nat.min_id.
  rewrite length_firstn, Nat.min_l by exact Hle.
  rewrite Nat.sub_diag. cbn [firstn]. apply app_nil_r.
Qed.

(** The normalization of line endings keeps valid UTF-8 valid. *)
Lemma valid_from_crlf :
  forall s k, (k <= length s)%nat ->
  Forall (fun x => 0x80 <= x) (firstn k s) ->
  utf8.valid_from k s = true ->
  utf8.valid_from k (crlf_to_lf s) = true.
Proof.
  intros s. induction s as [s IH] using length_induction.
  intros k Hk Hc Hv. destruct s as [|c t]; [destruct k; exact Hv|].
  destruct k as [|k].
  - destruct (Z.lt_ge_cases c 128) as [Hlt|Hge].
    + rewrite valid_from_ascii in Hv by exact Hlt.
      cbn [crlf_to_lf]. destruct (Z.eqb_spec c 13).
      * rewrite valid_from_ascii by lia.
        destruct t as [|c' t'].
        -- reflexivity.
        -- destruct (Z.eqb_spec c' 10).
           ++ rewrite valid_from_ascii in Hv by lia.
              apply IH; [cbn [length]; lia|apply Nat.le_0_l|constructor
                        |exact Hv].
           ++ apply IH; [cbn [length]; lia|apply Nat.le_0_l|constructor
                        |exact Hv].
      * rewrite valid_from_ascii by exact Hlt.
        apply IH; [cbn [length]; lia|apply Nat.le_0_l|constructor|exact Hv].
    + rewrite valid_from_head in Hv by lia.
      destruct (head_ok c t) as [k|] eqn:Hh; [|discriminate].
      destruct (head_ok_cont c t k Hh) as [Hkl Hkc].
      cbn [crlf_to_lf]. destruct (Z.eqb_spec c 13); [lia|].
      rewrite valid_from_head by lia.
      rewrite (head_ok_same c t (crlf_to_lf t) k Hh).
      * apply IH; [cbn [length]; lia|exact Hkl|exact Hkc|exact Hv].
      * rewrite (crlf_firstn k t Hkl Hkc).
        destruct (firstn_firstn_app k t (crlf_to_lf (skipn k t)));
          [assumption|lia].
  - cbn [firstn] in Hc. inversion Hc as [|x l Hx Hl]; subst.
    cbn [crlf_to_lf]. destruct (Z.eqb_spec c 13); [lia|].
    cbn [utf8.valid_from] in *.
    apply IH; [cbn [length]; lia|cbn [length] in Hk; lia|exact Hl|exact Hv].
Qed.

Lemma Valid_crlf (s : gostring) :
  utf8.Valid s = true -> utf8.Valid (crlf_to_lf s) = true.
Proof.
  apply valid_from_crlf; [apply Nat.le_0_l|constructor].
Qed.

(** Valid UTF-8 followed by valid UTF-8 is valid UTF-8. *)
Lemma valid_from_app (v : gostring) :
  utf8.valid_from 0 v = true ->
  forall u k, (k <= length u)%nat ->
  utf8.valid_from k u = true -> utf8.valid_from k (u ++ v) = true.
Proof.
  intros Hv u. induction u as [u IH] using length_induction.
  intros k Hk Hu. destruct u as [|c t].
  - destruct k; [exact Hv|cbn [length] in Hk; lia].
  - cbn [app]. destruct k as [|k].
    + destruct (Z.lt_ge_cases c 128) as [Hlt|Hge].
      * rewrite valid_from_ascii in * by exact Hlt.
        apply IH; [cbn [length]; lia|apply Nat.le_0_l|exact Hu].
      * rewrite valid_from_head in * by lia.
        destruct (head_ok c t) as [k|] eqn:Hh; [|discriminate].
        destruct (head_ok_cont c t k Hh) as [Hkl Hkc].
        rewrite (head_ok_same c t (t ++ v) k Hh).
        -- apply IH; [cbn [length]; lia|exact Hkl|exact Hu].
        -- rewrite firstn_app.
           replace (k - length t)%nat with 0%nat by lia.
           cbn [firstn]. apply app_nil_r.
    + cbn [utf8.valid_from] in *.
      apply IH; [cbn [length]; lia|cbn [length] in Hk; lia|exact Hu].
Qed.

Lemma Valid_app (u v : gostring) :
  utf8.Valid u = true -> utf8.Valid v = true -> utf8.Valid (u ++ v) = true.
Proof.
  intros Hu Hv. apply valid_from_app; [exact Hv|apply Nat.le_0_l|exact Hu].
Qed.

Lemma head_ok_2 (a b : Z) (rest : gostring) :
  2 <= a < 32 -> 0 <= b < 64 ->
  head_ok (192 + a) (128 + b :: rest) = Some 1%nat.
Proof.
  intros Ha Hb. unfold head_ok, lead.
  destruct (Z.ltb_spec (192 + a) 194); [lia|].
  destruct (Z.ltb_spec (192 + a) 224); [|lia].
  unfold between.
  destruct (Z.leb_spec 128 (128 + b)); [|lia].
  destruct (Z.leb_spec (128 + b) 191); [|lia]. reflexivity.
Qed.

Lemma head_ok_3 (a b c : Z) (rest : gostring) :
  0 <= a < 16 -> 0 <= b < 64 -> 0 <= c < 64 ->
  (a = 0 -> 32 <= b) -> (a = 13 -> b < 32) ->
  head_ok (224 + a) (128 + b :: 128 + c :: rest) = Some 2%nat.
Proof.
  intros Ha Hb Hc H0 H13. unfold head_ok, lead.
  destruct (Z.ltb_spec (224 + a) 194); [lia|].
  destruct (Z.ltb_spec (224 + a) 224); [lia|].
  destruct (Z.eqb_spec (224 + a) 224);
    [|destruct (Z.ltb_spec (224 + a) 237);
      [|destruct (Z.eqb_spec (224 + a) 237);
        [|destruct (Z.ltb_spec (224 + a) 240); [|lia]]]];
    unfold between;
    repeat match goal with
           | |- context [?x <=? ?y] => destruct (Z.leb_spec x y); try lia
           end; reflexivity.
Qed.

Lemma head_ok_4 (a b c d : Z) (rest : gostring) :
  0 <= a < 5 -> 0 <= b < 64 -> 0 <= c < 64 -> 0 <= d < 64 ->
  (a = 0 -> 16 <= b) -> (a = 4 -> b < 16) ->
  head_ok (240 + a) (128 + b :: 128 + c :: 128 + d :: rest) = Some 3%nat.
Proof.
  intros Ha Hb Hc Hd H0 H4. unfold head_ok, lead.
  destruct (Z.ltb_spec (240 + a) 194); [lia|].
  destruct (Z.ltb_spec (240 + a) 224); [lia|].
  destruct (Z.eqb_spec (240 + a) 224); [lia|].
  destruct (Z.ltb_spec (240 + a) 237); [lia|].
  destruct (Z.eqb_spec (240 + a) 237); [lia|].
  destruct (Z.ltb_spec (240 + a) 240); [lia|].
  destruct (Z.eqb_spec (240 + a) 240);
    [|destruct (Z.ltb_spec (240 + a) 244);
      [|destruct (Z.eqb_spec (240 + a) 244); [|lia]]];
    unfold between;
    repeat match goal with
           | |- context [?x <=? ?y] => destruct (Z.leb_spec x y); try lia
           end; reflexivity.
Qed.

(** The encoding of a scalar value is valid UTF-8. *)
Lemma Valid_AppendRune (n : Z) :
  scalar_value n -> utf8.Valid (utf8.AppendRune [] n) = true.
Proof.
  intros Hn. unfold scalar_value in Hn. unfold utf8.Valid.
  destruct (Z.lt_ge_cases n 128) as [H1|H1].
  { rewrite AppendRune_1 by lia. rewrite valid_from_ascii by lia.
    reflexivity. }
  destruct (Z.lt_ge_cases n 2048) as [H2|H2].
  { rewrite AppendRune_2 by lia. rewrite valid_from_head by divmod.
    rewrite head_ok_2 by divmod. reflexivity. }
  destruct (Z.le_gt_cases n 65535) as [H3|H3].
  { rewrite AppendRune_3 by lia. rewrite valid_from_head by divmod.
    rewrite head_ok_3 by divmod. reflexivity. }
  rewrite AppendRune_4 by lia. rewrite valid_from_head by divmod.
  rewrite head_ok_4 by divmod. reflexivity.
Qed.

Lemma string_of_runes_cons (r : rune) (rs : list rune) :
  string_of_runes (r :: rs) = utf8.AppendRune [] r ++ string_of_runes rs.
Proof.
  change (r :: rs) with ([r] ++ rs). rewrite string_of_runes_app.
  reflexivity.
Qed.

Lemma Valid_string_of_runes (rs : list rune) :
  Forall scalar_value rs -> utf8.Valid (string_of_runes rs) = true.
Proof.
  induction 1 as [|r rs Hr _ IH]; [reflexivity|].
  rewrite string_of_runes_cons. apply Valid_app; [|exact IH].
  apply Valid_AppendRune, Hr.
Qed.

Lemma Decode_scalar (us : list Z) :
  Forall (fun u => 0 <= u < 65536) us ->
  Forall scalar_value (utf16.Decode us).
Proof.
  induction us as [us IH] using length_induction. intros Hus.
  destruct us as [|r t]; [constructor|].
  inversion Hus as [|x l Hr Ht]; subst.
  cbn [utf16.Decode]. unfold utf16.surr1, utf16.surr2, utf16.surr3.
  destruct (Z.ltb_spec r 55296).
  { cbn [orb]. constructor; [unfold scalar_value; lia|].
    apply IH; [cbn [length]; lia|exact Ht]. }
  destruct (Z.leb_spec 57344 r).
  { cbn [orb]. constructor; [unfold scalar_value; lia|].
    apply IH; [cbn [length]; lia|exact Ht]. }
  cbn [orb].
  assert (Hrepl : scalar_value utf16.replacementChar)
    by (unfold scalar_value, utf16.replacementChar; lia).
  destruct t as [|r2 t2].
  { constructor; [exact Hrepl|constructor]. }
  inversion Ht as [|x l Hr2 Ht2]; subst.
  destruct ((55296 <=? r) && (r <? 56320) && (56320 <=? r2) && (r2 <? 57344))
    eqn:Hpair.
  - constructor; [|apply IH; [cbn [length]; lia|exact Ht2]].
    unfold utf16.DecodeRune, utf16.surr1, utf16.surr2, utf16.surr3,
      utf16.surrSelf. rewrite Hpair.
    repeat (apply andb_true_iff in Hpair; destruct Hpair as [Hpair ?]).
    repeat match goal with
           | H : (_ <=? _) = true |- _ => apply Z.leb_le in H
           | H : (_ <? _) = true |- _ => apply Z.ltb_lt in H
           end.
    rewrite shiftl_mul by lia. rewrite lor_disjoint by lia.
    change (2 ^ 10) with 1024. unfold scalar_value. lia.
  - constructor; [exact Hrepl|].
    apply IH; [cbn [length]; lia|exact Ht].
Qed.

Lemma units_le_range (s : gostring) :
  Forall (fun c => 0 <= c < 256) s ->
  Forall (fun u => 0 <= u < 65536) (units_le s).
Proof.
  induction s as [s IH] using length_induction. intros Hs.
  destruct s as [|lo [|hi t]]; try constructor.
  - inversion Hs as [|x l Hlo Hs']; subst.
    inversion Hs' as [|x l Hhi Ht]; subst.
    unfold to_uint16. change (2 ^ 16) with 65536.
    rewrite (Z.mod_small lo), (Z.mod_small hi) by lia.
    rewrite shiftl_mul by lia. rewrite (Z.mod_small (hi * 2 ^ 8)) by lia.
    rewrite Z.lor_comm, lor_disjoint by lia. lia.
  - inversion Hs as [|x l Hlo Hs']; subst.
    inversion Hs' as [|x l Hhi Ht]; subst.
    apply IH; [cbn [length]; lia|exact Ht].
Qed.

Lemma units_be_range (s : gostring) :
  Forall (fun c => 0 <= c < 256) s ->
  Forall (fun u => 0 <= u < 65536) (units_be s).
Proof.
  induction s as [s IH] using length_induction. intros Hs.
  destruct s as [|hi [|lo t]]; try constructor.
  - inversion Hs as [|x l Hhi Hs']; subst.
    inversion Hs' as [|x l Hlo Ht]; subst.
    unfold to_uint16. change (2 ^ 16) with 65536.
    rewrite (Z.mod_small lo), (Z.mod_small hi) by lia.
    rewrite shiftl_mul by lia. rewrite (Z.mod_small (hi * 2 ^ 8)) by lia.
    rewrite Z.lor_comm, lor_disjoint by lia. lia.
  - inversion Hs as [|x l Hhi Hs']; subst.
    inversion Hs' as [|x l Hlo Ht]; subst.
    apply IH; [cbn [length]; lia|exact Ht].
Qed.

Lemma Forall_skipn_bytes (P : Z -> Prop) (n : nat) (s : gostring) :
  Forall P s -> Forall P (skipn n s).
Proof.
  revert s. induction n as [|n IH]; intros s Hs; [exact Hs|].
  destruct s; [constructor|]. cbn [skipn]. inversion Hs; subst.
  apply IH. assumption.
Qed.

(** ** The legacy path of [extractTXT] never gives U+FFFD *)

Lemma decode_invalid_lead (c : byte) (t : gostring) :
  utf8.first c = utf8.xx ->
  utf8.DecodeRuneInString (c :: t) = (utf8.RuneError, 1%nat).
Proof.
  intros Hx. unfold utf8.DecodeRuneInString. rewrite Hx.
  change (utf8.xx >=? utf8.as_) with true. cbv iota zeta.
  change (Z.shiftr (to_int32 (Z.shiftl utf8.xx 31)) 31) with (-1).
  change (Z.lnot (-1)) with 0. rewrite Z.land_0_r.
  reflexivity.
Qed.

Ltac ground_consts :=
  repeat match goal with
         | |- context [Z.land (Z.pos ?p) 7] =>
           let v := eval vm_compute in (Z.land (Z.pos p) 7) in
           change (Z.land (Z.pos p) 7) with v
         | |- context [utf8.acceptRanges ?x] =>
           let v := eval vm_compute in (utf8.acceptRanges x) in
           change (utf8.acceptRanges x) with v
         | |- context [Z.pos ?p >=? Z.pos ?q] =>
           let v := eval vm_compute in (Z.pos p >=? Z.pos q) in
           change (Z.pos p >=? Z.pos q) with v
         | |- context [Z.pos ?p <=? Z.pos ?q] =>
           let v := eval vm_compute in (Z.pos p <=? Z.pos q) in
           change (Z.pos p <=? Z.pos q) with v
         end.

Lemma decode_head (c : byte) (t : gostring) :
  0x80 <= c ->
  match head_ok c t with
  | None => utf8.DecodeRuneInString (c :: t) = (utf8.RuneError, 1%nat)
  | Some k =>
    snd (utf8.DecodeRuneInString (c :: t)) = S k /\
    forall t', firstn k t' = firstn k t ->
      utf8.DecodeRuneInString (c :: t') = utf8.DecodeRuneInString (c :: t)
  end.
Proof.
  intros Hc.
  assert (Hbad : utf8.first c = utf8.xx ->
                 utf8.DecodeRuneInString (c :: t)
                 = (utf8.RuneError, 1%nat))
    by apply decode_invalid_lead.
  revert Hbad.
  unfold head_ok, utf8.DecodeRuneInString.
  lead_cases c; intros Hbad; try (apply Hbad; reflexivity); clear Hbad;
    unfold utf8.s1, utf8.s2, utf8.s3, utf8.s4, utf8.s5, utf8.s6, utf8.s7,
      utf8.as_;
    cbv zeta; ground_consts; cbv iota; cbn [fst snd];
    destruct t as [|c1 [|c2 [|c3 t0]]];
    cbn [length];
    repeat match goal with
           | |- context [Z.of_nat ?n <? ?k] =>
             destruct (Z.ltb_spec (Z.of_nat n) k); [try lia|try lia]
           end;
    try reflexivity;
    unfold between, utf8.locb, utf8.hicb;
    repeat match goal with
           | |- context [?x <? ?y] => destruct (Z.ltb_spec x y)
           | |- context [?x <=? ?y] => destruct (Z.leb_spec x y)
           end;
    cbn [andb orb]; try reflexivity; try lia;
    (split; [reflexivity|]);
    intros t' Hf;
    destruct t' as [|d1 [|d2 [|d3 t1]]]; cbn [firstn] in Hf;
    try discriminate Hf; injection Hf as Hf; subst;
    cbn [length];
    repeat match goal with
           | |- context [Z.of_nat ?n <? ?k] =>
             destruct (Z.ltb_spec (Z.of_nat n) k); [try lia|try lia]
           end;
    repeat match goal with
           | |- context [?x <? ?y] => destruct (Z.ltb_spec x y); try lia
           end;
    cbn [orb]; reflexivity.
Qed.

Lemma range_from_0_cons (c : byte) (t : gostring) :
  utf8.range_from 0 (c :: t)
  = fst (utf8.DecodeRuneInString (c :: t))
    :: utf8.range_from (Nat.pred (snd (utf8.DecodeRuneInString (c :: t)))) t.
Proof.
  cbn [utf8.range_from].
  destruct (utf8.DecodeRuneInString (c :: t)). reflexivity.
Qed.

(** A text in which the loop [for _, r := range s] meets no U+FFFD is
    valid UTF-8. *)
Lemma range_no_error_valid :
  forall s k, (k <= length s)%nat ->
  existsb (fun r => r =? utf8.RuneError) (utf8.range_from k s) = false ->
  utf8.valid_from k s = true.
Proof.
  intros s. induction s as [s IH] using length_induction.
  intros k Hk Hr. destruct s as [|c t]; [reflexivity|].
  destruct k as [|k].
  - rewrite range_from_0_cons in Hr. cbn [existsb] in Hr.
    apply orb_false_iff in Hr. destruct Hr as [Hr1 Hr2].
    destruct (Z.lt_ge_cases c 128) as [Hlt|Hge].
    + rewrite valid_from_ascii by exact Hlt.
      rewrite DecodeRune_ascii in Hr2 by exact Hlt. cbn [snd Nat.pred] in Hr2.
      apply IH; [cbn [length]; lia|apply Nat.le_0_l|exact Hr2].
    + rewrite valid_from_head by lia.
      pose proof (decode_head c t ltac:(lia)) as Hd.
      destruct (head_ok c t) as [k|] eqn:Hh.
      * destruct Hd as [Hsnd _]. rewrite Hsnd in Hr2. cbn [Nat.pred] in Hr2.
        destruct (head_ok_cont c t k Hh) as [Hkl _].
        apply IH; [cbn [length]; lia|exact Hkl|exact Hr2].
      * rewrite Hd in Hr1. cbn [fst] in Hr1. discriminate.
  - cbn [utf8.range_from utf8.valid_from] in *.
    apply IH; [cbn [length]; lia|cbn [length] in Hk; lia|exact Hr].
Qed.

(** The normalization of line endings brings no U+FFFD into a text
    that has none. *)
Lemma range_crlf_no_error :
  forall s k, (k <= length s)%nat ->
  Forall (fun x => 0x80 <= x) (firstn k s) ->
  existsb (fun r => r =? utf8.RuneError) (utf8.range_from k s) = false ->
  existsb (fun r => r =? utf8.RuneError)
          (utf8.range_from k (crlf_to_lf s)) = false.
Proof.
  intros s. induction s as [s IH] using length_induction.
  intros k Hk Hc Hr. destruct s as [|c t]; [destruct k; exact Hr|].
  destruct k as [|k].
  - rewrite range_from_0_cons in Hr. cbn [existsb] in Hr.
    apply orb_false_iff in Hr. destruct Hr as [Hr1 Hr2].
    destruct (Z.lt_ge_cases c 128) as [Hlt|Hge].
    + rewrite DecodeRune_ascii in Hr1, Hr2 by exact Hlt.
      cbn [fst snd Nat.pred] in Hr1, Hr2.
      cbn [crlf_to_lf]. destruct (Z.eqb_spec c 13).
      * rewrite range_from_0_cons, DecodeRune_ascii by lia.
        cbn [fst snd Nat.pred existsb].
        change (10 =? utf8.RuneError) with false. cbn [orb].
        destruct t as [|c' t'].
        -- reflexivity.
        -- destruct (Z.eqb_spec c' 10).
           ++ rewrite range_from_0_cons, DecodeRune_ascii in Hr2 by lia.
              cbn [fst snd Nat.pred existsb] in Hr2.
              apply orb_false_iff in Hr2. destruct Hr2 as [_ Hr2].
              apply IH; [cbn [length]; lia|apply Nat.le_0_l|constructor
                        |exact Hr2].
           ++ apply IH; [cbn [length]; lia|apply Nat.le_0_l|constructor
                        |exact Hr2].
      * rewrite range_from_0_cons, DecodeRune_ascii by exact Hlt.
        cbn [fst snd Nat.pred existsb]. rewrite Hr1. cbn [orb].
        apply IH; [cbn [length]; lia|apply Nat.le_0_l|constructor
                  |exact Hr2].
    + pose proof (decode_head c t ltac:(lia)) as Hd.
      destruct (head_ok c t) as [k|] eqn:Hh.
      2:{ rewrite Hd in Hr1. cbn [fst] in Hr1. discriminate. }
      destruct Hd as [Hsnd Hsame].
      destruct (head_ok_cont c t k Hh) as [Hkl Hkc].
      cbn [crlf_to_lf]. destruct (Z.eqb_spec c 13); [lia|].
      rewrite range_from_0_cons.
      rewrite (Hsame (crlf_to_lf t)).
      * cbn [existsb]. rewrite Hr1. cbn [orb].
        rewrite Hsnd in *. cbn [Nat.pred] in *.
        apply IH; [cbn [length]; lia|exact Hkl|exact Hkc|exact Hr2].
      * rewrite (crlf_firstn k t Hkl Hkc).
        destruct (firstn_firstn_app k t (crlf_to_lf (skipn k t)));
          [assumption|lia].
  - cbn [firstn] in Hc. inversion Hc as [|x l Hx Hl]; subst.
    cbn [crlf_to_lf]. destruct (Z.eqb_spec c 13); [lia|].
    cbn [utf8.range_from] in *.
    apply IH; [cbn [length]; lia|cbn [length] in Hk; lia|exact Hl|exact Hr].
Qed.

Lemma legacy_text_clean (pkg : charmap.Package) (data : gostring) :
  TXT.has_bom 0xFF 0xFE data = false ->
  TXT.has_bom 0xFE 0xFF data = false ->
  utf8.Valid data = false ->
  Forall (fun c => 0 <= c < 256) data ->
  exists text,
    fst (TXT.extractTXT pkg data) = crlf_to_lf text /\
    strings.ContainsRune text 0xFFFD = false.
Proof.
  intros Hle Hbe Hv Hd. unfold TXT.extractTXT. rewrite Hle, Hbe, Hv.
  assert (Hraw : strings.ContainsRune (string_of_runes data) 65533 = false).
  { rewrite ContainsRune_RuneError, raw_bytes_read_back by exact Hd.
    apply not_true_is_false. intros H. apply existsb_exists in H.
    destruct H as (c & Hin & Hc). rewrite Forall_forall in Hd.
    specialize (Hd c Hin). apply Z.eqb_eq in Hc.
    unfold utf8.RuneError in Hc. lia. }
  destruct (TXT.decodeBestCyrillic pkg data) as [decoded [|]] eqn:Hb.
  - exists decoded. cbn [fst]. rewrite normalize_newlines_crlf_to_lf.
    split; [reflexivity|].
    unfold TXT.decodeBestCyrillic in Hb.
    destruct (fold_left _ _ _) as [bestText s0].
    destruct bestText as [|x t]; [discriminate|].
    destruct (strings.ContainsRune (x :: t) 65533) eqn:Hc; [discriminate|].
    injection Hb as <-. exact Hc.
  - exists (string_of_runes data). cbn [fst].
    rewrite normalize_newlines_crlf_to_lf. split; [reflexivity|exact Hraw].
Qed.

(** X23 (extractTXT, lines 357-371, and decodeBestCyrillic, lines
    402-409): on the legacy path, for an input without byte order mark
    that is not valid UTF-8, the text returned never holds U+FFFD and
    is valid UTF-8, whatever the five tables of [charmap] hold: a
    decoding with a replacement character is refused, and the code
    points of the raw bytes are given instead. *)
Theorem extractTXT_legacy_no_replacement (pkg : charmap.Package)
  (data : gostring) :
  TXT.has_bom 0xFF 0xFE data = false ->
  TXT.has_bom 0xFE 0xFF data = false ->
  utf8.Valid data = false ->
  Forall (fun c => 0 <= c < 256) data ->
  strings.ContainsRune (fst (TXT.extractTXT pkg data)) 0xFFFD = false /\
  utf8.Valid (fst (TXT.extractTXT pkg data)) = true.
Proof.
  intros Hle Hbe Hv Hd.
  destruct (legacy_text_clean pkg data Hle Hbe Hv Hd) as (text & -> & Hc).
  rewrite ContainsRune_RuneError in *.
  assert (H : existsb (fun r => r =? utf8.RuneError)
                (utf8.range (crlf_to_lf text)) = false)
    by (apply range_crlf_no_error; [apply Nat.le_0_l|constructor|exact Hc]).
  split; [exact H|].
  apply range_no_error_valid; [apply Nat.le_0_l|exact H].
Qed.

Lemma extractTXT_legacy_no_replacement_witness :
  strings.ContainsRune
    (charmap.Decode (charmap.Windows1251 Tables.x_text) cp1251_unmapped)
    0xFFFD = true /\
  strings.ContainsRune
    (fst (TXT.extractTXT Tables.x_text cp1251_unmapped)) 0xFFFD = false /\
  utf8.Valid (fst (TXT.extractTXT Tables.x_text cp1251_unmapped)) = true.
Proof.
  split; [vm_compute; reflexivity|].
  apply (extractTXT_legacy_no_replacement Tables.x_text cp1251_unmapped);
    try reflexivity.
  apply Forall_forall. intros c Hc. vm_compute in Hc.
  repeat (destruct Hc as [<-|Hc]; [lia|]). contradiction.
Defined.

(** X24 (extractTXT, lines 327-372): whatever the bytes of the input
    and whatever the tables of [charmap] hold, the text that
    [extractTXT] returns is valid UTF-8.  This holds for each of its
    five returns: the two decodings of UTF-16, the valid UTF-8 input,
    the decoding under a Cyrillic encoding, and the code points of the
    raw bytes. *)
Theorem extractTXT_output_valid (pkg : charmap.Package) (data : gostring) :
  Forall (fun c => 0 <= c < 256) data ->
  utf8.Valid (fst (TXT.extractTXT pkg data)) = true.
Proof.
  intros Hd.
  destruct (TXT.has_bom 255 254 data) eqn:Hle.
  { unfold TXT.extractTXT. rewrite Hle.
    cbn [fst]. rewrite normalize_newlines_crlf_to_lf.
    apply Valid_crlf, Valid_string_of_runes, Decode_scalar, units_le_range.
    apply Forall_skipn_bytes, Hd. }
  destruct (TXT.has_bom 254 255 data) eqn:Hbe.
  { unfold TXT.extractTXT. rewrite Hle, Hbe.
    cbn [fst]. rewrite normalize_newlines_crlf_to_lf.
    apply Valid_crlf, Valid_string_of_runes, Decode_scalar, units_be_range.
    apply Forall_skipn_bytes, Hd. }
  destruct (utf8.Valid data) eqn:Hv.
  { unfold TXT.extractTXT. rewrite Hle, Hbe, Hv.
    cbn [fst]. rewrite normalize_newlines_crlf_to_lf.
    apply Valid_crlf, Hv. }
  destruct (legacy_text_clean pkg data Hle Hbe Hv Hd) as (text & -> & Hc).
  rewrite ContainsRune_RuneError in Hc.
  apply range_no_error_valid; [apply Nat.le_0_l|].
  apply range_crlf_no_error; [apply Nat.le_0_l|constructor|exact Hc].
Qed.

Lemma extractTXT_output_valid_witness :
  utf8.Valid [0xFF; 0xFE; 0x00; 0xD8; 0x41; 0x00; 0x0D] = false /\
  TXT.extractTXT Tables.x_text [0xFF; 0xFE; 0x00; 0xD8; 0x41; 0x00; 0x0D]
  = ([0xEF; 0xBF; 0xBD; 0x41], None) /\
  utf8.Valid (fst (TXT.extractTXT Tables.x_text
                     [0xFF; 0xFE; 0x00; 0xD8; 0x41; 0x00; 0x0D])) = true.
Proof.
  split; [reflexivity|]. split; [vm_compute; reflexivity|].
  apply (extractTXT_output_valid Tables.x_text).
  repeat constructor; lia.
Defined.

(** ** [extractRTF] does not decode the bytes of [\'hh] escapes *)

(** X25 (extractRTF, lines 209-220 and 292-324): the bytes written as
    [\'hh] escapes are not decoded under any code page.  A byte
    sequence that the normalization leaves alone, and that is valid
    UTF-8 or does not start with a byte order mark, is returned byte
    for byte when it is written as [\'hh] escapes; the text returned
    need therefore not be valid UTF-8, as for a text in
    Windows-1251. *)
Theorem extractRTF_hex_verbatim (s : gostring) :
  Forall (fun c => 0 <= c < 256) s ->
  normalized s ->
  utf8.ValidString s = true \/
  (TXT.has_bom 0xFF 0xFE s = false /\ TXT.has_bom 0xFE 0xFF s = false) ->
  RTF.extractRTF (flat_map hex_escape s) = (s, None).
Proof.
  intros Hs Hn Hv. unfold RTF.extractRTF.
  assert (Ht : RTF.tokenize (flat_map hex_escape s) = s).
  { rewrite tokenize_run. unfold RTF.init.
    rewrite <- (app_nil_r (flat_map hex_escape s)).
    rewrite run_hex by (exact Hs || lia).
    rewrite run_done by reflexivity. reflexivity. }
  rewrite Ht, (normalize_fixes_normalized s Hn).
  apply finish_keeps, Hv.
Qed.

Lemma extractRTF_hex_verbatim_witness :
  utf8.ValidString cp1251_privet = false /\
  RTF.extractRTF (bytes_of_string "\'cf\'f0\'e8\'e2\'e5\'f2")
  = (cp1251_privet, None).
Proof.
  split; [reflexivity|].
  apply (extractRTF_hex_verbatim cp1251_privet).
  - repeat constructor; lia.
  - unfold normalized. split; [repeat constructor; lia|].
    split; [reflexivity|]. split; reflexivity.
  - right. split; reflexivity.
Defined.

(** ** The skip marker and the groups that it discards *)

Lemma iter_invariant (data : gostring) (n : nat) :
  Z.of_nat (length data) < 2 ^ 63 ->
  0 <= RTF.depth (RTF.iter n (RTF.init data)) /\
  RTF.depth (RTF.iter n (RTF.init data))
  + Z.of_nat (length (RTF.rest (RTF.iter n (RTF.init data))))
  <= Z.of_nat (length data) /\
  (RTF.skipUntilDepth (RTF.iter n (RTF.init data)) = -1 \/
   0 <= RTF.skipUntilDepth (RTF.iter n (RTF.init data))
   <= RTF.depth (RTF.iter n (RTF.init data))).
Proof.
  intros HL. induction n as [|n IH].
  - cbn [RTF.iter RTF.init RTF.depth RTF.rest RTF.skipUntilDepth]. lia.
  - rewrite iter_S. destruct IH as (H1 & H2 & H3).
    apply (step_invariant (Z.of_nat (length data))); assumption.
Qed.

Lemma run_iter (n : nat) :
  forall st, rtf_run (RTF.iter n st) = rtf_run st.
Proof.
  induction n as [|n IH]; intros st; [reflexivity|].
  cbn [RTF.iter]. rewrite IH.
  destruct (RTF.rest st) as [|c r] eqn:Hr.
  - rewrite (step_done st Hr). reflexivity.
  - symmetry. apply run_step. rewrite Hr. discriminate.
Qed.

(** How one iteration moves the depth: up by one at an opening brace,
    down by one, but not below zero, at a closing brace, not at all
    otherwise. *)
Lemma step_depth (st : RTF.state) :
  0 <= RTF.depth st -> RTF.depth st + 1 < 2 ^ 63 ->
  RTF.depth (RTF.step st) =
  match RTF.rest st with
  | c :: _ => if c =? 123 then RTF.depth st + 1
              else if c =? 125 then Z.max 0 (RTF.depth st - 1)
              else RTF.depth st
  | [] => RTF.depth st
  end.
Proof.
  intros Hd Hw. unfold RTF.step.
  destruct (RTF.rest st) as [|c r]; [reflexivity|].
  destruct (c =? 123);
    [cbn [RTF.depth]; apply wrap_int_small; lia|].
  destruct (c =? 125).
  { cbn [RTF.depth]. destruct (Z.gtb_spec (RTF.depth st) 0); lia. }
  destruct (c =? 92).
  - destruct r as [|sym r1]; [reflexivity|].
    destruct (negb (RTF.isLetter sym)).
    + apply (control_symbol_marker sym r1).
    + apply (control_word_marker (sym :: r1)).
  - destruct ((c =? 13) || (c =? 10)); reflexivity.
Qed.

(** From a destination keyword, or from [\*], met outside a skipped
    group, to the closing brace of its group: whatever well-formed
    content lies in between, nested groups included, the tokenizer
    goes on after that brace with the text written so far as it
    was. *)
Lemma destination_discarded (st : RTF.state) (w body tail : gostring) :
  fragment body ->
  RTF.skipUntilDepth st = -1 ->
  0 <= RTF.depth st ->
  RTF.depth st + Z.of_nat (length body) < 2 ^ 63 ->
  (RTF.isDestination w = true /\ hdp RTF.isLetter body = false /\
   RTF.rest st = [92] ++ w ++ body ++ 125 :: tail) \/
  RTF.rest st = [92; 42] ++ body ++ 125 :: tail ->
  rtf_run st
  = rtf_run (RTF.mkState tail (Z.max 0 (RTF.depth st - 1)) (-1) (RTF.b st)).
Proof.
  intros Hf Hs Hd HD Hrest. destruct st as [r d s b].
  cbn [RTF.rest RTF.depth RTF.skipUntilDepth RTF.b] in *. subst s.
  assert (Hclose : forall t', fragment t' ->
            (length t' <= length body)%nat ->
            rtf_run (RTF.mkState (t' ++ 125 :: tail) d d b)
            = rtf_run (RTF.mkState tail (Z.max 0 (d - 1)) (-1) b)).
  { intros t' Hf' Hl'. rewrite skip_fragment by (exact Hf' || lia).
    rewrite run_cons. unfold RTF.step.
    cbn [RTF.rest RTF.depth RTF.skipUntilDepth RTF.b].
    change (125 =? 123) with false. change (125 =? 125) with true.
    cbv iota.
    destruct (Z.geb_spec d 0); [|lia].
    rewrite Z.eqb_refl. cbn [andb].
    destruct (Z.gtb_spec d 0);
      [replace (Z.max 0 (d - 1)) with (d - 1) by lia
      |replace (Z.max 0 (d - 1)) with d by lia]; reflexivity. }
  destruct Hrest as [(Hw & Hb & ->)| ->].
  - destruct (destination_letters w Hw) as (l & w' & -> & Hl & Hall).
    cbn [app]. rewrite run_cons. unfold RTF.step.
    cbn [RTF.rest RTF.depth RTF.skipUntilDepth RTF.b].
    change (92 =? 123) with false. change (92 =? 125) with false.
    change (92 =? 92) with true. cbv iota.
    rewrite Hl. cbn [negb].
    destruct (control_word_destination (l :: w') body tail d b
                Hw Hall Hb Hf) as (t' & Hf' & Hl' & Heq).
    cbn [app] in Heq. rewrite Heq. apply Hclose; assumption.
  - cbn [app]. rewrite run_cons. unfold RTF.step.
    cbn [RTF.rest RTF.depth RTF.skipUntilDepth RTF.b].
    change (92 =? 123) with false. change (92 =? 125) with false.
    change (92 =? 92) with true. cbv iota.
    change (negb (RTF.isLetter 42)) with true. cbv iota.
    unfold RTF.control_symbol.
    change ((42 =? 92) || (42 =? 123) || (42 =? 125)) with false.
    change (42 =? 126) with false. change (42 =? 45) with false.
    change (42 =? 95) with false. change (42 =? 42) with true.
    change (-1 <? 0) with true. cbv iota.
    apply Hclose; [exact Hf|apply Nat.le_refl].
Qed.

(** C2.  Along every run of the tokenizer ([st] is the state after [n]
    iterations, [st'] the next one): when the skip marker is set, it
    equals the depth at the moment skipping began, the iteration [m]
    that set it, and has not changed since; a set marker is cleared by
    the next iteration exactly when that iteration reads a closing brace
    with the depth equal to the marker; and nothing is written while the
    marker is set.  The depth counts the open braces: it is never
    negative, goes up by one at an opening brace, down by one (not
    below zero) at a closing brace, and does not move otherwise.
    Consequently a destination group is discarded in full: wherever in
    a run a destination word ([\fonttbl], [\colortbl], [\stylesheet],
    [\info], [\pict], [\header], [\footer]) or [\*] is met outside a
    skipped group, everything from there to the closing brace of its
    group, whatever well-formed content and however many nested brace
    groups lie in between, leaves no trace, and the output of the run
    is what the input after that brace gives on top of the text written
    before.  The group [{\fonttbl{\f0 Arial;}}] is thus dropped with
    its nested group, and [Text] is the output. *)
Theorem skip_marker_invariant (data : gostring) (n : nat) :
  let st := RTF.iter n (RTF.init data) in
  let st' := RTF.step st in
  (0 <= RTF.skipUntilDepth st ->
   exists m, (m < n)%nat /\
     RTF.skipUntilDepth (RTF.iter m (RTF.init data)) < 0 /\
     forall k, (m < k <= n)%nat ->
       RTF.skipUntilDepth (RTF.iter k (RTF.init data))
       = RTF.depth (RTF.iter m (RTF.init data))) /\
  (0 <= RTF.skipUntilDepth st ->
   (RTF.skipUntilDepth st' <> RTF.skipUntilDepth st <->
    (exists r, RTF.rest st = 125 :: r) /\
    RTF.depth st = RTF.skipUntilDepth st) /\
   (RTF.skipUntilDepth st' = RTF.skipUntilDepth st \/
    RTF.skipUntilDepth st' = -1) /\
   RTF.b st' = RTF.b st) /\
  RTF.extractRTF (bytes_of_string "{\fonttbl{\f0 Arial;}}Text")
  = (bytes_of_string "Text", None) /\
  (Z.of_nat (length data) < 2 ^ 63 ->
   0 <= RTF.depth st /\
   RTF.depth st' =
   match RTF.rest st with
   | c :: _ => if c =? 123 then RTF.depth st + 1
               else if c =? 125 then Z.max 0 (RTF.depth st - 1)
               else RTF.depth st
   | [] => RTF.depth st
   end) /\
  (Z.of_nat (length data) < 2 ^ 63 ->
   RTF.skipUntilDepth st < 0 ->
   forall w body tail,
     fragment body ->
     (RTF.isDestination w = true /\ hdp RTF.isLetter body = false /\
      RTF.rest st = [92] ++ w ++ body ++ 125 :: tail) \/
     RTF.rest st = [92; 42] ++ body ++ 125 :: tail ->
     let after :=
       RTF.mkState tail (Z.max 0 (RTF.depth st - 1)) (-1) (RTF.b st) in
     rtf_run st = rtf_run after /\
     RTF.tokenize data = RTF.b (rtf_run after) /\
     RTF.extractRTF data
     = RTF.finish (RTF.normalize (RTF.b (rtf_run after)))).
Proof.
  intros st st'. split; [apply marker_recorded|].
  split; [|split; [reflexivity|]].
  - intros Hset.
    destruct (step_marker_set st Hset) as (Hb & Hclear & Hkept).
    fold st' in Hb, Hclear, Hkept.
    split; [|split; [|exact Hb]].
    + split.
      * intros Hne.
        destruct (Z.eq_dec (RTF.depth st) (RTF.skipUntilDepth st))
          as [E|E].
        -- split; [|exact E].
           destruct (RTF.rest st) as [|c r] eqn:Hr.
           ++ exfalso. apply Hne, Hkept. intros [[r H] _]. discriminate.
           ++ destruct (Z.eq_dec c 125) as [->|Hc]; [eauto|].
              exfalso. apply Hne, Hkept. intros [[r0 H] _]. congruence.
        -- exfalso. apply Hne, Hkept. tauto.
      * intros Hc. rewrite (Hclear Hc). lia.
    + destruct (Z.eq_dec (RTF.depth st) (RTF.skipUntilDepth st)) as [E|E].
      * destruct (RTF.rest st) as [|c r] eqn:Hr.
        -- left. apply Hkept. intros [[r H] _]. discriminate.
        -- destruct (Z.eq_dec c 125) as [->|Hc].
           ++ right. apply Hclear. eauto.
           ++ left. apply Hkept. intros [[r0 H] _]. congruence.
      * left. apply Hkept. tauto.
  - split.
    + intros HL. destruct (iter_invariant data n HL) as (Hd & Hlen & _).
      fold st in Hd, Hlen. split; [exact Hd|].
      destruct (RTF.rest st) as [|c r] eqn:Hr.
      * unfold st'. rewrite (step_done st Hr). reflexivity.
      * unfold st'. rewrite step_depth; [rewrite Hr; reflexivity|exact Hd|].
        cbn [length] in Hlen. lia.
    + intros HL Hskip w body tail Hf Hrest after.
      destruct (iter_invariant data n HL) as (Hd & Hlen & Hm).
      fold st in Hd, Hlen, Hm.
      assert (Hs : RTF.skipUntilDepth st = -1) by lia.
      assert (HD : RTF.depth st + Z.of_nat (length body) < 2 ^ 63).
      { destruct Hrest as [(_ & _ & Hr)|Hr]; rewrite Hr in Hlen;
          rewrite !length_app in Hlen; cbn [length] in Hlen; lia. }
      assert (Hrun : rtf_run st = rtf_run after)
        by (apply (destination_discarded st w body tail); assumption).
      assert (Htok : RTF.tokenize data = RTF.b (rtf_run after)).
      { rewrite tokenize_run, <- Hrun. unfold st.
        now rewrite run_iter. }
      split; [exact Hrun|]. split; [exact Htok|].
      unfold RTF.extractRTF. now rewrite Htok.
Qed.

Lemma skip_marker_invariant_witness :
  let data := bytes_of_string "{\fonttbl{\f0 Arial;}}Text" in
  RTF.skipUntilDepth (RTF.iter 11 (RTF.init data)) = 1 /\
  RTF.skipUntilDepth (RTF.iter 12 (RTF.init data)) = -1 /\
  (exists m, (m < 11)%nat /\
     RTF.skipUntilDepth (RTF.iter m (RTF.init data)) < 0 /\
     forall k, (m < k <= 11)%nat ->
       RTF.skipUntilDepth (RTF.iter k (RTF.init data))
       = RTF.depth (RTF.iter m (RTF.init data))) /\
  RTF.rest (RTF.iter 1 (RTF.init data))
  = [92] ++ bytes_of_string "fonttbl" ++ bytes_of_string "{\f0 Arial;}"
    ++ 125 :: bytes_of_string "Text" /\
  fragment (bytes_of_string "{\f0 Arial;}") /\
  RTF.tokenize data
  = RTF.b (rtf_run (RTF.mkState (bytes_of_string "Text") 0 (-1) [])) /\
  RTF.b (rtf_run (RTF.mkState (bytes_of_string "Text") 0 (-1) []))
  = bytes_of_string "Text".
Proof.
  intros data. split; [reflexivity|]. split; [reflexivity|].
  split.
  { apply (proj1 (skip_marker_invariant data 11)).
    vm_compute. discriminate. }
  split; [reflexivity|].
  assert (Hf : fragment (bytes_of_string "{\f0 Arial;}")).
  { apply (frag_group (bytes_of_string "\f0 Arial;") []);
      [|apply frag_nil].
    apply (frag_word (bytes_of_string "f") (bytes_of_string "0 Arial;"));
      [discriminate|reflexivity|reflexivity|].
    repeat (apply frag_byte; [reflexivity|]). apply frag_nil. }
  split; [exact Hf|]. split; [|reflexivity].
  destruct (skip_marker_invariant data 1) as (_ & _ & _ & _ & H).
  apply (H ltac:(vm_compute; reflexivity) ltac:(vm_compute; reflexivity)
           (bytes_of_string "fonttbl") (bytes_of_string "{\f0 Arial;}")
           (bytes_of_string "Text") Hf
           (or_introl (conj eq_refl (conj eq_refl eq_refl)))).
Defined.
